(** * Reliable transport over a byte stream: sender window and receiver reassembly

    A shallow embedding of [client.py] (the sliding-window sender) and
    [server.py] (the reassembling receiver), and the properties of the two
    state machines.

    Conventions of the embedding.
    - A Python [int] is a [Z].  A Python [str] is a [string] whose characters
      are code points below 256, so [len(s)] is [String.length s] and the
      length of [s.encode()] counts two bytes for a code point above 127.
    - A decoded JSON value is a [json]; the two peers only put integers,
      strings and booleans on the wire, and the value type has no float.
      Python's [None] and JSON's [null] are the same value, [JNull].
    - A [dict] read off the wire is an association list looked up from the
      front; the dictionaries the programs own ([rcv_buffer],
      [sent_packets_buffer]) are finite maps keyed by [Z].
    - What a peer writes to its socket (or prints as its final output) is
      returned as a list of events, oldest first.
    - [time.time()] is an input of the step that reads it; clock readings and
      the configured timeout are numbers of one unit, of which only the order
      and the differences matter, and a [Z] stands for each.
    - The [print] calls that only log are left out. *)

From stdpp Require Import gmap strings list fin_maps sorting.
From Stdlib Require Import ZArith Lia Ascii String.

#[local] Set Warnings "-register-all".

Open Scope Z_scope.

(** ** Wire values *)

Module Wire.

Inductive json : Type :=
| JNull
| JBool (b : bool)
| JInt (z : Z)
| JStr (s : string)
| JList (l : list json)
| JObj (o : list (string * json)).

(** [key in d] and [d.get(key, default)] of a decoded dict. *)
Fixpoint dict_lookup (k : string) (o : list (string * json)) : option json :=
  match o with
  | [] => None
  | (k', v) :: o' => if String.eqb k k' then Some v else dict_lookup k o'
  end.

Definition dict_has (k : string) (o : list (string * json)) : bool :=
  match dict_lookup k o with Some _ => true | None => false end.

Definition dict_get (o : list (string * json)) (k : string) (dflt : json) : json :=
  match dict_lookup k o with Some v => v | None => dflt end.

(** Python truthiness, as [if not seg] and [if ack_msg and ...] test it. *)
Definition truthy (v : json) : bool :=
  match v with
  | JNull => false
  | JBool b => b
  | JInt z => negb (z =? 0)
  | JStr s => negb (String.eqb s "")
  | JList l => match l with [] => false | _ => true end
  | JObj o => match o with [] => false | _ => true end
  end.

(** [isinstance(v, int)]: a [bool] is an [int] in Python ([True == 1]). *)
Definition as_int (v : json) : option Z :=
  match v with
  | JInt z => Some z
  | JBool b => Some (if b then 1 else 0)
  | _ => None
  end.

(** [v == "lit"] for a string literal. *)
Definition is_str (v : json) (lit : string) : bool :=
  match v with JStr s => String.eqb s lit | _ => false end.

(** [len(s.encode())]: the UTF-8 length of a string of code points < 256. *)
Definition utf8_width (c : ascii) : Z :=
  if (nat_of_ascii c <? 128)%nat then 1 else 2.

Fixpoint encode_len (s : string) : Z :=
  match s with
  | EmptyString => 0
  | String c s' => utf8_width c + encode_len s'
  end.

Definition data_msg (seq : Z) (payload : string) : json :=
  JObj [("type", JStr "DATA"); ("seq", JInt seq); ("payload", JStr payload)]%string.

(** *** Reading a record off the wire

    [json.loads] belongs to Python's library, and the decoders below take it
    as a parameter.  [loads] is an instance to run them on: it reads [strip]ped
    ASCII text in the fragment of JSON without floats and without [\u]
    escapes, which holds every record the two peers write for printable ASCII
    payloads, and it answers [None] where [json.loads] raises on such text. *)

Definition is_py_space (c : ascii) : bool :=
  let n := nat_of_ascii c in
  ((9 <=? n) && (n <=? 13) || (28 <=? n) && (n <=? 32))%nat.

Fixpoint lstrip (s : string) : string :=
  match s with
  | String c r => if is_py_space c then lstrip r else s
  | EmptyString => s
  end.

Fixpoint rstrip (s : string) : string :=
  match s with
  | EmptyString => EmptyString
  | String c r =>
      match rstrip r with
      | EmptyString => if is_py_space c then EmptyString else String c EmptyString
      | r' => String c r'
      end
  end.

Definition strip (s : string) : string := rstrip (lstrip s).

Definition is_json_ws (c : ascii) : bool :=
  let n := nat_of_ascii c in
  ((n =? 32) || (n =? 9) || (n =? 10) || (n =? 13))%nat.

Fixpoint skip_ws (s : string) : string :=
  match s with
  | String c r => if is_json_ws c then skip_ws r else s
  | EmptyString => s
  end.

Definition digit_of (c : ascii) : option Z :=
  let n := nat_of_ascii c in
  if ((48 <=? n) && (n <=? 57))%nat then Some (Z.of_nat n - 48) else None.

Fixpoint read_digits (s : string) (acc : Z) : Z * string :=
  match s with
  | String c r =>
      match digit_of c with
      | Some d => read_digits r (10 * acc + d)
      | None => (acc, s)
      end
  | EmptyString => (acc, s)
  end.

(** [0] or a digit string with no leading zero. *)
Definition read_nat (s : string) : option (Z * string) :=
  match s with
  | String c r =>
      match digit_of c with
      | Some d => if d =? 0 then Some (0, r) else Some (read_digits r d)
      | None => None
      end
  | EmptyString => None
  end.

Definition starts_fraction (s : string) : bool :=
  match s with
  | String c _ => Ascii.eqb c "."%char || Ascii.eqb c "e"%char || Ascii.eqb c "E"%char
  | EmptyString => false
  end.

Definition read_int (s : string) : option (Z * string) :=
  match
    match s with
    | String c r =>
        if Ascii.eqb c "-"%char
        then match read_nat r with Some (n, r') => Some (- n, r') | None => None end
        else read_nat s
    | EmptyString => None
    end
  with
  | Some (n, r) => if starts_fraction r then None else Some (n, r)
  | None => None
  end.

Definition quote : ascii := "034"%char.
Definition backslash : ascii := "092"%char.

Definition unescape (c : ascii) : option ascii :=
  if Ascii.eqb c quote then Some quote
  else if Ascii.eqb c backslash then Some backslash
  else if Ascii.eqb c "/"%char then Some "/"%char
  else if Ascii.eqb c "b"%char then Some "008"%char
  else if Ascii.eqb c "f"%char then Some "012"%char
  else if Ascii.eqb c "n"%char then Some "010"%char
  else if Ascii.eqb c "r"%char then Some "013"%char
  else if Ascii.eqb c "t"%char then Some "009"%char
  else None.

(** The text of a string literal, from after its opening quote. *)
Fixpoint read_string (s : string) : option (string * string) :=
  match s with
  | EmptyString => None
  | String c r =>
      if Ascii.eqb c quote then Some (EmptyString, r)
      else if Ascii.eqb c backslash then
        match r with
        | String e r' =>
            match unescape e, read_string r' with
            | Some ch, Some (t, rest) => Some (String ch t, rest)
            | _, _ => None
            end
        | EmptyString => None
        end
      else if (nat_of_ascii c <? 32)%nat || (127 <? nat_of_ascii c)%nat then None
      else
        match read_string r with
        | Some (t, rest) => Some (String c t, rest)
        | None => None
        end
  end.

(** [d[k] = v]: a repeated key keeps its place and takes the later value. *)
Fixpoint dict_set (k : string) (v : json) (o : list (string * json)) : list (string * json) :=
  match o with
  | [] => [(k, v)]
  | (k', v') :: o' => if String.eqb k k' then (k, v) :: o' else (k', v') :: dict_set k v o'
  end.

Definition read_literal (lit : string) (v : json) (s : string) : option (json * string) :=
  if String.prefix lit s
  then Some (v, substring (String.length lit) (String.length s - String.length lit) s)
  else None.

Section reader.
Context (read_value : string → option (json * string)).

(** The elements of an array, from a place where a value is due. *)
Fixpoint read_elems (fuel : nat) (s : string) (acc : list json) : option (list json * string) :=
  match fuel with
  | O => None
  | S fuel' =>
      match read_value s with
      | Some (v, r) =>
          match skip_ws r with
          | String c r' =>
              if Ascii.eqb c ","%char then read_elems fuel' r' (acc ++ [v])
              else if Ascii.eqb c "]"%char then Some (acc ++ [v], r')
              else None
          | EmptyString => None
          end
      | None => None
      end
  end.

(** The members of an object, from a place where a key is due. *)
Fixpoint read_members (fuel : nat) (s : string) (acc : list (string * json))
  : option (list (string * json) * string) :=
  match fuel with
  | O => None
  | S fuel' =>
      match skip_ws s with
      | String q r =>
          if Ascii.eqb q quote then
            match read_string r with
            | Some (k, r1) =>
                match skip_ws r1 with
                | String c r2 =>
                    if Ascii.eqb c ":"%char then
                      match read_value r2 with
                      | Some (v, r3) =>
                          match skip_ws r3 with
                          | String d r4 =>
                              if Ascii.eqb d ","%char then read_members fuel' r4 (dict_set k v acc)
                              else if Ascii.eqb d "}"%char then Some (dict_set k v acc, r4)
                              else None
                          | EmptyString => None
                          end
                      | None => None
                      end
                    else None
                | EmptyString => None
                end
            | None => None
            end
          else None
      | EmptyString => None
      end
  end.

End reader.

Fixpoint read_value (fuel : nat) (s : string) : option (json * string) :=
  match fuel with
  | O => None
  | S fuel' =>
      match skip_ws s with
      | EmptyString => None
      | String c r =>
          if Ascii.eqb c "{"%char then
            match skip_ws r with
            | String d r' =>
                if Ascii.eqb d "}"%char then Some (JObj [], r')
                else
                  match read_members (read_value fuel') (String.length r) r [] with
                  | Some (o, rest) => Some (JObj o, rest)
                  | None => None
                  end
            | EmptyString => None
            end
          else if Ascii.eqb c "["%char then
            match skip_ws r with
            | String d r' =>
                if Ascii.eqb d "]"%char then Some (JList [], r')
                else
                  match read_elems (read_value fuel') (String.length r) r [] with
                  | Some (l, rest) => Some (JList l, rest)
                  | None => None
                  end
            | EmptyString => None
            end
          else if Ascii.eqb c quote then
            match read_string r with
            | Some (t, rest) => Some (JStr t, rest)
            | None => None
            end
          else if Ascii.eqb c "t"%char then read_literal "true" (JBool true) (String c r)
          else if Ascii.eqb c "f"%char then read_literal "false" (JBool false) (String c r)
          else if Ascii.eqb c "n"%char then read_literal "null" JNull (String c r)
          else
            match read_int (String c r) with
            | Some (n, rest) => Some (JInt n, rest)
            | None => None
            end
      end
  end.

Definition loads (line : string) : option json :=
  let text := strip line in
  match read_value (S (String.length text)) text with
  | Some (v, rest) => match skip_ws rest with EmptyString => Some v | _ => None end
  | None => None
  end.

End Wire.

(** ** The receiver ([server.py]) *)

Module Server.
Import Wire.

(** What [handle_client] writes: a message on the socket, or the final
    message on the console. *)
Inductive event : Type :=
| Send (m : json)
| Print (s : string).

(** How the body of [while True] leaves: [continue] (or falling off its end),
    [break], or an exception that nothing in [handle_client] catches. *)
Inductive control : Type := Continue | Break | Raise.

(** The locals of [handle_client] that the transfer loop updates. *)
Record state : Type := State {
  rcv_base : Z;
  rcv_buffer : gmap Z string;
  app_data : list string;
  mss : Z
}.

(** [cfg["maximum message size"]] and [dyn_mss], fixed for the session. *)
Record config : Type := Config {
  cfg_mss : Z;
  dyn_mss : bool
}.

Definition init (cfg : config) : state :=
  State 0 ∅ [] (cfg_mss cfg).

Section decoder.
(** [json.loads(line.decode(errors="replace").strip())]: [None] when it
    raises. *)
Context (json_loads : string → option json).

Definition recv_msg (line : string) : json :=
  if String.eqb line "" then JNull
  else match json_loads line with
       | Some v => v
       | None => JObj [("type", JStr "ERR"); ("reason", JStr "bad_json")]%string
       end.

End decoder.

Definition send_ack (cfg : config) (st : state) : event :=
  Send (JObj ([("type", JStr "ACK"); ("ack", JInt (rcv_base st - 1))]%string
              ++ if dyn_mss cfg then [("maximum message size"%string, JInt (mss st))] else [])).

(** [while rcv_base in rcv_buffer: app_data.append(rcv_buffer.pop(rcv_base));
    rcv_base += 1].  Every turn removes a key, so as many turns as the buffer
    has entries are enough. *)
Fixpoint drain_loop (fuel : nat) (st : state) : state :=
  match fuel with
  | O => st
  | S fuel' =>
      match rcv_buffer st !! rcv_base st with
      | Some p =>
          drain_loop fuel'
            (State (rcv_base st + 1) (delete (rcv_base st) (rcv_buffer st))
                   (app_data st ++ [p]) (mss st))
      | None => st
      end
  end.

Definition drain (st : state) : state :=
  drain_loop (size (rcv_buffer st)) st.

(** Lines 175-179: buffer the segment, then deliver the contiguous run. *)
Definition reassemble (seq : Z) (payload : string) (st : state) : state :=
  if rcv_base st <=? seq then
    drain (State (rcv_base st) (<[seq := payload]> (rcv_buffer st)) (app_data st) (mss st))
  else st.

(** Lines 182-186: the receiver-side size adaptation. *)
Definition adapt (cfg : config) (st : state) : state :=
  if dyn_mss cfg then
    if (2 <? size (rcv_buffer st))%nat then
      State (rcv_base st) (rcv_buffer st) (app_data st) (Z.max 20 (mss st - 20))
    else if (size (rcv_buffer st) =? 0)%nat then
      State (rcv_base st) (rcv_buffer st) (app_data st) (Z.min (cfg_mss cfg) (mss st + 10))
    else st
  else st.

(** Lines 155-188, for a record whose type is DATA. *)
Definition on_data (cfg : config) (seg : list (string * json)) (st : state)
  : control * state * list event :=
  let seq := dict_get seg "seq" JNull in
  let payload := dict_get seg "payload" (JStr "") in
  match as_int seq with
  | None => (Continue, st, [send_ack cfg st])
  | Some s =>
      if s <? rcv_base st then (Continue, st, [send_ack cfg st])
      else
        match payload with
        | JNull => (Continue, st, [send_ack cfg st])
        | JStr p =>
            if mss st <? encode_len p then (Continue, st, [send_ack cfg st])
            else
              let st' := adapt cfg (reassemble s p st) in
              (Continue, st', [send_ack cfg st'])
        | _ => (Raise, st, [])
        end
  end.

Definition newline : string := String "010"%char EmptyString.

Definition final_message (st : state) : string :=
  newline +:+ "--- FINAL MESSAGE ---" +:+ newline +:+ String.concat "" (app_data st)
    +:+ newline +:+ "--------------------" +:+ newline.

(** One turn of the transfer loop on the result of [recv_msg]. *)
Definition handle_segment (cfg : config) (seg : json) (st : state)
  : control * state * list event :=
  if negb (truthy seg) then (Break, st, [])
  else
    match seg with
    | JObj o =>
        let t := dict_get o "type" JNull in
        if is_str t "FIN" then
          (Break, st, [Print (final_message st); Send (JObj [("type", JStr "FIN_ACK")]%string)])
        else if negb (is_str t "DATA") then (Continue, st, [])
        else on_data cfg o st
    | _ => (Raise, st, [])
    end.

(** The transfer loop over the successive results of [recv_msg]; it stops
    at the first turn that does not continue. *)
Fixpoint transfer (cfg : config) (segs : list json) (st : state)
  : control * state * list event :=
  match segs with
  | [] => (Continue, st, [])
  | seg :: rest =>
      match handle_segment cfg seg st with
      | (Continue, st', out) =>
          let '(c, st'', out') := transfer cfg rest st' in (c, st'', out ++ out')
      | stop => stop
      end
  end.

(** The value of the ["ack"] field of a message the receiver sent. *)
Definition ack_of (e : event) : option Z :=
  match e with
  | Send (JObj o) =>
      if is_str (dict_get o "type" JNull) "ACK" then as_int (dict_get o "ack" JNull) else None
  | _ => None
  end.

Definition acks (out : list event) : list Z := omap ack_of out.

(** The seq of the segment that a turn hands to lines 175-179, if it hands
    one: the record is DATA, its seq an int not below [rcv_base], and its
    payload a string within the size limit. *)
Definition reassembled (seg : json) (st : state) : option Z :=
  match seg with
  | JObj o =>
      if is_str (dict_get o "type" JNull) "DATA" then
        match as_int (dict_get o "seq" JNull), dict_get o "payload" (JStr "") with
        | Some s, JStr p =>
            if (rcv_base st <=? s) && (encode_len p <=? mss st) then Some s else None
        | _, _ => None
        end
      else None
  | _ => None
  end.

(** The seqs handed to lines 175-179 over the turns of a session, in order. *)
Fixpoint reassembled_seqs (cfg : config) (segs : list json) (st : state) : list Z :=
  match segs with
  | [] => []
  | seg :: rest =>
      match handle_segment cfg seg st with
      | (Continue, st', _) =>
          match reassembled seg st with Some s => [s] | None => [] end
          ++ reassembled_seqs cfg rest st'
      | _ => []
      end
  end.

(** A read that is a DATA record with a non-negative int seq carries the
    segment of that number of the source, as the sender cut it. *)
Definition copy_of (segments : list string) (seg : json) : bool :=
  match seg with
  | JObj o =>
      if is_str (dict_get o "type" JNull) "DATA" then
        match as_int (dict_get o "seq" JNull) with
        | Some s =>
            if 0 <=? s then
              match segments !! Z.to_nat s, dict_get o "payload" (JStr "") with
              | Some p, JStr q => String.eqb q p
              | _, _ => false
              end
            else true
        | None => true
        end
      else true
  | _ => true
  end.

End Server.

(** ** The sender ([client.py]) *)

Module Client.
Import Wire.

Section decoder.
(** [json.loads(line.decode().strip())]: [None] when the decoding or the
    parsing raises. *)
Context (json_loads : string → option json).

Definition recv_msg (line : string) : json :=
  if String.eqb line "" then JNull
  else match json_loads line with
       | Some v => v
       | None => JNull
       end.

End decoder.

(** The locals of [run_client] that the transfer loop updates.  [mms] is
    whatever the receiver last put in its ["maximum message size"] field. *)
Record state : Type := State {
  file_cursor : Z;
  sent_packets_buffer : gmap Z string;
  base : Z;
  next_seq_num : Z;
  timer_start : option Z;
  mms : json
}.

(** [file_data], [config["window_size"]], [config["timeout"]] and
    [is_dynamic], fixed for the session. *)
Record config : Type := Config {
  file_data : string;
  window_size : Z;
  timeout : Z;
  is_dynamic : json
}.

(** The state Phase 3 starts in, [mms] being the negotiated size. *)
Definition init (mms0 : json) : state := State 0 ∅ 0 0 None mms0.

(** [s[start:stop]], with Python's treatment of negative and oversized
    bounds. *)
Definition py_slice (s : string) (start stop : Z) : string :=
  let len := Z.of_nat (String.length s) in
  let clamp i := if i <? 0 then Z.max 0 (i + len) else Z.min i len in
  if clamp start <? clamp stop
  then substring (Z.to_nat (clamp start)) (Z.to_nat (clamp stop - clamp start)) s
  else EmptyString.

Definition len (s : string) : Z := Z.of_nat (String.length s).

(** Lines 142-159: [while next_seq_num < base + window_size and file_cursor <
    len(file_data)].  [None] is the [TypeError] of [file_cursor + mms] for an
    [mms] that is no number.  [now] is what [time.time()] answers on line 155;
    [base] stays while [next_seq_num] grows, so the line runs at most once. *)
Fixpoint fill_loop (fuel : nat) (cfg : config) (now : Z) (st : state)
  : option (state * list json) :=
  match fuel with
  | O => Some (st, [])
  | S fuel' =>
      if (next_seq_num st <? base st + window_size cfg)
         && (file_cursor st <? len (file_data cfg))
      then
        match as_int (mms st) with
        | None => None
        | Some m =>
            let payload := py_slice (file_data cfg) (file_cursor st) (file_cursor st + m) in
            let st' :=
              State (file_cursor st + len payload)
                    (<[next_seq_num st := payload]> (sent_packets_buffer st))
                    (base st)
                    (next_seq_num st + 1)
                    (if base st =? next_seq_num st then Some now else timer_start st)
                    (mms st) in
            match fill_loop fuel' cfg now st' with
            | Some (st'', out) => Some (st'', data_msg (next_seq_num st) payload :: out)
            | None => None
            end
        end
      else Some (st, [])
  end.

(** Every turn of the loop takes one of the free places of the window. *)
Definition fill (cfg : config) (now : Z) (st : state) : option (state * list json) :=
  fill_loop (Z.to_nat (base st + window_size cfg - next_seq_num st)) cfg now st.

(** The number a read acknowledges, when lines 164-168 get as far as
    comparing it with [base]. *)
Definition ack_value (ack_msg : json) : option Z :=
  if truthy ack_msg then
    match ack_msg with
    | JObj o =>
        if is_str (dict_get o "type" JNull) "ACK" then as_int (dict_get o "ack" JNull) else None
    | _ => None
    end
  else None.

(** Lines 162-184 on the result of [recv_msg]; a read that times out, and any
    exception inside the [try], leave the state as it is, like [JNull]. *)
Definition on_ack (cfg : config) (ack_msg : json) (now : Z) (st : state) : state :=
  if truthy ack_msg then
    match ack_msg with
    | JObj o =>
        if is_str (dict_get o "type" JNull) "ACK" then
          match as_int (dict_get o "ack" JNull) with
          | Some ack_num =>
              if base st <=? ack_num then
                State (file_cursor st) (sent_packets_buffer st)
                      (ack_num + 1)
                      (next_seq_num st)
                      (if ack_num + 1 <? next_seq_num st then Some now else None)
                      (if truthy (is_dynamic cfg) && dict_has "maximum message size" o
                       then dict_get o "maximum message size" JNull
                       else mms st)
              else st
          | None => st
          end
        else st
    | _ => st
    end
  else st.

(** Line 187: [timer_start and (time.time() - timer_start > config["timeout"])]. *)
Definition expired (cfg : config) (now : Z) (st : state) : bool :=
  match timer_start st with
  | Some t => negb (t =? 0) && (timeout cfg <? now - t)
  | None => false
  end.

(** Lines 194-196: [for seq in range(base, next_seq_num)]. *)
Definition retransmit (st : state) : list json :=
  omap (λ seq, match sent_packets_buffer st !! seq with
               | Some payload => Some (data_msg seq payload)
               | None => None
               end)
       (seqZ (base st) (next_seq_num st - base st)).

(** Lines 187-196; [now] and [now'] are the two readings of the clock. *)
Definition on_timeout (cfg : config) (now now' : Z) (st : state) : state * list json :=
  if expired cfg now st then
    (State (file_cursor st) (sent_packets_buffer st) (base st) (next_seq_num st)
           (Some now') (mms st),
     retransmit st)
  else (st, []).

(** The three parts of a turn of the transfer loop, each with what it reads
    from outside; the state after any of them is an observation point. *)
Inductive phase : Type :=
| Fill (now : Z)
| Ack (ack_msg : json) (now : Z)
| Timeout (now now' : Z).

Definition do_phase (cfg : config) (p : phase) (st : state) : option (state * list json) :=
  match p with
  | Fill now => fill cfg now st
  | Ack ack_msg now => Some (on_ack cfg ack_msg now st, [])
  | Timeout now now' => Some (on_timeout cfg now now' st)
  end.

(** A run of phases, with everything written to the socket so far. *)
Fixpoint exec (cfg : config) (ps : list phase) (st : state) : option (state * list json) :=
  match ps with
  | [] => Some (st, [])
  | p :: rest =>
      match do_phase cfg p st with
      | Some (st', out) =>
          match exec cfg rest st' with
          | Some (st'', out') => Some (st'', out ++ out')
          | None => None
          end
      | None => None
      end
  end.

(** What one turn of [while file_cursor < len(file_data) or base <
    next_seq_num] reads from outside. *)
Record round : Type := Round {
  fill_clock : Z;
  ack_msg : json;
  ack_clock : Z;
  check_clock : Z;
  rearm_clock : Z
}.

Definition phases (r : round) : list phase :=
  [Fill (fill_clock r); Ack (ack_msg r) (ack_clock r); Timeout (check_clock r) (rearm_clock r)].

Definition loop_guard (cfg : config) (st : state) : bool :=
  (file_cursor st <? len (file_data cfg)) || (base st <? next_seq_num st).

(** Lines 139-196: the transfer loop over the rounds it gets to run. *)
Fixpoint transfer (cfg : config) (rounds : list round) (st : state)
  : option (state * list json) :=
  match rounds with
  | [] => Some (st, [])
  | r :: rest =>
      if loop_guard cfg st then
        match exec cfg (phases r) st with
        | Some (st', out) =>
            match transfer cfg rest st' with
            | Some (st'', out') => Some (st'', out ++ out')
            | None => None
            end
        | None => None
        end
      else Some (st, [])
  end.

(** Every acknowledgment along a run names a seq already sent: its number is
    below [next_seq_num] when it is read. *)
Fixpoint acks_sent (cfg : config) (ps : list phase) (st : state) : bool :=
  match ps with
  | [] => true
  | p :: rest =>
      match p with
      | Ack ack_msg _ =>
          match ack_value ack_msg with
          | Some a => a <? next_seq_num st
          | None => true
          end
      | _ => true
      end
      && match do_phase cfg p st with
         | Some (st', _) => acks_sent cfg rest st'
         | None => true
         end
  end.

(** The seq and payload of a DATA record. *)
Definition data_of (m : json) : option (Z * string) :=
  match m with
  | JObj o =>
      if is_str (dict_get o "type" JNull) "DATA" then
        match dict_get o "seq" JNull, dict_get o "payload" JNull with
        | JInt seq, JStr payload => Some (seq, payload)
        | _, _ => None
        end
      else None
  | _ => None
  end.

(** The payload [seq] had the first time it was written to the socket. *)
Fixpoint original (out : list json) (seq : Z) : option string :=
  match out with
  | [] => None
  | m :: out' =>
      match data_of m with
      | Some (s, payload) => if s =? seq then Some payload else original out' seq
      | None => original out' seq
      end
  end.

(** The segments cut so far, in the order of their seqs. *)
Definition segments (st : state) : list string :=
  omap (λ seq, sent_packets_buffer st !! seq) (seqZ 0 (next_seq_num st)).

End Client.

(** ** The two peers on one connection

    The connection is a reliable, ordered byte stream in each direction, and
    every record is one line of it: what one peer writes the other reads whole,
    in order, and as the same value ([json.loads] undoes [json.dumps]).  The
    peers run at their own pace; a run is any interleaving of their steps. *)

Module System.
Import Wire.

Record world : Type := World {
  sender : Client.state;
  (** everything the sender has written since Phase 3 began *)
  written : list json;
  (** the part of it the receiver has not read yet *)
  to_receiver : list json;
  receiver : Server.state;
  (** the receiver has left its transfer loop *)
  stopped : bool;
  (** what the receiver has written and the sender has not read yet *)
  to_sender : list json
}.

Inductive action : Type :=
| SenderFill (now : Z)
| SenderPoll (now : Z)
| SenderTimeout (now now' : Z)
| ReceiverTurn.

Definition start (cr : Server.config) (mms0 : json) : world :=
  World (Client.init mms0) [] [] (Server.init cr) false [].

(** The records among the receiver's events. *)
Definition sent (evs : list Server.event) : list json :=
  omap (λ e, match e with Server.Send m => Some m | Server.Print _ => None end) evs.

Definition sender_step (cs : Client.config) (p : Client.phase) (w : world) : option world :=
  match Client.do_phase cs p (sender w) with
  | Some (st, out) =>
      Some (World st (written w ++ out) (to_receiver w ++ out)
                  (receiver w) (stopped w) (to_sender w))
  | None => None
  end.

(** A step of one peer; [None] when the peer cannot take it (the sender has
    raised, the receiver has stopped or has nothing to read).  A poll of the
    sender with nothing to read times out and changes nothing. *)
Definition step (cs : Client.config) (cr : Server.config) (a : action) (w : world)
  : option world :=
  match a with
  | SenderFill now => sender_step cs (Client.Fill now) w
  | SenderTimeout now now' => sender_step cs (Client.Timeout now now') w
  | SenderPoll now =>
      match to_sender w with
      | m :: rest =>
          Some (World (Client.on_ack cs m now (sender w)) (written w) (to_receiver w)
                      (receiver w) (stopped w) rest)
      | [] => Some w
      end
  | ReceiverTurn =>
      if stopped w then None
      else
        match to_receiver w with
        | m :: rest =>
            let r := Server.handle_segment cr m (receiver w) in
            Some (World (sender w) (written w) rest r.1.2
                        (match r.1.1 with Server.Continue => false | _ => true end)
                        (to_sender w ++ sent r.2))
        | [] => None
        end
  end.

Fixpoint run (cs : Client.config) (cr : Server.config) (acts : list action) (w : world)
  : option world :=
  match acts with
  | [] => Some w
  | a :: rest =>
      match step cs cr a w with
      | Some w' => run cs cr rest w'
      | None => None
      end
  end.

End System.

(** ** A whole session of the receiver ([handle_client]) *)

Module ServerSession.
Import Wire Server.

(** Where [handle_client] stands between two reads: before each of the three
    reads of Phases 1 and 2, in the transfer loop, or gone, by [return] and
    [break] or by an exception that nothing catches. *)
Inductive stage : Type :=
| AwaitSyn
| AwaitAck
| AwaitRequest
| InTransfer
| Returned
| Raised.

Definition syn_ack : json := JObj [("type", JStr "SIN/ACK")]%string.

(** The reply of lines 134-138. *)
Definition size_reply (cfg : config) (st : state) : json :=
  JObj [("type", JStr "MAX_MSG_SIZE");
        ("maximum message size", JInt (mss st));
        ("dynamic message size", JBool (dyn_mss cfg))]%string.

(** [not msg or msg.get("type") != lit], with the [AttributeError] of [.get]
    on a value that is truthy and no dict: [None]. *)
Definition type_is_not (msg : json) (lit : string) : option bool :=
  if negb (truthy msg) then Some true
  else
    match msg with
    | JObj o => Some (negb (is_str (dict_get o "type" JNull) lit))
    | _ => None
    end.

(** What [handle_client] does with one result of [recv_msg], by stage. *)
Definition turn (cfg : config) (sg : stage) (msg : json) (st : state)
  : stage * state * list event :=
  match sg with
  | AwaitSyn =>
      match type_is_not msg "SIN" with
      | Some true => (Returned, st, [])
      | Some false => (AwaitAck, st, [Send syn_ack])
      | None => (Raised, st, [])
      end
  | AwaitAck =>
      match type_is_not msg "ACK" with
      | Some true => (Returned, st, [])
      | Some false => (AwaitRequest, st, [])
      | None => (Raised, st, [])
      end
  | AwaitRequest =>
      match type_is_not msg "GET_MAX_MSG_SIZE" with
      | Some true => (InTransfer, st, [])
      | Some false => (InTransfer, st, [Send (size_reply cfg st)])
      | None => (Raised, st, [])
      end
  | InTransfer =>
      match handle_segment cfg msg st with
      | (Continue, st', out) => (InTransfer, st', out)
      | (Break, st', out) => (Returned, st', out)
      | (Raise, st', out) => (Raised, st', out)
      end
  | Returned => (Returned, st, [])
  | Raised => (Raised, st, [])
  end.

Fixpoint session (cfg : config) (sg : stage) (reads : list json) (st : state)
  : stage * state * list event :=
  match reads with
  | [] => (sg, st, [])
  | msg :: rest =>
      let r := turn cfg sg msg st in
      let r' := session cfg r.1.1 rest r.1.2 in
      (r'.1.1, r'.1.2, r.2 ++ r'.2)
  end.

(** [handle_client] on the successive results of [recv_msg]. *)
Definition handle_client (cfg : config) (reads : list json) : stage * state * list event :=
  session cfg AwaitSyn reads (init cfg).

Definition is_print (e : event) : bool :=
  match e with Print _ => true | Send _ => false end.

End ServerSession.

(** ** A whole session of the sender ([run_client], from the handshake on) *)

Module ClientSession.
Import Wire Client.

(** A read of Phases 1, 2 and 4, which run under the session's timeout and
    outside any [try]: what [recv_msg] returns, or the [socket.timeout] it
    lets through. *)
Inductive read : Type :=
| Got (msg : json)
| TimedOut.

(** How [run_client] ends: by one of its [return]s, by falling off its end
    with or without the FIN_ACK, or, for the finite input of the model, still
    in the transfer loop when the rounds given are used up. *)
Inductive outcome : Type :=
| HandshakeFailed
| NoReply
| Running
| Unconfirmed
| Complete.

(** [Crashed]: an exception that nothing catches. *)
Inductive result : Type :=
| Crashed
| Ended (o : outcome) (writes : list json).

Definition sin : json := JObj [("type", JStr "SIN")]%string.
Definition ack : json := JObj [("type", JStr "ACK")]%string.
Definition get_max_msg_size : json := JObj [("type", JStr "GET_MAX_MSG_SIZE")]%string.
Definition fin : json := JObj [("type", JStr "FIN")]%string.

(** [not msg or msg.get("type") != lit]; [None] is the [AttributeError] of
    [.get] on a value that is truthy and no dict. *)
Definition not_of_type (msg : json) (lit : string) : option bool :=
  if negb (truthy msg) then Some true
  else
    match msg with
    | JObj o => Some (negb (is_str (dict_get o "type" JNull) lit))
    | _ => None
    end.

(** Lines 100-208 of [run_client], on the source text, the configured window
    size and timeout, and what the reads give. *)
Definition run_client (source : string) (window timeout_s : Z)
    (response neg_response : read) (rounds : list round) (final_ack : read) : result :=
  match response with
  | TimedOut => Crashed
  | Got response =>
      match not_of_type response "SIN/ACK" with
      | None => Crashed
      | Some true => Ended HandshakeFailed [sin]
      | Some false =>
          match neg_response with
          | TimedOut => Crashed
          | Got neg =>
              if negb (truthy neg) then Ended NoReply [sin; ack; get_max_msg_size]
              else
                match neg with
                | JObj o =>
                    let mms0 := dict_get o "maximum message size" (JInt 400) in
                    let cfg := Config source window timeout_s
                                      (dict_get o "dynamic message size" (JBool false)) in
                    match transfer cfg rounds (init mms0) with
                    | None => Crashed
                    | Some (st, out) =>
                        if loop_guard cfg st
                        then Ended Running ([sin; ack; get_max_msg_size] ++ out)
                        else
                          match final_ack with
                          | TimedOut => Crashed
                          | Got answer =>
                              match not_of_type answer "FIN_ACK" with
                              | None => Crashed
                              | Some true =>
                                  Ended Unconfirmed ([sin; ack; get_max_msg_size] ++ out ++ [fin])
                              | Some false =>
                                  Ended Complete ([sin; ack; get_max_msg_size] ++ out ++ [fin])
                              end
                          end
                    end
                | _ => Crashed
                end
          end
      end
  end.

End ClientSession.

(** ** Python's string methods, on strings of code points below 256 *)

Module Py.
Import Wire.

(** [c.isspace()]. *)
Definition isspace (c : ascii) : bool :=
  let n := nat_of_ascii c in
  ((9 <=? n) && (n <=? 13) || (28 <=? n) && (n <=? 32) || (n =? 133) || (n =? 160))%nat.

Fixpoint lstrip_with (drop : ascii → bool) (s : string) : string :=
  match s with
  | String c r => if drop c then lstrip_with drop r else s
  | EmptyString => s
  end.

Fixpoint rstrip_with (drop : ascii → bool) (s : string) : string :=
  match s with
  | EmptyString => EmptyString
  | String c r =>
      match rstrip_with drop r with
      | EmptyString => if drop c then EmptyString else String c EmptyString
      | r' => String c r'
      end
  end.

(** [s.strip()] and [s.strip(c)]. *)
Definition strip (s : string) : string := rstrip_with isspace (lstrip_with isspace s).
Definition strip_char (c : ascii) (s : string) : string :=
  rstrip_with (Ascii.eqb c) (lstrip_with (Ascii.eqb c) s).

(** [c.lower()]: the letters A-Z, and the capital letters of Latin-1. *)
Definition lower_char (c : ascii) : ascii :=
  let n := nat_of_ascii c in
  if ((65 <=? n) && (n <=? 90) || (192 <=? n) && (n <=? 222) && negb (n =? 215))%nat
  then ascii_of_nat (n + 32) else c.

Fixpoint lower (s : string) : string :=
  match s with
  | EmptyString => EmptyString
  | String c r => String (lower_char c) (lower r)
  end.

(** [s.replace(c, "")] and [s.replace(c, d)] for one-character strings. *)
Fixpoint remove_char (c : ascii) (s : string) : string :=
  match s with
  | EmptyString => EmptyString
  | String x r => if Ascii.eqb x c then remove_char c r else String x (remove_char c r)
  end.

Fixpoint replace_char (c d : ascii) (s : string) : string :=
  match s with
  | EmptyString => EmptyString
  | String x r => String (if Ascii.eqb x c then d else x) (replace_char c d r)
  end.

(** [c in s]. *)
Fixpoint contains (c : ascii) (s : string) : bool :=
  match s with
  | EmptyString => false
  | String x r => Ascii.eqb x c || contains c r
  end.

(** [s.split(c, 1)] for an [s] that contains [c]: the text before the first
    [c] and the text after it. *)
Fixpoint split_first (c : ascii) (s : string) : string * string :=
  match s with
  | EmptyString => (EmptyString, EmptyString)
  | String x r =>
      if Ascii.eqb x c then (EmptyString, r)
      else let '(k, v) := split_first c r in (String x k, v)
  end.

(** [s in l] for a list of strings. *)
Definition among (s : string) (l : list string) : bool := existsb (String.eqb s) l.

(** The digits of [int(s)] after the sign: decimal digits, with single
    underscores between digits allowed. *)
Fixpoint int_digits (s : string) (acc : Z) (after_digit : bool) : option Z :=
  match s with
  | EmptyString => if after_digit then Some acc else None
  | String c r =>
      match digit_of c with
      | Some d => int_digits r (10 * acc + d) true
      | None =>
          if Ascii.eqb c "_"%char && after_digit then int_digits r acc false else None
      end
  end.

Fixpoint digit_count (s : string) : nat :=
  match s with
  | EmptyString => O
  | String c r => (match digit_of c with Some _ => 1 | None => 0 end + digit_count r)%nat
  end.

(** The blanks [int] skips at both ends of its argument: those of
    [isspace] but for the four separators 28-31, which it takes for part of
    the numeral. *)
Definition int_space (c : ascii) : bool :=
  let n := nat_of_ascii c in
  ((9 <=? n) && (n <=? 13) || (n =? 32) || (n =? 133) || (n =? 160))%nat.

(** [int(s)] for a string; [None] is its [ValueError].  CPython refuses a
    numeral of more than 4300 digits (its default limit since 3.11). *)
Definition int (s : string) : option Z :=
  let t := rstrip_with int_space (lstrip_with int_space s) in
  let '(negative, body) :=
    match t with
    | String c r =>
        if Ascii.eqb c "-"%char then (true, r)
        else if Ascii.eqb c "+"%char then (false, r)
        else (false, t)
    | EmptyString => (false, t)
    end in
  if (4300 <? digit_count body)%nat then None
  else
    match int_digits body 0 false with
    | Some n => Some (if negative then - n else n)
    | None => None
    end.

End Py.

(** ** The receiver's configuration ([load_config] of [server.py]) *)

Module ServerConfig.
Import Wire.

(** The dict [cfg], which has these five keys throughout. *)
Record cfg : Type := Cfg {
  maximum_message_size : Z;
  window_size : Z;
  dynamic_message_size : bool;
  timeout : Z;
  message : string
}.

Definition defaults : cfg := Cfg 400 4 false 5 "".

(** Lines 66-78: the key the line is taken to name. *)
Definition canonical (key : string) : string :=
  let norm_key := Py.replace_char " " "_" (Py.lower (Py.strip key)) in
  if Py.among norm_key
       ["maximum_msg_size"; "maximum_message_size"; "maximum"; "mss"; "max_msg_size"]%string
  then "maximum message size"%string
  else if Py.among norm_key
            ["window_size"; "window"; "window_size_"; "window-size"; "window_size"]%string
  then "window_size"%string
  else if Py.among norm_key ["dynamic_message_size"; "dynamic"; "dynamic_msg_size"]%string
  then "dynamic message size"%string
  else if Py.among norm_key ["timeout"; "time_out"]%string
  then "timeout"%string
  else if Py.among norm_key ["message"; "message_file"; "message_path"]%string
  then "message"%string
  else key.

(** [cfg[key] = n] for one of the three keys that hold a number. *)
Definition set_number (key : string) (n : Z) (c : cfg) : cfg :=
  if String.eqb key "maximum message size"
  then Cfg n (window_size c) (dynamic_message_size c) (timeout c) (message c)
  else if String.eqb key "window_size"
  then Cfg (maximum_message_size c) n (dynamic_message_size c) (timeout c) (message c)
  else Cfg (maximum_message_size c) (window_size c) (dynamic_message_size c) n (message c).

(** Lines 58-90: the body of [for line in f]. *)
Definition apply_line (line : string) (c : cfg) : cfg :=
  if Py.contains ":" line then
    let '(k, v) := Py.split_first ":" line in
    let key := canonical (Py.strip k) in
    let val := Py.remove_char quote (Py.strip v) in
    if Py.among key ["maximum message size"; "window_size"; "timeout"]%string then
      match Py.int val with
      | Some n => set_number key n c
      | None => c
      end
    else if String.eqb key "dynamic message size" then
      Cfg (maximum_message_size c) (window_size c)
          (String.eqb (Py.lower val) "true") (timeout c) (message c)
    else if String.eqb key "message" then
      Cfg (maximum_message_size c) (window_size c) (dynamic_message_size c) (timeout c) val
    else c
  else c.

(** Lines 35-49: [ask_user], on what the three [input] calls give; [None] is
    an [input] that raises.  The first failure ends the questions. *)
Definition ask_user (a1 a2 a3 : option string) (c : cfg) : cfg :=
  match a1 with
  | None => c
  | Some s1 =>
      match (if String.eqb s1 "" then Some 400 else Py.int s1) with
      | None => c
      | Some n1 =>
          let c1 := set_number "maximum message size" n1 c in
          match a2 with
          | None => c1
          | Some s2 =>
              match (if String.eqb s2 "" then Some 4 else Py.int s2) with
              | None => c1
              | Some n2 =>
                  let c2 := set_number "window_size" n2 c1 in
                  match a3 with
                  | None => c2
                  | Some s3 =>
                      Cfg (maximum_message_size c2) (window_size c2)
                          (String.eqb (Py.lower (if String.eqb s3 "" then "false" else s3))
                                      "true")
                          (timeout c2) (message c2)
                  end
              end
          end
      end
  end.

(** [load_config], on the lines of the file ([None] when it cannot be opened)
    and on what the user answers when asked. *)
Definition load_config (file : option (list string)) (a1 a2 a3 : option string) : cfg :=
  match file with
  | Some lines => fold_left (λ c line, apply_line line c) lines defaults
  | None => ask_user a1 a2 a3 defaults
  end.

(** Lines 110-111: what [handle_client] keeps of it. *)
Definition session_config (c : cfg) : Server.config :=
  Server.Config (maximum_message_size c) (dynamic_message_size c).

End ServerConfig.

(** ** The sender's configuration ([load_config] of [client.py]) *)

Module ClientConfig.
Import Wire.

(** The dict [config], which has these three keys throughout.  The timeout
    is a float: its type and [float] on a string are left open. *)
Record cfg (T : Type) : Type := Cfg {
  message : string;
  window_size : Z;
  timeout : T
}.
Arguments Cfg {T}.
Arguments message {T}.
Arguments window_size {T}.
Arguments timeout {T}.

(** What the file at the path is: absent ([os.path.exists] false), there but
    not to be opened, or its lines. *)
Inductive file : Type :=
  | Absent : file
  | Unreadable : file
  | Text : list string → file.

(** How [load_config] ends: with the dict, after printing the error of the
    file's reading or not, or by the [ValueError] of a prompt's answer. *)
Inductive result (T : Type) : Type :=
  | Returned : cfg T → bool → result T
  | Raised : result T.
Arguments Returned {T}.
Arguments Raised {T}.

Section float.
Context {T : Type}.
(** [float(s)], [None] for its [ValueError]; and [5.0]. *)
Context (float : string → option T) (five : T).

Definition defaults : cfg T := Cfg "message.txt" 4 five.

(** Lines 38-50: the body of [for line in f]; [None] when [int] or [float]
    raises. *)
Definition apply_line (line : string) (c : cfg T) : option (cfg T) :=
  if Py.contains ":" line then
    let '(k, v) := Py.split_first ":" line in
    let key := Py.lower (Py.strip k) in
    let value := Py.strip_char quote (Py.strip v) in
    if String.eqb key "message" then Some (Cfg value (window_size c) (timeout c))
    else if String.eqb key "window_size" || String.eqb key "window size" then
      match Py.int value with
      | Some n => Some (Cfg (message c) n (timeout c))
      | None => None
      end
    else if String.eqb key "timeout" then
      match float value with
      | Some t => Some (Cfg (message c) (window_size c) t)
      | None => None
      end
    else Some c
  else Some c.

(** Lines 34-52: the loop inside its [try]; the flag tells that the [except]
    branch printed the error. *)
Fixpoint read_lines (lines : list string) (c : cfg T) : cfg T * bool :=
  match lines with
  | [] => (c, false)
  | line :: rest =>
      match apply_line line c with
      | Some c' => read_lines rest c'
      | None => (c, true)
      end
  end.

(** Lines 59-68: the three prompts, on the answers given. *)
Definition ask (user_msg user_window user_timeout : string) (c : cfg T) : option (cfg T) :=
  let c1 := if String.eqb user_msg "" then c
            else Cfg user_msg (window_size c) (timeout c) in
  match (if String.eqb user_window "" then Some c1
         else match Py.int user_window with
              | Some n => Some (Cfg (message c1) n (timeout c1))
              | None => None
              end) with
  | None => None
  | Some c2 =>
      if String.eqb user_timeout "" then Some c2
      else match float user_timeout with
           | Some t => Some (Cfg (message c2) (window_size c2) t)
           | None => None
           end
  end.

Definition load_config (f : file) (user_msg user_window user_timeout : string) : result T :=
  match f with
  | Text lines => let '(c, failed) := read_lines lines defaults in Returned c failed
  | Unreadable => Returned defaults true
  | Absent =>
      match ask user_msg user_window user_timeout defaults with
      | Some c => Returned c false
      | None => Raised
      end
  end.

End float.
End ClientConfig.

(** ** Properties of the receiver *)

Module ServerProofs.
Import Wire Server.

(** *** The drain loop *)

Lemma drain_loop_base_le fuel st : rcv_base st ≤ rcv_base (drain_loop fuel st).
Proof.
  revert st. induction fuel as [|fuel IH]; intros st; simpl; [lia|].
  destruct (rcv_buffer st !! rcv_base st); [|lia].
  etrans; [|apply IH]. simpl. lia.
Qed.

Lemma drain_loop_mss fuel st : mss (drain_loop fuel st) = mss st.
Proof.
  revert st. induction fuel as [|fuel IH]; intros st; simpl; [done|].
  destruct (rcv_buffer st !! rcv_base st); [|done]. by rewrite IH.
Qed.

(** The fuel [drain] gives the loop is enough: it stops because
    [rcv_base] is no longer a key. *)
Lemma drain_loop_done fuel st :
  (size (rcv_buffer st) ≤ fuel)%nat →
  rcv_buffer (drain_loop fuel st) !! rcv_base (drain_loop fuel st) = None.
Proof.
  revert st. induction fuel as [|fuel IH]; intros st Hsz; simpl.
  - apply Nat.le_0_r, map_size_empty_inv in Hsz. rewrite Hsz. apply lookup_empty.
  - destruct (rcv_buffer st !! rcv_base st) as [p|] eqn:Hl; [|done].
    apply IH. simpl. rewrite map_size_delete, Hl. lia.
Qed.

Lemma drain_done st : rcv_buffer (drain st) !! rcv_base (drain st) = None.
Proof. apply drain_loop_done. done. Qed.

Lemma drain_loop_none fuel st :
  rcv_buffer st !! rcv_base st = None → drain_loop fuel st = st.
Proof. intros H. destruct fuel; simpl; [done|]. by rewrite H. Qed.

(** More fuel than the buffer has entries changes nothing. *)
Lemma drain_loop_fuel fuel st :
  (size (rcv_buffer st) ≤ fuel)%nat → drain_loop fuel st = drain st.
Proof.
  unfold drain. revert st. induction fuel as [|fuel IH]; intros st Hsz.
  - apply Nat.le_0_r in Hsz. by rewrite Hsz.
  - destruct (rcv_buffer st !! rcv_base st) as [p|] eqn:Hl.
    + assert (Hd : size (delete (rcv_base st) (rcv_buffer st)) = pred (size (rcv_buffer st)))
        by (by rewrite map_size_delete, Hl).
      destruct (size (rcv_buffer st)) as [|n] eqn:Hn.
      { apply map_size_empty_inv in Hn. rewrite Hn, lookup_empty in Hl. done. }
      simpl. rewrite Hl. rewrite IH by (simpl; lia). simpl. by rewrite Hd.
    + by rewrite !drain_loop_none.
Qed.

(** One turn of the loop, then the rest of it. *)
Lemma drain_step st p :
  rcv_buffer st !! rcv_base st = Some p →
  drain st = drain (State (rcv_base st + 1) (delete (rcv_base st) (rcv_buffer st))
                          (app_data st ++ [p]) (mss st)).
Proof.
  intros Hl. unfold drain at 1.
  destruct (size (rcv_buffer st)) as [|n] eqn:Hn.
  { apply map_size_empty_inv in Hn. rewrite Hn, lookup_empty in Hl. done. }
  simpl. rewrite Hl. apply drain_loop_fuel. simpl.
  rewrite map_size_delete, Hl, Hn. simpl. lia.
Qed.

Lemma drain_none st : rcv_buffer st !! rcv_base st = None → drain st = st.
Proof. apply drain_loop_none. Qed.

(** *** One turn of the transfer loop *)

Lemma reassemble_base_le s p st : rcv_base st ≤ rcv_base (reassemble s p st).
Proof.
  unfold reassemble. case_match; [|lia].
  etrans; [|apply drain_loop_base_le]. simpl. lia.
Qed.

Lemma adapt_base cfg st : rcv_base (adapt cfg st) = rcv_base st.
Proof. unfold adapt. repeat case_match; done. Qed.

Lemma adapt_buffer cfg st : rcv_buffer (adapt cfg st) = rcv_buffer st.
Proof. unfold adapt. repeat case_match; done. Qed.

Lemma adapt_app_data cfg st : app_data (adapt cfg st) = app_data st.
Proof. unfold adapt. repeat case_match; done. Qed.

Lemma ack_of_send_ack cfg st : ack_of (send_ack cfg st) = Some (rcv_base st - 1).
Proof. done. Qed.

(** A turn never lowers [rcv_base], and whatever it acknowledges is the
    [rcv_base - 1] it ends with. *)
Lemma handle_segment_acks cfg seg st :
  rcv_base st ≤ rcv_base (handle_segment cfg seg st).1.2
  ∧ Forall (λ a, a = rcv_base (handle_segment cfg seg st).1.2 - 1)
           (acks (handle_segment cfg seg st).2).
Proof.
  unfold handle_segment, on_data.
  repeat (case_match; simpl; try (split; [lia | by repeat constructor])).
  simplify_eq. split.
  - rewrite adapt_base. apply reassemble_base_le.
  - unfold acks. simpl. by repeat constructor.
Qed.

Lemma transfer_cons cfg seg rest st :
  transfer cfg (seg :: rest) st =
  match handle_segment cfg seg st with
  | (Continue, st', out) =>
      ((transfer cfg rest st').1.1, (transfer cfg rest st').1.2, out ++ (transfer cfg rest st').2)
  | stop => stop
  end.
Proof.
  simpl. destruct (handle_segment cfg seg st) as [[[] st'] out]; try done.
  by destruct (transfer cfg rest st') as [[c st''] out'].
Qed.

Lemma transfer_acks cfg segs st :
  rcv_base st ≤ rcv_base (transfer cfg segs st).1.2
  ∧ StronglySorted Z.le (acks (transfer cfg segs st).2)
  ∧ Forall (λ a, rcv_base st - 1 ≤ a ≤ rcv_base (transfer cfg segs st).1.2 - 1)
           (acks (transfer cfg segs st).2).
Proof.
  revert st. induction segs as [|seg rest IH]; intros st.
  { simpl. split; [lia|]. split; constructor. }
  rewrite transfer_cons.
  destruct (handle_segment_acks cfg seg st) as [Hle Hout].
  destruct (handle_segment cfg seg st) as [[c st'] out]; simpl in *.
  assert (Hone : StronglySorted Z.le (acks out)
                 ∧ Forall (λ a, rcv_base st - 1 ≤ a ≤ rcv_base st' - 1) (acks out)).
  { split.
    - induction Hout as [|a l Ha Hl IHl]; constructor; [done|].
      eapply Forall_impl; [exact Hl|]. intros b Hb; simpl in Hb. lia.
    - eapply Forall_impl; [exact Hout|]. intros a Ha; simpl in Ha. lia. }
  destruct c; simpl; try (split; [lia|]; exact Hone).
  destruct (IH st') as (Hle' & Hs' & Hb'). destruct Hone as [Hs Hb].
  split; [lia|]. unfold acks in *. rewrite omap_app. split.
  - apply StronglySorted_app. split; [|done].
    intros a b Ha Hb0.
    rewrite Forall_forall in Hout, Hb'.
    specialize (Hout a Ha). specialize (Hb' b Hb0). simpl in *. lia.
  - apply Forall_app. split.
    + eapply Forall_impl; [exact Hb|]. intros a Ha; simpl in Ha. lia.
    + eapply Forall_impl; [exact Hb'|]. intros a Ha; simpl in Ha. lia.
Qed.

(** C6. The receiver's cumulative acknowledgments never go down: no turn of
    the transfer loop lowers [rcv_base], every acknowledgment a turn sends
    carries the [rcv_base - 1] the turn ends with ([-1] while nothing is
    delivered), and the acknowledgments of a whole session, in the order
    they are sent, are non-decreasing. *)
Theorem cumulative_ack_never_decreases (cfg : config) (segs : list json)
    (seg : json) (st : state) :
  rcv_base st ≤ rcv_base (handle_segment cfg seg st).1.2
  ∧ Forall (λ a, a = rcv_base (handle_segment cfg seg st).1.2 - 1)
           (acks (handle_segment cfg seg st).2)
  ∧ ack_of (send_ack cfg (init cfg)) = Some (-1)
  ∧ rcv_base st ≤ rcv_base (transfer cfg segs st).1.2
  ∧ StronglySorted Z.le (acks (transfer cfg segs st).2).
Proof.
  destruct (handle_segment_acks cfg seg st) as [H1 H2].
  destruct (transfer_acks cfg segs st) as (H3 & H4 & _).
  done.
Qed.

Lemma is_data_nonempty o :
  is_str (dict_get o "type" JNull) "DATA" = true → truthy (JObj o) = true.
Proof. by destruct o. Qed.

Lemma is_data_not_fin o :
  is_str (dict_get o "type" JNull) "DATA" = true →
  is_str (dict_get o "type" JNull) "FIN" = false.
Proof.
  destruct (dict_get o "type" JNull); simpl; try done.
  intros ->%String.eqb_eq. done.
Qed.

Lemma handle_segment_data cfg o st :
  is_str (dict_get o "type" JNull) "DATA" = true →
  handle_segment cfg ((JObj o)) st = on_data cfg o st.
Proof.
  intros Hd. unfold handle_segment.
  by rewrite (is_data_nonempty o Hd), (is_data_not_fin o Hd), Hd.
Qed.

(** C7. A DATA record whose [seq] is below [rcv_base] changes nothing of the
    receiver (delivered data, [rcv_base], reorder buffer, segment size) and
    is answered by exactly one acknowledgment, carrying [rcv_base - 1]. *)
Theorem duplicate_is_acknowledged_and_dropped (cfg : config) (st : state)
    (o : list (string * json)) (s : Z) :
  is_str (dict_get o "type" JNull) "DATA" = true →
  as_int (dict_get o "seq" JNull) = Some s →
  s < rcv_base st →
  handle_segment cfg ((JObj o)) st = (Continue, st, [send_ack cfg st])
  ∧ acks [send_ack cfg st] = [rcv_base st - 1].
Proof.
  intros Hd Hs Hlt. rewrite handle_segment_data by done.
  unfold on_data. rewrite Hs.
  destruct (Z.ltb_spec s (rcv_base st)); [done|lia].
Qed.

Lemma duplicate_is_acknowledged_and_dropped_witness :
  handle_segment (Config 400 true) ((data_msg 1 "lo"))
    (State 2 {[3 := "d"%string]} ["hel"; "lo"]%string 380)
  = (Continue, State 2 {[3 := "d"%string]} ["hel"; "lo"]%string 380,
     [Send (JObj [("type", JStr "ACK"); ("ack", JInt 1);
                  ("maximum message size", JInt 380)]%string)])
  ∧ acks [send_ack (Config 400 true) (State 2 {[3 := "d"%string]} ["hel"; "lo"]%string 380)]
    = [2 - 1].
Proof.
  apply (duplicate_is_acknowledged_and_dropped (Config 400 true)
           (State 2 {[3 := "d"%string]} ["hel"; "lo"]%string 380)
           [("type", JStr "DATA"); ("seq", JInt 1); ("payload", JStr "lo")]%string 1);
    [reflexivity | reflexivity | simpl; lia].
Defined.

Lemma reassemble_mss s p st : mss (reassemble s p st) = mss st.
Proof. unfold reassemble, drain. case_match; [|done]. by rewrite drain_loop_mss. Qed.

(** What a turn does with a DATA record that passes every check. *)
Lemma handle_segment_accepted cfg o st s p :
  is_str (dict_get o "type" JNull) "DATA" = true →
  as_int (dict_get o "seq" JNull) = Some s →
  rcv_base st ≤ s →
  dict_get o "payload" (JStr "") = JStr p →
  encode_len p ≤ mss st →
  handle_segment cfg ((JObj o)) st
  = (Continue, adapt cfg (reassemble s p st), [send_ack cfg (adapt cfg (reassemble s p st))]).
Proof.
  intros Hd Hs Hle Hp Hlen. rewrite handle_segment_data by done.
  unfold on_data. rewrite Hs, Hp.
  destruct (Z.ltb_spec s (rcv_base st)); [lia|].
  destruct (Z.ltb_spec (mss st) (encode_len p)); [lia|done].
Qed.



(** C9. A decoded record whose type is neither DATA nor FIN is dropped by
    the transfer loop: nothing is sent (so no acknowledgment), and
    [rcv_base], the reorder buffer, the delivered data and the segment size
    stay as they are.  The loop goes on to the next read, except for the
    record with no field at all, on which it stops like on a closed
    connection.  The record the decoder makes of a line that does not parse
    is such a record, and the loop goes on after it. *)
Theorem other_records_are_ignored (cfg : config) (st : state)
    (o : list (string * json)) (json_loads : string → option json) (line : string) :
  is_str (dict_get o "type" JNull) "DATA" = false →
  is_str (dict_get o "type" JNull) "FIN" = false →
  line ≠ ""%string →
  json_loads line = None →
  handle_segment cfg ((JObj o)) st
  = (if truthy (JObj o) then Continue else Break, st, [])
  ∧ handle_segment cfg (recv_msg json_loads line) st = (Continue, st, []).
Proof.
  intros Hd Hf Hline Hbad. split.
  - unfold handle_segment. destruct o as [|kv o]; [done|].
    simpl truthy. simpl negb. cbv iota. by rewrite Hf, Hd.
  - unfold recv_msg. rewrite Hbad.
    destruct (String.eqb_spec line ""); [done|]. done.
Qed.

Lemma other_records_are_ignored_witness :
  let cfg := Config 400 false in
  let st := State 1 {[2 := "c"%string]} ["a"%string] 400 in
  handle_segment cfg ((JObj [("type", JStr "ACK"); ("ack", JInt 3)]%string)) st
  = (Continue, st, [])
  ∧ handle_segment cfg (recv_msg loads "{oops") st = (Continue, st, []).
Proof.
  apply (other_records_are_ignored (Config 400 false)
           (State 1 {[2 := "c"%string]} ["a"%string] 400)
           [("type", JStr "ACK"); ("ack", JInt 3)]%string loads "{oops");
    [reflexivity | reflexivity | discriminate | reflexivity].
Defined.

(** *** What the drain loop delivers *)

Lemma drain_loop_run fuel st :
  app_data (drain_loop fuel st)
  = app_data st
    ++ omap (λ s, rcv_buffer st !! s)
            (seqZ (rcv_base st) (rcv_base (drain_loop fuel st) - rcv_base st))
  ∧ (∀ s, rcv_buffer (drain_loop fuel st) !! s
          = if decide (rcv_base st ≤ s < rcv_base (drain_loop fuel st))
            then None else rcv_buffer st !! s)
  ∧ (∀ s, rcv_base st ≤ s < rcv_base (drain_loop fuel st) → is_Some (rcv_buffer st !! s)).
Proof.
  revert st. induction fuel as [|fuel IH]; intros st; simpl.
  { rewrite Z.sub_diag. simpl. rewrite app_nil_r. split; [done|]. split.
    - intros s. case_decide; [lia|done].
    - intros s ?. lia. }
  destruct (rcv_buffer st !! rcv_base st) as [p|] eqn:Hp.
  - set (st1 := State _ _ _ _). destruct (IH st1) as (Happ & Hbuf & Hrun).
    pose proof (drain_loop_base_le fuel st1) as Hle. simpl in *.
    split; [|split].
    + rewrite Happ, <- app_assoc. f_equal.
      rewrite (seqZ_cons (rcv_base st)) by lia. simpl. rewrite Hp. simpl. f_equal.
      replace (Z.pred (rcv_base (drain_loop fuel st1) - rcv_base st))
        with (rcv_base (drain_loop fuel st1) - (rcv_base st + 1)) by lia.
      replace (Z.succ (rcv_base st)) with (rcv_base st + 1) by lia.
      apply list_omap_ext, Forall_Forall2_diag, Forall_forall.
      intros s Hs%elem_of_seqZ. rewrite lookup_delete_ne by lia. done.
    + intros s. rewrite Hbuf.
      destruct (decide (s = rcv_base st)) as [->|Hne].
      * rewrite lookup_delete_eq. repeat case_decide; done || lia.
      * rewrite lookup_delete_ne by done. repeat case_decide; done || lia.
    + intros s Hs. destruct (decide (s = rcv_base st)) as [->|Hne]; [eauto|].
      assert (is_Some (delete (rcv_base st) (rcv_buffer st) !! s)) as Hin by (apply Hrun; lia).
      by rewrite lookup_delete_ne in Hin.
  - rewrite Z.sub_diag. simpl. rewrite app_nil_r. split; [done|]. split.
    + intros s. case_decide; [lia|done].
    + intros s ?. lia.
Qed.

(** The drain loop ends, with [rcv_base] no key of the reorder buffer any
    more, and it has moved exactly the contiguous run of buffered seqs that
    began at [rcv_base] to the delivered data, in the order of the seqs; the
    rest of the buffer and the segment size are as they were. *)
Theorem drain_delivers_contiguous_run (st : state) :
  rcv_base st ≤ rcv_base (drain st)
  ∧ rcv_buffer (drain st) !! rcv_base (drain st) = None
  ∧ (∀ s, rcv_base st ≤ s < rcv_base (drain st) → is_Some (rcv_buffer st !! s))
  ∧ app_data (drain st)
    = app_data st
      ++ omap (λ s, rcv_buffer st !! s)
              (seqZ (rcv_base st) (rcv_base (drain st) - rcv_base st))
  ∧ (∀ s, rcv_buffer (drain st) !! s
          = if decide (rcv_base st ≤ s < rcv_base (drain st))
            then None else rcv_buffer st !! s)
  ∧ mss (drain st) = mss st.
Proof.
  destruct (drain_loop_run (size (rcv_buffer st)) st) as (Happ & Hbuf & Hrun).
  split; [apply drain_loop_base_le|]. split; [apply drain_done|].
  split; [exact Hrun|]. split; [exact Happ|]. split; [exact Hbuf|].
  apply drain_loop_mss.
Qed.

(** Scenario B of the specification: seq 1 before seq 0. *)
Example reordered_pair :
  let cfg := Config 400 false in
  handle_segment cfg (data_msg 1 "D") (init cfg)
  = (Continue, State 0 {[1 := "D"%string]} [] 400,
     [Send (JObj [("type", JStr "ACK"); ("ack", JInt (-1))]%string)])
  ∧ handle_segment cfg (data_msg 0 "HELLO WORL") (State 0 {[1 := "D"%string]} [] 400)
    = (Continue, State 2 ∅ ["HELLO WORL"; "D"]%string 400,
       [Send (JObj [("type", JStr "ACK"); ("ack", JInt 1)]%string)]).
Proof. split; vm_compute; reflexivity. Qed.


(** *** Reassembly *)

(** The state agrees with the source: what is delivered is the first
    [rcv_base] segments, and what is buffered are segments at or above
    [rcv_base]. *)
Definition agrees (segments : list string) (st : state) : Prop :=
  0 ≤ rcv_base st
  ∧ (Z.to_nat (rcv_base st) ≤ List.length segments)%nat
  ∧ app_data st = take (Z.to_nat (rcv_base st)) segments
  ∧ ∀ s p, rcv_buffer st !! s = Some p → rcv_base st ≤ s ∧ segments !! Z.to_nat s = Some p.

(** Segment [j] has reached the receiver: it is delivered or buffered. *)
Definition held (st : state) (j : Z) : Prop :=
  j < rcv_base st ∨ is_Some (rcv_buffer st !! j).

Lemma drain_loop_agrees segments fuel st :
  agrees segments st → agrees segments (drain_loop fuel st).
Proof.
  revert st. induction fuel as [|fuel IH]; intros st Hst; simpl; [done|].
  destruct (rcv_buffer st !! rcv_base st) as [p|] eqn:Hl; [|done].
  apply IH. destruct Hst as (H0 & Hlen & Happ & Hbuf).
  destruct (Hbuf _ _ Hl) as [_ Hp].
  unfold agrees; simpl. rewrite Z2Nat.inj_add, Nat.add_1_r by lia.
  split; [lia|]. split; [apply lookup_lt_Some in Hp; lia|]. split.
  - rewrite (take_S_r _ _ _ Hp). by rewrite Happ.
  - intros s q [Hne Hq]%lookup_delete_Some.
    destruct (Hbuf _ _ Hq) as [Hle Hs]. split; [lia|done].
Qed.

Lemma drain_loop_held fuel st j : held (drain_loop fuel st) j ↔ held st j.
Proof.
  revert st. induction fuel as [|fuel IH]; intros st; simpl; [done|].
  destruct (rcv_buffer st !! rcv_base st) as [p|] eqn:Hl; [|done].
  rewrite IH. unfold held; simpl.
  destruct (decide (j = rcv_base st)) as [->|Hne].
  - rewrite Hl. split; intros _; [right; eauto | left; lia].
  - rewrite lookup_delete_ne by done. split; intros [?|?]; auto; left; lia.
Qed.

Lemma drain_loop_prefix fuel st : app_data st `prefix_of` app_data (drain_loop fuel st).
Proof.
  revert st. induction fuel as [|fuel IH]; intros st; simpl; [done|].
  destruct (rcv_buffer st !! rcv_base st) as [p|]; [|done].
  etrans; [|apply IH]. simpl. by apply prefix_app_r.
Qed.

Lemma reassembled_some seg st s :
  reassembled seg st = Some s →
  ∃ o p, seg = JObj o
    ∧ is_str (dict_get o "type" JNull) "DATA" = true
    ∧ as_int (dict_get o "seq" JNull) = Some s
    ∧ dict_get o "payload" (JStr "") = JStr p
    ∧ rcv_base st ≤ s ∧ encode_len p ≤ mss st.
Proof.
  unfold reassembled. intros H.
  destruct seg as [| | | | |o]; try done.
  destruct (is_str (dict_get o "type" JNull) "DATA") eqn:Hd; [|done].
  destruct (as_int (dict_get o "seq" JNull)) as [s'|] eqn:Hs; [|done].
  destruct (dict_get o "payload" (JStr "")) as [| | |p| |] eqn:Hp; try done.
  destruct (Z.leb_spec (rcv_base st) s'); [|done].
  destruct (Z.leb_spec (encode_len p) (mss st)); [|done].
  simpl in H. simplify_eq. by exists o, p.
Qed.

(** A turn that hands nothing to lines 175-179 leaves the state alone. *)
Lemma reassembled_none cfg seg st :
  reassembled seg st = None → (handle_segment cfg seg st).1.2 = st.
Proof.
  unfold reassembled, handle_segment, on_data. intros H.
  destruct seg as [| | | | |o]; try done; try (by case_match).
  destruct (negb (truthy (JObj o))); [done|].
  destruct (is_str (dict_get o "type" JNull) "FIN"); [done|].
  destruct (is_str (dict_get o "type" JNull) "DATA"); [|done]. simpl.
  destruct (as_int (dict_get o "seq" JNull)) as [s|]; [|done].
  destruct (Z.ltb_spec s (rcv_base st)); [done|].
  destruct (dict_get o "payload" (JStr "")) as [| | |p| |]; try done.
  destruct (Z.ltb_spec (mss st) (encode_len p)); [done|].
  destruct (Z.leb_spec (rcv_base st) s); [|lia].
  destruct (Z.leb_spec (encode_len p) (mss st)); [done|lia].
Qed.

Lemma insert_agrees segments st s p :
  agrees segments st → rcv_base st ≤ s → segments !! Z.to_nat s = Some p →
  agrees segments (State (rcv_base st) (<[s := p]> (rcv_buffer st)) (app_data st) (mss st)).
Proof.
  intros (H0 & Hlen & Happ & Hbuf) Hle Hp. unfold agrees; simpl.
  do 3 (split; [done|]).
  intros s' q [[-> ->]|[Hne Hq]]%lookup_insert_Some; [done|]. by apply Hbuf.
Qed.

Lemma adapt_agrees segments cfg st : agrees segments st → agrees segments (adapt cfg st).
Proof.
  unfold agrees. by rewrite adapt_base, adapt_buffer, adapt_app_data.
Qed.

(** A turn on a copy of a source segment keeps the state in agreement. *)
Lemma handle_segment_agrees segments cfg seg st :
  copy_of segments seg = true →
  agrees segments st → agrees segments (handle_segment cfg seg st).1.2.
Proof.
  intros Hcopy Hst.
  destruct (reassembled seg st) as [s|] eqn:Hr.
  - apply reassembled_some in Hr as (o & p & -> & Hd & Hs & Hp & Hle & Hlen).
    rewrite (handle_segment_accepted cfg o st s p) by done. simpl.
    apply adapt_agrees. unfold reassemble.
    destruct (Z.leb_spec (rcv_base st) s); [|lia].
    apply drain_loop_agrees, insert_agrees; [done..|].
    unfold copy_of in Hcopy. rewrite Hd, Hs, Hp in Hcopy.
    destruct Hst as (H0 & _).
    destruct (Z.leb_spec 0 s); [|lia].
    destruct (segments !! Z.to_nat s) as [q|]; [|done].
    by apply String.eqb_eq in Hcopy as ->.
  - by rewrite reassembled_none.
Qed.

Lemma adapt_held cfg st j : held (adapt cfg st) j ↔ held st j.
Proof. unfold held. by rewrite adapt_base, adapt_buffer. Qed.

(** A turn adds to what the receiver holds exactly the segment it hands to
    lines 175-179. *)
Lemma handle_segment_held cfg seg st j :
  held (handle_segment cfg seg st).1.2 j ↔ held st j ∨ reassembled seg st = Some j.
Proof.
  destruct (reassembled seg st) as [s|] eqn:Hr.
  - apply reassembled_some in Hr as (o & p & -> & Hd & Hs & Hp & Hle & Hlen).
    rewrite (handle_segment_accepted cfg o st s p) by done. simpl.
    rewrite adapt_held. unfold reassemble.
    destruct (Z.leb_spec (rcv_base st) s); [|lia].
    unfold drain. rewrite drain_loop_held. unfold held; simpl.
    destruct (decide (s = j)) as [->|Hne].
    + rewrite lookup_insert_eq. split; [by right|by right; eauto].
    + rewrite lookup_insert_ne by done.
      split; [tauto|]. intros [?|?]; [done|]. congruence.
  - rewrite reassembled_none by done. split; [tauto|]. intros [?|?]; done.
Qed.

(** Between turns [rcv_base] is no key of the reorder buffer. *)
Lemma handle_segment_drained cfg seg st :
  rcv_buffer st !! rcv_base st = None →
  rcv_buffer (handle_segment cfg seg st).1.2 !! rcv_base (handle_segment cfg seg st).1.2 = None.
Proof.
  intros Hst.
  destruct (reassembled seg st) as [s|] eqn:Hr.
  - apply reassembled_some in Hr as (o & p & -> & Hd & Hs & Hp & Hle & Hlen).
    rewrite (handle_segment_accepted cfg o st s p) by done. simpl.
    rewrite adapt_base, adapt_buffer. unfold reassemble.
    destruct (Z.leb_spec (rcv_base st) s); [|lia]. apply drain_done.
  - by rewrite reassembled_none.
Qed.

Lemma reassembled_continue cfg seg st s :
  reassembled seg st = Some s → (handle_segment cfg seg st).1.1 = Continue.
Proof.
  intros (o & p & -> & Hd & Hs & Hp & Hle & Hlen)%reassembled_some.
  by rewrite (handle_segment_accepted cfg o st s p).
Qed.

Lemma handle_segment_stop cfg seg st :
  (handle_segment cfg seg st).1.1 ≠ Continue → (handle_segment cfg seg st).1.2 = st.
Proof.
  intros Hc. apply reassembled_none.
  destruct (reassembled seg st) as [s|] eqn:Hr; [|done].
  by apply (reassembled_continue cfg) in Hr.
Qed.

Lemma transfer_invariants segments cfg segs st :
  Forall (λ seg, copy_of segments seg = true) segs →
  agrees segments st →
  rcv_buffer st !! rcv_base st = None →
  agrees segments (transfer cfg segs st).1.2
  ∧ rcv_buffer (transfer cfg segs st).1.2 !! rcv_base (transfer cfg segs st).1.2 = None
  ∧ ∀ j, held (transfer cfg segs st).1.2 j ↔ held st j ∨ j ∈ reassembled_seqs cfg segs st.
Proof.
  revert st. induction segs as [|seg rest IH]; intros st Hall Hst Hdr.
  { simpl. do 2 (split; [done|]). intros j. rewrite elem_of_nil. tauto. }
  apply Forall_cons in Hall as [Hseg Hrest].
  pose proof (handle_segment_agrees segments cfg seg st Hseg Hst) as Hst'.
  pose proof (handle_segment_drained cfg seg st Hdr) as Hdr'.
  pose proof (handle_segment_held cfg seg st) as Hheld.
  pose proof (handle_segment_stop cfg seg st) as Hstop.
  pose proof (reassembled_continue cfg seg st) as Hcont.
  rewrite transfer_cons. simpl reassembled_seqs.
  destruct (handle_segment cfg seg st) as [[c st'] out]; simpl in *.
  destruct c; simpl.
  - destruct (IH st' Hrest Hst' Hdr') as (Ha & Hd & Hh).
    do 2 (split; [done|]). intros j. rewrite Hh, Hheld, elem_of_app.
    destruct (reassembled seg st) as [s|]; [rewrite list_elem_of_singleton|rewrite elem_of_nil];
      intuition congruence.
  - do 2 (split; [done|]). intros j. rewrite Hheld, elem_of_nil.
    destruct (reassembled seg st) as [s|]; [|intuition congruence].
    by specialize (Hcont s eq_refl).
  - do 2 (split; [done|]). intros j. rewrite Hheld, elem_of_nil.
    destruct (reassembled seg st) as [s|]; [|intuition congruence].
    by specialize (Hcont s eq_refl).
Qed.

Lemma init_agrees segments cfg : agrees segments (init cfg).
Proof.
  unfold agrees; simpl. split; [lia|]. split; [lia|]. split; [done|].
  intros s p. by rewrite lookup_empty.
Qed.


(** C1 (as amended). Whatever the order and the repetition in which copies
    of the source's segments reach the receiver, at every point of the session
    the delivered data is exactly the first [rcv_base] segments of the source,
    in order, and every buffered seq is above [rcv_base].  Once each of the
    segments [0..k] has been handed to the reassembly step, [rcv_base] is
    above [k] and the delivered data begins with the first [k+1] segments; it
    is exactly those when segment [k+1] has not been handed to it yet. *)
Theorem delivered_is_source_prefix (segments : list string) (cfg : config)
    (arrivals : list json) (k : Z) :
  Forall (λ seg, copy_of segments seg = true) arrivals →
  0 ≤ k →
  let st := (transfer cfg arrivals (init cfg)).1.2 in
  let seen := reassembled_seqs cfg arrivals (init cfg) in
  (0 ≤ rcv_base st
   ∧ app_data st = take (Z.to_nat (rcv_base st)) segments
   ∧ String.concat "" (app_data st) = String.concat "" (take (Z.to_nat (rcv_base st)) segments)
   ∧ ∀ s, is_Some (rcv_buffer st !! s) → rcv_base st < s)
  ∧ ((∀ j, 0 ≤ j ≤ k → j ∈ seen) →
     k < rcv_base st
     ∧ take (Z.to_nat (k + 1)) segments `prefix_of` app_data st
     ∧ (k + 1 ∉ seen →
        rcv_base st = k + 1 ∧ app_data st = take (Z.to_nat (k + 1)) segments)).
Proof.
  intros Hall Hk st seen.
  destruct (transfer_invariants segments cfg arrivals (init cfg) Hall
              (init_agrees segments cfg) (lookup_empty _)) as (Hag & Hdr & Hheld).
  fold st in Hag, Hdr, Hheld. fold seen in Hheld.
  destruct Hag as (H0 & Hlen & Happ & Hbuf).
  split.
  - split; [done|]. split; [done|]. split; [by rewrite Happ at 1|].
    intros s [p Hp]. destruct (Hbuf _ _ Hp) as [Hle _].
    destruct (decide (s = rcv_base st)) as [->|]; [congruence|lia].
  - intros Hcover.
    assert (Hgt : k < rcv_base st).
    { destruct (Z.lt_ge_cases k (rcv_base st)) as [|Hge]; [done|].
      assert (Hin : held st (rcv_base st)) by (apply Hheld; right; apply Hcover; lia).
      destruct Hin as [?|[p Hp]]; [lia|congruence]. }
    split; [done|]. split.
    + rewrite Happ.
      replace (take (Z.to_nat (k + 1)) segments)
        with (take (Z.to_nat (k + 1)) (take (Z.to_nat (rcv_base st)) segments)).
      * apply prefix_take.
      * rewrite take_take. f_equal. lia.
    + intros Hnot.
      assert (rcv_base st = k + 1) as Heq.
      { destruct (Z.lt_ge_cases (k + 1) (rcv_base st)) as [Hlt|]; [|lia].
        exfalso. apply Hnot.
        assert (Hin : held st (k + 1)) by (by left).
        apply Hheld in Hin as [[Hneg|[p Hp]]|Hin]; simpl in *; [lia| |done].
        by rewrite lookup_empty in Hp. }
      split; [done|]. by rewrite Happ, Heq.
Qed.

Lemma delivered_is_source_prefix_witness :
  let segments := ["he"; "ll"; "o"]%string in
  let cfg := Config 400 true in
  let arrivals := [data_msg 1 "ll"; data_msg 0 "he"; data_msg 1 "ll";
                   data_msg 2 "o"] in
  let st := (transfer cfg arrivals (init cfg)).1.2 in
  let seen := reassembled_seqs cfg arrivals (init cfg) in
  (seen = [1; 0; 2] ∧ String.concat "" (app_data st) = "hello"%string)
  ∧ (0 ≤ rcv_base st
     ∧ app_data st = take (Z.to_nat (rcv_base st)) segments
     ∧ String.concat "" (app_data st) = String.concat "" (take (Z.to_nat (rcv_base st)) segments)
     ∧ ∀ s, is_Some (rcv_buffer st !! s) → rcv_base st < s)
  ∧ ((∀ j, 0 ≤ j ≤ 2 → j ∈ seen) →
     2 < rcv_base st
     ∧ take (Z.to_nat (2 + 1)) segments `prefix_of` app_data st
     ∧ (2 + 1 ∉ seen →
        rcv_base st = 2 + 1 ∧ app_data st = take (Z.to_nat (2 + 1)) segments)).
Proof.
  split; [split; vm_compute; reflexivity|].
  apply (delivered_is_source_prefix ["he"; "ll"; "o"]%string (Config 400 true)
           [data_msg 1 "ll"; data_msg 0 "he"; data_msg 1 "ll";
            data_msg 2 "o"] 2);
    [repeat constructor | lia].
Defined.

(** C1 as it is stated fails when a later segment has come in first: with
    the source cut into [a] and [b], and segment 1 arriving before segment 0,
    segments [0..0] have been handed to the reassembly step, yet the delivered
    data is [ab] and not the first segment alone. *)
Lemma delivered_may_run_past_k :
  let segments := ["a"; "b"]%string in
  let cfg := Config 400 false in
  let arrivals := [data_msg 1 "b"; data_msg 0 "a"] in
  let st := (transfer cfg arrivals (init cfg)).1.2 in
  forallb (copy_of segments) arrivals = true
  ∧ reassembled_seqs cfg arrivals (init cfg) = [1; 0]
  ∧ app_data st = ["a"; "b"]%string
  ∧ String.concat "" (app_data st) = "ab"%string
  ∧ String.concat "" (take (Z.to_nat (0 + 1)) segments) = "a"%string
  ∧ String.concat "" (app_data st) ≠ String.concat "" (take (Z.to_nat (0 + 1)) segments).
Proof. vm_compute. repeat split; discriminate. Qed.

Lemma reassemble_at_base st p :
  reassemble (rcv_base st) p st
  = drain (State (rcv_base st + 1) (delete (rcv_base st) (rcv_buffer st))
                 (app_data st ++ [p]) (mss st)).
Proof.
  unfold reassemble. destruct (Z.leb_spec (rcv_base st) (rcv_base st)); [|lia].
  erewrite drain_step by (simpl; apply lookup_insert_eq). simpl.
  by rewrite delete_insert_eq.
Qed.

Lemma reassemble_above_base st s p :
  rcv_base st < s → rcv_buffer st !! rcv_base st = None →
  reassemble s p st = State (rcv_base st) (<[s := p]> (rcv_buffer st)) (app_data st) (mss st).
Proof.
  intros Hlt Hnone. unfold reassemble. destruct (Z.leb_spec (rcv_base st) s); [|lia].
  apply drain_none. simpl. rewrite lookup_insert_ne by lia. done.
Qed.

(** C10 (as amended). A DATA record with no payload field is taken as
    carrying the empty string: for a segment size that is not negative it
    passes the size check and is buffered at its seq like the same record with
    an empty payload.  Above [rcv_base] it stays in the reorder buffer; at
    [rcv_base] the empty string is appended to the delivered data and
    [rcv_base] moves past it, by exactly one when the next seq is not
    buffered, and further over the contiguous run when it is. *)
Theorem absent_payload_is_empty_string (cfg : config) (st : state)
    (o : list (string * json)) (s : Z) :
  is_str (dict_get o "type" JNull) "DATA" = true →
  dict_lookup "payload" o = None →
  as_int (dict_get o "seq" JNull) = Some s →
  rcv_base st ≤ s →
  0 ≤ mss st →
  let r := handle_segment cfg ((JObj o)) st in
  r = handle_segment cfg ((data_msg s "")) st
  ∧ r = (Continue, adapt cfg (reassemble s "" st), [send_ack cfg (adapt cfg (reassemble s "" st))])
  ∧ (rcv_base st < s → rcv_buffer st !! rcv_base st = None →
     rcv_base r.1.2 = rcv_base st ∧ app_data r.1.2 = app_data st
     ∧ rcv_buffer r.1.2 = <[s := ""%string]> (rcv_buffer st))
  ∧ (s = rcv_base st →
     reassemble s "" st
     = drain (State (rcv_base st + 1) (delete s (rcv_buffer st))
                    (app_data st ++ [""%string]) (mss st))
     ∧ rcv_base st + 1 ≤ rcv_base r.1.2
     ∧ (app_data st ++ [""%string]) `prefix_of` app_data r.1.2
     ∧ (rcv_buffer st !! (rcv_base st + 1) = None →
        rcv_base r.1.2 = rcv_base st + 1 ∧ app_data r.1.2 = app_data st ++ [""%string]
        ∧ rcv_buffer r.1.2 = delete s (rcv_buffer st))).
Proof.
  intros Hd Hnone Hs Hle Hmss r.
  assert (Hp : dict_get o "payload" (JStr "") = JStr "") by (unfold dict_get; by rewrite Hnone).
  assert (Hr : r = (Continue, adapt cfg (reassemble s "" st),
                    [send_ack cfg (adapt cfg (reassemble s "" st))])).
  { subst r. apply handle_segment_accepted; done. }
  split; [|split; [done|]].
  { rewrite Hr. symmetry. apply handle_segment_accepted; done. }
  rewrite Hr. simpl. rewrite adapt_base, adapt_app_data, adapt_buffer. split.
  - intros Hlt Hfree. by rewrite reassemble_above_base.
  - intros ->. rewrite reassemble_at_base. split; [done|]. split; [|split].
    + etrans; [|apply drain_loop_base_le]. simpl. lia.
    + etrans; [|apply drain_loop_prefix]. done.
    + intros Hnext. rewrite drain_none; [done|].
      simpl. rewrite lookup_delete_ne by lia. done.
Qed.

Lemma absent_payload_is_empty_string_witness :
  let cfg := Config 400 false in
  let st := State 1 {[3 := "d"%string]} ["a"%string] 400 in
  let o := [("type", JStr "DATA"); ("seq", JInt 1)]%string in
  let r := handle_segment cfg ((JObj o)) st in
  r = (Continue, State 2 {[3 := "d"%string]} ["a"; ""]%string 400,
       [Send (JObj [("type", JStr "ACK"); ("ack", JInt 1)]%string)])
  ∧ r = handle_segment cfg ((data_msg 1 "")) st
  ∧ r = (Continue, adapt cfg (reassemble 1 "" st), [send_ack cfg (adapt cfg (reassemble 1 "" st))])
  ∧ (rcv_base st < 1 → rcv_buffer st !! rcv_base st = None →
     rcv_base r.1.2 = rcv_base st ∧ app_data r.1.2 = app_data st
     ∧ rcv_buffer r.1.2 = <[1 := ""%string]> (rcv_buffer st))
  ∧ (1 = rcv_base st →
     reassemble 1 "" st
     = drain (State (rcv_base st + 1) (delete 1 (rcv_buffer st))
                    (app_data st ++ [""%string]) (mss st))
     ∧ rcv_base st + 1 ≤ rcv_base r.1.2
     ∧ (app_data st ++ [""%string]) `prefix_of` app_data r.1.2
     ∧ (rcv_buffer st !! (rcv_base st + 1) = None →
        rcv_base r.1.2 = rcv_base st + 1 ∧ app_data r.1.2 = app_data st ++ [""%string]
        ∧ rcv_buffer r.1.2 = delete 1 (rcv_buffer st))).
Proof.
  split; [vm_compute; reflexivity|].
  apply (absent_payload_is_empty_string (Config 400 false)
           (State 1 {[3 := "d"%string]} ["a"%string] 400)
           [("type", JStr "DATA"); ("seq", JInt 1)]%string 1);
    [reflexivity | reflexivity | reflexivity | simpl; lia | simpl; lia].
Defined.

(** C10 as it is stated fails in two places.  With seq 1 already buffered, a
    DATA record for seq 0 without a payload moves [rcv_base] from 0 to 2, not
    by one; and under a negative segment size the record does not pass the
    size check: it is acknowledged and dropped. *)
Lemma absent_payload_beyond_one_step :
  let o := [("type", JStr "DATA"); ("seq", JInt 0)]%string in
  handle_segment (Config 400 false) ((JObj o)) (State 0 {[1 := "x"%string]} [] 400)
  = (Continue, State 2 ∅ [""; "x"]%string 400,
     [Send (JObj [("type", JStr "ACK"); ("ack", JInt 1)]%string)])
  ∧ handle_segment (Config (-1) false) ((JObj o)) (State 0 ∅ [] (-1))
    = (Continue, State 0 ∅ [] (-1),
       [Send (JObj [("type", JStr "ACK"); ("ack", JInt (-1))]%string)]).
Proof. split; vm_compute; reflexivity. Qed.

Lemma agrees_app segments more st : agrees segments st → agrees (segments ++ more) st.
Proof.
  intros (H0 & Hlen & Happ & Hbuf). unfold agrees.
  split; [done|]. split; [rewrite length_app; lia|]. split.
  - by rewrite take_app_le.
  - intros s p Hp. destruct (Hbuf s p Hp) as [Hle Hs].
    split; [done|]. by apply lookup_app_l_Some.
Qed.

(** Scenario E of the specification: on FIN the receiver prints what it has
    delivered, answers FIN_ACK and leaves the loop. *)
Example fin_ends_the_session :
  transfer (Config 400 false)
    [data_msg 0 "HELLO WORL"; data_msg 1 "D"; JObj [("type", JStr "FIN")]%string;
     data_msg 2 "late"]
    (init (Config 400 false))
  = (Break, State 2 ∅ ["HELLO WORL"; "D"]%string 400,
     [Send (JObj [("type", JStr "ACK"); ("ack", JInt 0)]%string);
      Send (JObj [("type", JStr "ACK"); ("ack", JInt 1)]%string);
      Print (final_message (State 2 ∅ ["HELLO WORL"; "D"]%string 400));
      Send (JObj [("type", JStr "FIN_ACK")]%string)]).
Proof. vm_compute. reflexivity. Qed.

End ServerProofs.

(** ** Properties of the sender *)

Module ClientProofs.
Import Wire Client.

(** *** The trace of what was sent *)

Lemma original_app out out' seq :
  original (out ++ out') seq
  = match original out seq with Some p => Some p | None => original out' seq end.
Proof.
  induction out as [|m out IH]; simpl; [done|].
  destruct (data_of m) as [[s p]|]; [|done].
  by destruct (s =? seq).
Qed.

Lemma data_of_data_msg seq payload : data_of (data_msg seq payload) = Some (seq, payload).
Proof. done. Qed.

Lemma original_omap_buffer (buf : gmap Z string) (l : list Z) seq p :
  original (omap (λ s, match buf !! s with
                       | Some payload => Some (data_msg s payload)
                       | None => None
                       end) l) seq = Some p →
  buf !! seq = Some p.
Proof.
  induction l as [|s l IH]; simpl; [done|].
  destruct (buf !! s) as [q|] eqn:Hs; simpl; [|done].
  destruct (Z.eqb_spec s seq) as [->|]; [|done]. congruence.
Qed.

Lemma omap_total {A B} (g : A → option B) (l : list A) :
  Forall (λ x, is_Some (g x)) l → Forall2 (λ x y, g x = Some y) l (omap g l).
Proof.
  induction 1 as [|x l [y Hy] Hl IH]; simpl; [constructor|].
  rewrite Hy. simpl. by constructor.
Qed.

(** *** What every reachable state satisfies *)

(** The buffer holds every seq ever assigned, [0] to [next_seq_num - 1], each
    with the payload of its first transmission. *)
Definition buffered (st : state) (out : list json) : Prop :=
  0 ≤ base st
  ∧ 0 ≤ next_seq_num st
  ∧ (∀ s, is_Some (sent_packets_buffer st !! s) ↔ 0 ≤ s < next_seq_num st)
  ∧ ∀ s, original out s = sent_packets_buffer st !! s.

Definition window_ok (cfg : config) (st : state) : Prop :=
  base st ≤ next_seq_num st ≤ base st + window_size cfg.

Lemma init_buffered mms0 : buffered (init mms0) [].
Proof.
  unfold buffered; simpl. do 2 (split; [lia|]). split.
  - intros s. rewrite lookup_empty. split; [by intros []|lia].
  - intros s. by rewrite lookup_empty.
Qed.

Lemma fill_loop_buffered fuel cfg now st st' out o :
  buffered st out →
  fill_loop fuel cfg now st = Some (st', o) →
  buffered st' (out ++ o).
Proof.
  revert st out o. induction fuel as [|fuel IH]; intros st out o Hst; simpl.
  { intros [= <- <-]. by rewrite app_nil_r. }
  destruct (_ && _); [|intros [= <- <-]; by rewrite app_nil_r].
  destruct (as_int (mms st)) as [m|]; [|done].
  set (payload := py_slice _ _ _).
  set (st1 := State _ _ _ _ _ _).
  destruct (fill_loop fuel cfg now st1) as [[st2 o2]|] eqn:Hrec; [|done].
  intros [= <- <-].
  replace (out ++ data_msg (next_seq_num st) payload :: o2)
    with ((out ++ [data_msg (next_seq_num st) payload]) ++ o2) by (by rewrite <- app_assoc).
  eapply IH; [|exact Hrec].
  destruct Hst as (Hb & Hn & Hdom & Horig).
  unfold buffered, st1; simpl. split; [done|]. split; [lia|]. split.
  - intros s. rewrite lookup_insert_is_Some, Hdom. lia.
  - intros s. rewrite original_app, Horig. simpl.
    destruct (decide (next_seq_num st = s)) as [<-|Hne].
    + rewrite lookup_insert_eq.
      destruct (sent_packets_buffer st !! next_seq_num st) as [q|] eqn:Hq.
      * assert (is_Some (sent_packets_buffer st !! next_seq_num st)) as Hs by eauto.
        apply Hdom in Hs. lia.
      * by rewrite Z.eqb_refl.
    + rewrite lookup_insert_ne by done.
      destruct (sent_packets_buffer st !! s); [done|].
      destruct (Z.eqb_spec (next_seq_num st) s); [done|done].
Qed.

Lemma on_ack_fields cfg ack_msg now st :
  file_cursor (on_ack cfg ack_msg now st) = file_cursor st
  ∧ sent_packets_buffer (on_ack cfg ack_msg now st) = sent_packets_buffer st
  ∧ next_seq_num (on_ack cfg ack_msg now st) = next_seq_num st
  ∧ base st ≤ base (on_ack cfg ack_msg now st).
Proof.
  unfold on_ack. repeat (case_match; simpl; try (repeat split; lia)).
Qed.

Lemma on_ack_buffered cfg ack_msg now st out :
  buffered st out → buffered (on_ack cfg ack_msg now st) out.
Proof.
  destruct (on_ack_fields cfg ack_msg now st) as (_ & Hbuf & Hn & Hb).
  unfold buffered. rewrite Hbuf, Hn. intros (? & ? & ? & ?).
  repeat split; try done; try lia; by apply H1.
Qed.

Lemma on_timeout_buffered cfg now now' st out :
  buffered st out →
  buffered (on_timeout cfg now now' st).1 (out ++ (on_timeout cfg now now' st).2).
Proof.
  unfold on_timeout. destruct (expired cfg now st); simpl; [|by rewrite app_nil_r].
  intros (Hb & Hn & Hdom & Horig). unfold buffered; simpl.
  do 3 (split; [done|]). intros s. rewrite original_app, Horig.
  destruct (sent_packets_buffer st !! s) as [p|] eqn:Hs; [done|].
  destruct (original (retransmit st) s) as [p|] eqn:Ho; [|done].
  apply original_omap_buffer in Ho. congruence.
Qed.

Lemma do_phase_buffered cfg p st st' out o :
  buffered st out → do_phase cfg p st = Some (st', o) → buffered st' (out ++ o).
Proof.
  intros Hst. destruct p as [now|msg now|now now']; simpl.
  - apply fill_loop_buffered. done.
  - intros [= <- <-]. rewrite app_nil_r. by apply on_ack_buffered.
  - intros H. apply (on_timeout_buffered cfg now now') in Hst.
    destruct (on_timeout cfg now now' st). by simplify_eq.
Qed.

Lemma exec_buffered cfg ps st st' out o :
  buffered st out → exec cfg ps st = Some (st', o) → buffered st' (out ++ o).
Proof.
  revert st out o. induction ps as [|p ps IH]; intros st out o Hst; simpl.
  { intros [= <- <-]. by rewrite app_nil_r. }
  destruct (do_phase cfg p st) as [[st1 o1]|] eqn:Hp; [|done].
  destruct (exec cfg ps st1) as [[st2 o2]|] eqn:He; [|done].
  intros [= <- <-]. rewrite app_assoc. eapply IH; [|exact He].
  by eapply do_phase_buffered.
Qed.

Lemma reachable_buffered cfg mms0 ps st out :
  exec cfg ps (init mms0) = Some (st, out) → buffered st out.
Proof. intros H. by apply (exec_buffered cfg ps (init mms0) st [] out (init_buffered mms0)). Qed.

(** *** The window *)

Lemma fill_loop_window fuel cfg now st st' o :
  window_ok cfg st → fill_loop fuel cfg now st = Some (st', o) → window_ok cfg st'.
Proof.
  revert st o. induction fuel as [|fuel IH]; intros st o Hst; simpl.
  { by intros [= <- <-]. }
  destruct (Z.ltb_spec (next_seq_num st) (base st + window_size cfg)); simpl;
    [|by intros [= <- <-]].
  destruct (file_cursor st <? len (file_data cfg)); [|by intros [= <- <-]].
  destruct (as_int (mms st)) as [m|]; [|done].
  set (st1 := State _ _ _ _ _ _).
  destruct (fill_loop fuel cfg now st1) as [[st2 o2]|] eqn:Hrec; [|done].
  intros [= <- <-]. eapply IH; [|exact Hrec].
  unfold window_ok in *; simpl. lia.
Qed.

(** The fuel [fill] gives the loop is enough: it stops because the window is
    full or the data is used up. *)
Lemma fill_loop_done fuel cfg now st st' o :
  base st + window_size cfg - next_seq_num st ≤ Z.of_nat fuel →
  fill_loop fuel cfg now st = Some (st', o) →
  (next_seq_num st' <? base st' + window_size cfg)
  && (file_cursor st' <? len (file_data cfg)) = false.
Proof.
  revert st o. induction fuel as [|fuel IH]; intros st o Hfuel; simpl.
  { intros [= <- <-]. destruct (Z.ltb_spec (next_seq_num st) (base st + window_size cfg)); [lia|done]. }
  destruct ((next_seq_num st <? base st + window_size cfg)
            && (file_cursor st <? len (file_data cfg))) eqn:Hguard;
    [|by intros [= <- <-]].
  apply andb_true_iff in Hguard as [Hlt%Z.ltb_lt _].
  destruct (as_int (mms st)) as [m|]; [|done].
  set (st1 := State _ _ _ _ _ _).
  destruct (fill_loop fuel cfg now st1) as [[st2 o2]|] eqn:Hrec; [|done].
  intros [= <- <-]. eapply IH; [|exact Hrec]. simpl. lia.
Qed.

Lemma fill_done cfg now st st' o :
  fill cfg now st = Some (st', o) →
  (next_seq_num st' <? base st' + window_size cfg)
  && (file_cursor st' <? len (file_data cfg)) = false.
Proof. apply fill_loop_done. lia. Qed.

Lemma on_ack_stale cfg msg now st :
  (∀ a, ack_value msg = Some a → a < base st) → on_ack cfg msg now st = st.
Proof.
  unfold ack_value, on_ack. intros H.
  destruct (truthy msg); [|done]. destruct msg as [| | | | |o]; try done.
  destruct (is_str (dict_get o "type" JNull) "ACK"); [|done].
  destruct (as_int (dict_get o "ack" JNull)) as [a|]; [|done].
  specialize (H a eq_refl). destruct (Z.leb_spec (base st) a); [lia|done].
Qed.

Lemma on_ack_fresh cfg o now st a :
  is_str (dict_get o "type" JNull) "ACK" = true →
  as_int (dict_get o "ack" JNull) = Some a →
  base st ≤ a →
  ack_value (JObj o) = Some a
  ∧ on_ack cfg (JObj o) now st
    = State (file_cursor st) (sent_packets_buffer st) (a + 1) (next_seq_num st)
            (if a + 1 <? next_seq_num st then Some now else None)
            (if truthy (is_dynamic cfg) && dict_has "maximum message size" o
             then dict_get o "maximum message size" JNull
             else mms st).
Proof.
  intros Ht Ha Hle. unfold ack_value, on_ack.
  assert (truthy (JObj o) = true) as -> by (by destruct o).
  rewrite Ht, Ha. destruct (Z.leb_spec (base st) a); [done|lia].
Qed.

Lemma on_ack_base cfg msg now st :
  base (on_ack cfg msg now st) = base st
  ∨ ∃ a, ack_value msg = Some a ∧ base st ≤ a ∧ base (on_ack cfg msg now st) = a + 1.
Proof.
  unfold ack_value, on_ack.
  destruct (truthy msg); [|by left]. destruct msg as [| | | | |o]; try (by left).
  destruct (is_str (dict_get o "type" JNull) "ACK"); [|by left].
  destruct (as_int (dict_get o "ack" JNull)) as [a|]; [|by left].
  destruct (Z.leb_spec (base st) a); [|by left].
  right. by exists a.
Qed.

Lemma on_ack_window cfg msg now st :
  window_ok cfg st →
  (∀ a, ack_value msg = Some a → a < next_seq_num st) →
  window_ok cfg (on_ack cfg msg now st).
Proof.
  intros Hst Hsent.
  destruct (on_ack_fields cfg msg now st) as (_ & _ & Hn & _).
  unfold window_ok in *. rewrite Hn.
  destruct (on_ack_base cfg msg now st) as [->|(a & Ha & Hle & ->)]; [done|].
  specialize (Hsent a Ha). lia.
Qed.

Lemma on_timeout_fields cfg now now' st :
  file_cursor (on_timeout cfg now now' st).1 = file_cursor st
  ∧ sent_packets_buffer (on_timeout cfg now now' st).1 = sent_packets_buffer st
  ∧ base (on_timeout cfg now now' st).1 = base st
  ∧ next_seq_num (on_timeout cfg now now' st).1 = next_seq_num st
  ∧ mms (on_timeout cfg now now' st).1 = mms st.
Proof. unfold on_timeout. by destruct (expired cfg now st). Qed.

Lemma exec_window cfg ps st st' o :
  window_ok cfg st →
  acks_sent cfg ps st = true →
  exec cfg ps st = Some (st', o) →
  window_ok cfg st'.
Proof.
  revert st o. induction ps as [|p ps IH]; intros st o Hst Hacks; simpl.
  { by intros [= <- <-]. }
  simpl in Hacks. apply andb_true_iff in Hacks as [Hp Hrest].
  destruct (do_phase cfg p st) as [[st1 o1]|] eqn:Hdo; [|done].
  destruct (exec cfg ps st1) as [[st2 o2]|] eqn:He; [|done].
  intros [= <- <-]. eapply IH; [|exact Hrest|exact He].
  destruct p as [now|msg now|now now']; simpl in Hdo.
  - by eapply fill_loop_window.
  - simplify_eq. apply on_ack_window; [done|].
    intros a Ha. rewrite Ha in Hp. by apply Z.ltb_lt.
  - destruct (on_timeout_fields cfg now now' st) as (_ & _ & Hb & Hn & _).
    injection Hdo as Hdo. rewrite Hdo in Hb, Hn. simpl in *.
    unfold window_ok. by rewrite Hb, Hn.
Qed.

(** The transfer loop is a run of phases, three for each turn it takes. *)
Lemma exec_app cfg ps qs st :
  exec cfg (ps ++ qs) st
  = match exec cfg ps st with
    | Some (st', o) =>
        match exec cfg qs st' with
        | Some (st'', o') => Some (st'', o ++ o')
        | None => None
        end
    | None => None
    end.
Proof.
  revert st. induction ps as [|p ps IH]; intros st; simpl.
  { by destruct (exec cfg qs st) as [[??]|]. }
  destruct (do_phase cfg p st) as [[st1 o1]|]; [|done].
  rewrite IH. destruct (exec cfg ps st1) as [[st2 o2]|]; [|done].
  destruct (exec cfg qs st2) as [[st3 o3]|]; [|done]. by rewrite app_assoc.
Qed.

Lemma transfer_round cfg r rounds st :
  transfer cfg (r :: rounds) st
  = if loop_guard cfg st then
      match exec cfg (phases r) st with
      | Some (st', out) =>
          match transfer cfg rounds st' with
          | Some (st'', out') => Some (st'', out ++ out')
          | None => None
          end
      | None => None
      end
    else Some (st, []).
Proof. done. Qed.

Lemma transfer_is_exec cfg rounds st :
  ∃ n, transfer cfg rounds st = exec cfg (List.concat (phases <$> take n rounds)) st.
Proof.
  revert st. induction rounds as [|r rounds IH]; intros st.
  { by exists 0%nat. }
  rewrite transfer_round. destruct (loop_guard cfg st); [|by exists 0%nat].
  destruct (exec cfg (phases r) st) as [[st1 o1]|] eqn:Hr.
  - destruct (IH st1) as [n Hn]. exists (S n).
    change (List.concat (phases <$> take (S n) (r :: rounds)))
      with (phases r ++ List.concat (phases <$> take n rounds)).
    by rewrite exec_app, Hr, Hn.
  - exists 1%nat.
    change (List.concat (phases <$> take 1 (r :: rounds)))
      with (phases r ++ List.concat (phases <$> take 0 rounds)).
    by rewrite exec_app, Hr.
Qed.

(** *** The claims about the sender *)




(** C3 (as amended). When the sender reads an ACK record whose number is at
    least [base], it sets [base] to that number plus one, rearms the timer if
    segments remain outstanding and disarms it otherwise, and adopts the
    record's segment size when the adaptive flag is set.  It removes nothing
    from the buffer of sent segments: after every acknowledgment the buffer's
    keys are exactly [0 .. next_seq_num - 1], which contains every seq of
    [base .. next_seq_num - 1]. *)
Theorem ack_slides_base_and_keeps_buffer (cfg : config) (mms0 : json)
    (ps : list phase) (st : state) (out : list json)
    (o : list (string * json)) (ack_num now : Z) :
  exec cfg ps (init mms0) = Some (st, out) →
  is_str (dict_get o "type" JNull) "ACK" = true →
  as_int (dict_get o "ack" JNull) = Some ack_num →
  base st ≤ ack_num →
  let st' := on_ack cfg (JObj o) now st in
  base st' = ack_num + 1
  ∧ next_seq_num st' = next_seq_num st
  ∧ sent_packets_buffer st' = sent_packets_buffer st
  ∧ timer_start st' = (if ack_num + 1 <? next_seq_num st then Some now else None)
  ∧ mms st' = (if truthy (is_dynamic cfg) && dict_has "maximum message size" o
               then dict_get o "maximum message size" JNull else mms st)
  ∧ (∀ s, is_Some (sent_packets_buffer st' !! s) ↔ 0 ≤ s < next_seq_num st')
  ∧ (∀ s, base st' ≤ s < next_seq_num st' → is_Some (sent_packets_buffer st' !! s)).
Proof.
  intros Hexec Ht Ha Hle st'.
  destruct (on_ack_fresh cfg o now st ack_num Ht Ha Hle) as [_ Heq].
  apply reachable_buffered in Hexec as (Hb & Hn & Hdom & _).
  subst st'. rewrite Heq. simpl. do 5 (split; [done|]). split; [done|].
  intros s Hs. apply Hdom. lia.
Qed.

Lemma ack_slides_base_and_keeps_buffer_witness :
  let cfg := Config "HELLO WORLD" 2 5 (JBool true) in
  let st := State 11 {[0 := "HELLO WORL"; 1 := "D"]}%string 0 2 (Some 100) (JInt 10) in
  let o := [("type", JStr "ACK"); ("ack", JInt 0); ("maximum message size", JInt 20)]%string in
  let st' := on_ack cfg (JObj o) 101 st in
  st' = State 11 {[0 := "HELLO WORL"; 1 := "D"]}%string 1 2 (Some 101) (JInt 20)
  ∧ base st' = 0 + 1
  ∧ next_seq_num st' = next_seq_num st
  ∧ sent_packets_buffer st' = sent_packets_buffer st
  ∧ timer_start st' = (if 0 + 1 <? next_seq_num st then Some 101 else None)
  ∧ mms st' = (if truthy (is_dynamic cfg) && dict_has "maximum message size" o
               then dict_get o "maximum message size" JNull else mms st)
  ∧ (∀ s, is_Some (sent_packets_buffer st' !! s) ↔ 0 ≤ s < next_seq_num st')
  ∧ (∀ s, base st' ≤ s < next_seq_num st' → is_Some (sent_packets_buffer st' !! s)).
Proof.
  split; [vm_compute; reflexivity|].
  apply (ack_slides_base_and_keeps_buffer
           (Config "HELLO WORLD" 2 5 (JBool true)) (JInt 10) [Fill 100]
           (State 11 {[0 := "HELLO WORL"; 1 := "D"]}%string 0 2 (Some 100) (JInt 10))
           [data_msg 0 "HELLO WORL"; data_msg 1 "D"]
           [("type", JStr "ACK"); ("ack", JInt 0); ("maximum message size", JInt 20)]%string
           0 101);
    [vm_compute; reflexivity | reflexivity | reflexivity | simpl; lia].
Defined.

(** C3 as it is stated fails: nothing is dropped from the buffer.  After
    the acknowledgment of seq 0, [base] is 1 and the buffer still holds the
    entry of seq 0. *)
Lemma acknowledged_entry_stays_buffered :
  let cfg := Config "HELLO WORLD" 2 5 (JBool false) in
  let ack0 := JObj [("type", JStr "ACK"); ("ack", JInt 0)]%string in
  let st := State 11 {[0 := "HELLO WORL"; 1 := "D"]}%string 0 2 (Some 100) (JInt 10) in
  exec cfg [Fill 100] (init (JInt 10)) = Some (st, [data_msg 0 "HELLO WORL"; data_msg 1 "D"])
  ∧ base (on_ack cfg ack0 101 st) = 1
  ∧ next_seq_num (on_ack cfg ack0 101 st) = 2
  ∧ sent_packets_buffer (on_ack cfg ack0 101 st) !! 0 = Some "HELLO WORL"%string.
Proof. repeat split; vm_compute; reflexivity. Qed.

Lemma expired_armed cfg now st :
  expired cfg now st = true ↔ ∃ t, timer_start st = Some t ∧ t ≠ 0 ∧ timeout cfg < now - t.
Proof.
  unfold expired. destruct (timer_start st) as [t|].
  - rewrite andb_true_iff, negb_true_iff, Z.eqb_neq, Z.ltb_lt. split.
    + intros [??]. by exists t.
    + intros (t' & [= <-] & ? & ?). done.
  - split; [done|]. by intros (t & ? & _).
Qed.



(** *** Cutting the source into segments *)

Lemma substring_none n s : substring n 0 s = EmptyString.
Proof. revert n. induction s as [|c s IH]; intros [|n]; simpl; auto. Qed.

Lemma substring_length n m s :
  (n + m ≤ String.length s)%nat → String.length (substring n m s) = m.
Proof.
  revert n m. induction s as [|c s IH]; intros [|n] [|m]; simpl; intros H; try lia.
  - by rewrite IH by lia.
  - by rewrite substring_none.
  - apply IH. lia.
Qed.

Lemma substring_app a n s :
  (a + n ≤ String.length s)%nat →
  substring 0 a s +:+ substring a n s = substring 0 (a + n) s.
Proof.
  revert a. induction s as [|c s IH]; intros [|a]; simpl; intros H; try lia.
  - destruct n; [done|simpl in H; lia].
  - done.
  - change (String c (substring 0 a s +:+ substring a n s) = String c (substring 0 (a + n) s)).
    by rewrite IH by lia.
Qed.

Lemma substring_all s : substring 0 (String.length s) s = s.
Proof. induction s as [|c s IH]; simpl; [done|]. by rewrite IH. Qed.

Lemma append_empty_r s : s +:+ EmptyString = s.
Proof.
  induction s as [|c s IH]; [done|].
  change (String c (s +:+ EmptyString) = String c s). by rewrite IH.
Qed.

Lemma append_assoc s1 s2 s3 : (s1 +:+ s2) +:+ s3 = s1 +:+ (s2 +:+ s3).
Proof.
  induction s1 as [|c s1 IH]; [done|].
  change (String c ((s1 +:+ s2) +:+ s3) = String c (s1 +:+ (s2 +:+ s3))). by rewrite IH.
Qed.

Lemma join_cons x l : String.concat "" (x :: l) = x +:+ String.concat "" l.
Proof. destruct l; simpl; [by rewrite append_empty_r|done]. Qed.

Lemma join_app l1 l2 :
  String.concat "" (l1 ++ l2) = String.concat "" l1 +:+ String.concat "" l2.
Proof.
  induction l1 as [|x l1 IH]; [done|].
  rewrite <- app_comm_cons, !join_cons, IH. by rewrite append_assoc.
Qed.

(** A slice that starts inside the string is the piece of it that begins
    there, whatever the other bound. *)
Lemma py_slice_from s start stop :
  0 ≤ start ≤ len s →
  ∃ n, py_slice s start stop = substring (Z.to_nat start) n s
       ∧ (Z.to_nat start + n ≤ String.length s)%nat.
Proof.
  intros Hstart. unfold py_slice, len in *.
  set (l := Z.of_nat (String.length s)) in *.
  destruct (Z.ltb_spec start 0); [lia|].
  rewrite (Z.min_l start l) by lia.
  set (b := if stop <? 0 then Z.max 0 (stop + l) else Z.min stop l).
  assert (b ≤ l) by (subst b; destruct (Z.ltb_spec stop 0); lia).
  destruct (Z.ltb_spec start b).
  - exists (Z.to_nat (b - start)). split; [done|]. lia.
  - exists 0%nat. rewrite substring_none. split; [done|]. lia.
Qed.

(** The segments cut so far are the source up to the read cursor. *)
Definition tiled (cfg : config) (st : state) : Prop :=
  0 ≤ next_seq_num st
  ∧ 0 ≤ file_cursor st ≤ len (file_data cfg)
  ∧ String.concat "" (segments st)
    = substring 0 (Z.to_nat (file_cursor st)) (file_data cfg).

Lemma segments_insert_next st payload cursor timer :
  0 ≤ next_seq_num st →
  segments (State cursor (<[next_seq_num st := payload]> (sent_packets_buffer st))
                  (base st) (next_seq_num st + 1) timer (mms st))
  = segments st ++ [payload].
Proof.
  intros Hn. unfold segments; simpl.
  rewrite seqZ_app by lia. rewrite omap_app. f_equal.
  - apply list_omap_ext. apply Forall_Forall2_diag, Forall_forall.
    intros s Hs%elem_of_seqZ. rewrite lookup_insert_ne by lia. done.
  - rewrite seqZ_cons, seqZ_nil by lia. simpl. by rewrite Z.add_0_l, lookup_insert_eq.
Qed.

Lemma fill_loop_tiled fuel cfg now st st' o :
  tiled cfg st → fill_loop fuel cfg now st = Some (st', o) → tiled cfg st'.
Proof.
  revert st o. induction fuel as [|fuel IH]; intros st o Hst; simpl.
  { by intros [= <- <-]. }
  destruct ((next_seq_num st <? base st + window_size cfg)
            && (file_cursor st <? len (file_data cfg))); [|by intros [= <- <-]].
  destruct (as_int (mms st)) as [m|]; [|done].
  set (payload := py_slice _ _ _).
  set (st1 := State _ _ _ _ _ _).
  destruct (fill_loop fuel cfg now st1) as [[st2 o2]|] eqn:Hrec; [|done].
  intros [= <- <-]. eapply IH; [|exact Hrec].
  destruct Hst as (Hn & Hc & Hjoin).
  destruct (py_slice_from (file_data cfg) (file_cursor st) (file_cursor st + m) Hc)
    as (n & Hp & Hlen). fold payload in Hp.
  assert (len payload = Z.of_nat n) as Hl.
  { unfold len. rewrite Hp, substring_length by done. done. }
  unfold tiled, st1. rewrite segments_insert_next by done. simpl.
  split; [lia|]. split; [unfold len in *; lia|].
  rewrite join_app, Hjoin. simpl String.concat. rewrite Hl, Hp.
  rewrite substring_app by done. f_equal. lia.
Qed.

Lemma on_ack_segments cfg msg now st : segments (on_ack cfg msg now st) = segments st.
Proof.
  destruct (on_ack_fields cfg msg now st) as (_ & Hbuf & Hn & _).
  unfold segments. by rewrite Hbuf, Hn.
Qed.

Lemma exec_tiled cfg ps st st' o :
  tiled cfg st → exec cfg ps st = Some (st', o) → tiled cfg st'.
Proof.
  revert st o. induction ps as [|p ps IH]; intros st o Hst; simpl.
  { by intros [= <- <-]. }
  destruct (do_phase cfg p st) as [[st1 o1]|] eqn:Hp; [|done].
  destruct (exec cfg ps st1) as [[st2 o2]|] eqn:He; [|done].
  intros [= <- <-]. eapply IH; [|exact He].
  destruct p as [now|msg now|now now']; simpl in Hp.
  - by eapply fill_loop_tiled.
  - simplify_eq. destruct (on_ack_fields cfg msg now st) as (Hc & _ & Hn & _).
    unfold tiled. by rewrite on_ack_segments, Hc, Hn.
  - destruct (on_timeout_fields cfg now now' st) as (Hc & Hbuf & _ & Hn & _).
    injection Hp as Hp. rewrite Hp in Hc, Hbuf, Hn. simpl in *.
    unfold tiled, segments. by rewrite Hc, Hbuf, Hn.
Qed.

Lemma segments_length st out :
  buffered st out → List.length (segments st) = Z.to_nat (next_seq_num st).
Proof.
  intros (_ & Hn & Hdom & _). unfold segments.
  rewrite <- (length_seqZ 0 (next_seq_num st)). symmetry.
  eapply Forall2_length, omap_total, Forall_forall.
  intros s Hs%elem_of_seqZ. apply Hdom. lia.
Qed.

(** The sender cuts the source without gap or overlap: in every state it
    reaches, the segments it has cut, joined in the order of their seqs, are
    the source up to the read cursor, one segment for each seq below
    [next_seq_num]; when the transfer loop ends they are the whole source. *)
Theorem segments_tile_source (cfg : config) (mms0 : json)
    (ps : list phase) (st : state) (out : list json) :
  exec cfg ps (init mms0) = Some (st, out) →
  0 ≤ file_cursor st ≤ len (file_data cfg)
  ∧ List.length (segments st) = Z.to_nat (next_seq_num st)
  ∧ String.concat "" (segments st)
    = substring 0 (Z.to_nat (file_cursor st)) (file_data cfg)
  ∧ (loop_guard cfg st = false → String.concat "" (segments st) = file_data cfg).
Proof.
  intros Hexec.
  assert (tiled cfg st) as (Hn & Hc & Hjoin).
  { eapply exec_tiled; [|exact Hexec]. unfold tiled, len; simpl.
    rewrite substring_none. split; [lia|]. split; [lia|done]. }
  split; [done|]. split; [by eapply segments_length, reachable_buffered|].
  split; [done|]. intros Hguard. rewrite Hjoin.
  unfold loop_guard in Hguard. apply orb_false_iff in Hguard as [Hcur%Z.ltb_ge _].
  replace (Z.to_nat (file_cursor st)) with (String.length (file_data cfg))
    by (unfold len in *; lia).
  apply substring_all.
Qed.

Lemma segments_tile_source_witness :
  let cfg := Config "HELLO WORLD" 2 5 (JBool false) in
  let st := State 11 {[0 := "HELLO WORL"; 1 := "D"]}%string 2 2 None (JInt 10) in
  (segments st = ["HELLO WORL"; "D"]%string ∧ loop_guard cfg st = false)
  ∧ 0 ≤ file_cursor st ≤ len (file_data cfg)
  ∧ List.length (segments st) = Z.to_nat (next_seq_num st)
  ∧ String.concat "" (segments st)
    = substring 0 (Z.to_nat (file_cursor st)) (file_data cfg)
  ∧ (loop_guard cfg st = false → String.concat "" (segments st) = file_data cfg).
Proof.
  split; [split; vm_compute; reflexivity|].
  apply (segments_tile_source (Config "HELLO WORLD" 2 5 (JBool false)) (JInt 10)
           [Fill 100; Ack (JObj [("type", JStr "ACK"); ("ack", JInt 1)]%string) 101]
           (State 11 {[0 := "HELLO WORL"; 1 := "D"]}%string 2 2 None (JInt 10))
           [data_msg 0 "HELLO WORL"; data_msg 1 "D"]).
  vm_compute; reflexivity.
Defined.

(** *** What the sender puts on the wire *)

(** A DATA record whose payload is the one buffered for its seq. *)
Definition from_buffer (st : state) (m : json) : Prop :=
  ∃ s p, m = data_msg s p ∧ sent_packets_buffer st !! s = Some p.

Lemma fill_loop_grows fuel cfg now st st' out o :
  buffered st out →
  fill_loop fuel cfg now st = Some (st', o) →
  sent_packets_buffer st ⊆ sent_packets_buffer st'
  ∧ base st' = base st
  ∧ Forall (from_buffer st') o.
Proof.
  revert st out o. induction fuel as [|fuel IH]; intros st out o Hst; simpl.
  { intros [= <- <-]. by repeat split. }
  destruct ((next_seq_num st <? base st + window_size cfg)
            && (file_cursor st <? len (file_data cfg))) eqn:Hguard;
    [|intros [= <- <-]; by repeat split].
  destruct (as_int (mms st)) as [m|] eqn:Hm; [|done].
  set (payload := py_slice _ _ _).
  set (st1 := State _ _ _ _ _ _).
  destruct (fill_loop fuel cfg now st1) as [[st2 o2]|] eqn:Hrec; [|done].
  intros [= <- <-].
  assert (buffered st1 (out ++ [data_msg (next_seq_num st) payload])) as Hst1.
  { apply (fill_loop_buffered 1 cfg now st st1 out _ Hst). simpl.
    rewrite Hguard, Hm. done. }
  destruct (IH st1 _ o2 Hst1 Hrec) as (Hsub & Hbase & Hout).
  assert (sent_packets_buffer st !! next_seq_num st = None) as Hfresh.
  { destruct Hst as (_ & _ & Hdom & _). apply eq_None_not_Some. rewrite Hdom. lia. }
  split; [|split; [done|]].
  - etrans; [|exact Hsub]. simpl. by apply insert_subseteq.
  - constructor; [|done]. exists (next_seq_num st), payload. split; [done|].
    eapply lookup_weaken; [|exact Hsub]. simpl. apply lookup_insert_eq.
Qed.

Lemma retransmit_from_buffer st : Forall (from_buffer st) (retransmit st).
Proof.
  unfold retransmit. induction (seqZ (base st) (next_seq_num st - base st)) as [|s l IH];
    simpl; [constructor|].
  destruct (sent_packets_buffer st !! s) as [p|] eqn:Hp; simpl; [|done].
  constructor; [|done]. by exists s, p.
Qed.

Lemma segments_lookup st out i :
  buffered st out → segments st !! i = sent_packets_buffer st !! Z.of_nat i.
Proof.
  intros Hb. pose proof (segments_length st out Hb) as Hlen.
  destruct Hb as (_ & Hn & Hdom & _).
  destruct (decide (Z.of_nat i < next_seq_num st)) as [Hlt|Hge].
  - assert (Forall2 (λ x y, sent_packets_buffer st !! x = Some y)
                    (seqZ 0 (next_seq_num st)) (segments st)) as HF.
    { apply omap_total, Forall_forall. intros s Hs%elem_of_seqZ. apply Hdom. lia. }
    destruct (Forall2_lookup_l _ _ _ i (0 + Z.of_nat i) HF) as (y & Hy & Hbuf).
    { apply lookup_seqZ_lt. lia. }
    rewrite Hy. simpl in Hbuf. by rewrite Z.add_0_l in Hbuf.
  - rewrite lookup_ge_None_2 by lia. symmetry. apply eq_None_not_Some. rewrite Hdom. lia.
Qed.

Lemma segments_prefix st out st' out' :
  buffered st out → buffered st' out' →
  sent_packets_buffer st ⊆ sent_packets_buffer st' →
  segments st `prefix_of` segments st'.
Proof.
  intros Hb Hb' Hsub. exists (drop (List.length (segments st)) (segments st')).
  rewrite <- (take_drop (List.length (segments st)) (segments st')) at 1. f_equal.
  apply list_eq. intros i.
  destruct (decide (i < List.length (segments st))%nat) as [Hlt|Hge].
  - rewrite lookup_take_lt by done.
    destruct (lookup_lt_is_Some_2 _ _ Hlt) as [x Hx]. rewrite Hx.
    rewrite (segments_lookup _ _ _ Hb) in Hx. rewrite (segments_lookup _ _ _ Hb').
    by eapply lookup_weaken.
  - rewrite lookup_take_ge, lookup_ge_None_2 by lia. done.
Qed.

(** Scenario A of the specification: window 2, segment size 10, source
    [HELLO WORLD]. *)
Example hello_world_is_cut_in_two :
  exec (Config "HELLO WORLD" 2 5 (JBool false)) [Fill 100] (init (JInt 10))
  = Some (State 11 {[0 := "HELLO WORL"; 1 := "D"]}%string 0 2 (Some 100) (JInt 10),
          [data_msg 0 "HELLO WORL"; data_msg 1 "D"]).
Proof. vm_compute. reflexivity. Qed.

(** Scenario C of the specification: the acknowledgment of seq 0 is lost and
    the one of seq 1 arrives. *)
Example later_ack_covers_earlier :
  on_ack (Config "HELLO WORLD" 2 5 (JBool false))
         (JObj [("type", JStr "ACK"); ("ack", JInt 1)]%string) 101
         (State 11 {[0 := "HELLO WORL"; 1 := "D"]}%string 0 2 (Some 100) (JInt 10))
  = State 11 {[0 := "HELLO WORL"; 1 := "D"]}%string 2 2 None (JInt 10).
Proof. vm_compute. reflexivity. Qed.

End ClientProofs.

(** ** The two decoders *)

Module CodecProofs.
Import Wire.

(** C5 (as amended). Neither decoder fails its caller.  The receiver's
    decoder answers an empty read (the connection is closed) with [None] and a
    line that does not parse with a record of type ERR carrying the reason
    [bad_json], and the two differ.  The sender's decoder answers both with
    [None]: it has no record for a malformed line. *)
Theorem decoders_on_closed_and_malformed
    (server_loads client_loads : string → option json) (line : string) :
  line ≠ ""%string →
  server_loads line = None →
  client_loads line = None →
  Server.recv_msg server_loads "" = JNull
  ∧ Client.recv_msg client_loads "" = JNull
  ∧ Server.recv_msg server_loads line
    = JObj [("type", JStr "ERR"); ("reason", JStr "bad_json")]%string
  ∧ Server.recv_msg server_loads line ≠ Server.recv_msg server_loads ""
  ∧ Client.recv_msg client_loads line = Client.recv_msg client_loads "".
Proof.
  intros Hline Hs Hc. unfold Server.recv_msg, Client.recv_msg.
  rewrite Hs, Hc. simpl.
  destruct (String.eqb_spec line ""); [done|]. by repeat split.
Qed.

Lemma decoders_on_closed_and_malformed_witness :
  Server.recv_msg loads "" = JNull
  ∧ Client.recv_msg loads "" = JNull
  ∧ Server.recv_msg loads "{oops"
    = JObj [("type", JStr "ERR"); ("reason", JStr "bad_json")]%string
  ∧ Server.recv_msg loads "{oops" ≠ Server.recv_msg loads ""
  ∧ Client.recv_msg loads "{oops" = Client.recv_msg loads "".
Proof.
  apply (decoders_on_closed_and_malformed loads loads "{oops");
    [discriminate | reflexivity | reflexivity].
Defined.

(** C5 as it is stated fails for the sender: a line that does not parse
    ([json.loads] raises on it) decodes to the same [None] as an empty read,
    and to no record with a reason. *)
Lemma sender_decoder_conflates_closed_and_malformed :
  loads "{oops" = None
  ∧ Client.recv_msg loads "{oops" = JNull
  ∧ Client.recv_msg loads "" = JNull
  ∧ Server.recv_msg loads "{oops"
    = JObj [("type", JStr "ERR"); ("reason", JStr "bad_json")]%string.
Proof. repeat split; vm_compute; reflexivity. Qed.

End CodecProofs.

(** ** Properties of the two peers together *)

Module SystemProofs.
Import Wire System.

(** What holds of the two peers and the records in flight after any run. *)
Definition invariant (cs : Client.config) (w : world) : Prop :=
  ClientProofs.buffered (sender w) (written w)
  ∧ ClientProofs.window_ok cs (sender w)
  ∧ ClientProofs.tiled cs (sender w)
  ∧ Forall (ClientProofs.from_buffer (sender w)) (to_receiver w)
  ∧ ServerProofs.agrees (Client.segments (sender w)) (receiver w)
  ∧ Client.base (sender w) ≤ Server.rcv_base (receiver w)
  ∧ Forall (λ m, ∀ a, Client.ack_value m = Some a → a < Server.rcv_base (receiver w))
           (to_sender w).

Lemma start_invariant cs cr mms0 :
  0 ≤ Client.window_size cs → invariant cs (start cr mms0).
Proof.
  intros HW. unfold invariant, start; simpl.
  split; [apply ClientProofs.init_buffered|].
  split; [unfold ClientProofs.window_ok; simpl; lia|].
  split.
  { unfold ClientProofs.tiled, Client.len; simpl.
    rewrite ClientProofs.substring_none. split; [lia|]. split; [lia|done]. }
  split; [constructor|].
  split; [apply ServerProofs.init_agrees|].
  split; [lia|constructor].
Qed.

(** The receiver never gets ahead of what the sender has cut. *)
Lemma received_below_next st out r :
  ClientProofs.buffered st out →
  ServerProofs.agrees (Client.segments st) r →
  Server.rcv_base r ≤ Client.next_seq_num st.
Proof.
  intros Hb (H0 & Hlen & _). rewrite (ClientProofs.segments_length st out Hb) in Hlen.
  destruct Hb as (_ & Hn & _). lia.
Qed.

Lemma from_buffer_copy st out m :
  ClientProofs.buffered st out →
  ClientProofs.from_buffer st m →
  Server.copy_of (Client.segments st) m = true.
Proof.
  intros Hb (s & p & -> & Hp).
  assert (0 ≤ s) as Hs.
  { destruct Hb as (_ & _ & Hdom & _).
    assert (is_Some (Client.sent_packets_buffer st !! s)) as Hin by eauto.
    apply Hdom in Hin. lia. }
  unfold Server.copy_of, data_msg. simpl.
  destruct (Z.leb_spec 0 s); [|lia].
  rewrite (ClientProofs.segments_lookup st out _ Hb), Z2Nat.id, Hp by done.
  apply String.eqb_refl.
Qed.

Lemma sent_acks evs m a :
  m ∈ sent evs → Client.ack_value m = Some a → a ∈ Server.acks evs.
Proof.
  unfold sent, Server.acks. intros Hm Ha.
  apply list_elem_of_omap in Hm as (e & He & Hem).
  apply list_elem_of_omap. exists e. split; [done|].
  destruct e as [m'|]; [|done]. simplify_eq.
  unfold Client.ack_value in Ha. unfold Server.ack_of.
  destruct (truthy m); [|done]. destruct m as [| | | | |o]; try done.
Qed.

Lemma sender_step_invariant cs p w w' :
  (∀ msg now, p ≠ Client.Ack msg now) →
  invariant cs w → sender_step cs p w = Some w' → invariant cs w'.
Proof.
  intros Hp (Hb & Hw & Ht & Hto & Hag & Hbase & Hacks). unfold sender_step.
  destruct (Client.do_phase cs p (sender w)) as [[st out]|] eqn:Hdo; [|done].
  intros [= <-]. unfold invariant; simpl.
  pose proof (ClientProofs.do_phase_buffered cs p _ _ _ _ Hb Hdo) as Hb'.
  destruct p as [now|msg now|now now']; simpl in Hdo.
  - destruct (ClientProofs.fill_loop_grows _ _ _ _ _ _ _ Hb Hdo) as (Hsub & Hbase' & Hout).
    split; [done|]. split; [by eapply ClientProofs.fill_loop_window|].
    split; [by eapply ClientProofs.fill_loop_tiled|]. split.
    { apply Forall_app. split; [|done]. eapply Forall_impl; [exact Hto|].
      intros m (s & q & -> & Hq). exists s, q. split; [done|]. by eapply lookup_weaken. }
    split.
    { destruct (ClientProofs.segments_prefix _ _ _ _ Hb Hb' Hsub) as [more ->].
      by apply ServerProofs.agrees_app. }
    split; [by rewrite Hbase'|done].
  - by destruct (Hp msg now).
  - destruct (ClientProofs.on_timeout_fields cs now now' (sender w))
      as (Hc & Hbuf & Hbs & Hn & _).
    pose proof (ClientProofs.retransmit_from_buffer (sender w)) as Hre.
    unfold Client.on_timeout in *. injection Hdo as Hdo.
    assert (Client.segments st = Client.segments (sender w)) as Hsegs.
    { unfold Client.segments. rewrite Hdo in Hbuf, Hn. simpl in *. by rewrite Hbuf, Hn. }
    rewrite Hdo in Hc, Hbuf, Hbs, Hn. simpl in *.
    split; [done|]. split; [unfold ClientProofs.window_ok in *; by rewrite Hbs, Hn|].
    split; [unfold ClientProofs.tiled in *; by rewrite Hsegs, Hc, Hn|]. split.
    { assert (∀ m, ClientProofs.from_buffer (sender w) m → ClientProofs.from_buffer st m) as Himp.
      { intros m (s & q & -> & Hq). exists s, q. by rewrite Hbuf. }
      apply Forall_app. split; (eapply Forall_impl; [|exact Himp]); [done|].
      destruct (Client.expired cs now (sender w)); simplify_eq; [done|constructor]. }
    split; [by rewrite Hsegs|]. split; [by rewrite Hbs|done].
Qed.

Lemma step_invariant cs cr a w w' :
  invariant cs w → step cs cr a w = Some w' → invariant cs w'.
Proof.
  intros Hinv. destruct a as [now|now|now now'|]; simpl.
  - by apply sender_step_invariant.
  - destruct Hinv as (Hb & Hw & Ht & Hto & Hag & Hbase & Hacks).
    destruct (to_sender w) as [|m rest] eqn:Hq.
    { intros [= <-]. unfold invariant. by rewrite Hq. }
    intros [= <-]. unfold invariant; simpl.
    apply Forall_cons in Hacks as [Hm Hrest].
    pose proof (received_below_next _ _ _ Hb Hag) as Hnext.
    destruct (ClientProofs.on_ack_fields cs m now (sender w)) as (Hc & Hbuf & Hn & _).
    assert (Client.segments (Client.on_ack cs m now (sender w)) = Client.segments (sender w))
      as Hsegs by apply ClientProofs.on_ack_segments.
    split; [by apply ClientProofs.on_ack_buffered|].
    split; [apply ClientProofs.on_ack_window; [done|]; intros a Ha; specialize (Hm a Ha); lia|].
    split; [unfold ClientProofs.tiled in *; by rewrite Hsegs, Hc, Hn|].
    split.
    { eapply Forall_impl; [exact Hto|]. intros m' (s & q & -> & Hq').
      exists s, q. by rewrite Hbuf. }
    split; [by rewrite Hsegs|]. split; [|done].
    destruct (ClientProofs.on_ack_base cs m now (sender w)) as [->|(a & Ha & _ & ->)]; [done|].
    specialize (Hm a Ha). lia.
  - by apply sender_step_invariant.
  - destruct Hinv as (Hb & Hw & Ht & Hto & Hag & Hbase & Hacks).
    destruct (stopped w); [done|].
    destruct (to_receiver w) as [|m rest] eqn:Hq; [done|].
    intros [= <-]. unfold invariant; simpl.
    apply Forall_cons in Hto as [Hm Hrest].
    pose proof (from_buffer_copy _ _ _ Hb Hm) as Hcopy.
    destruct (ServerProofs.handle_segment_acks cr m (receiver w)) as [Hle Hnew].
    do 3 (split; [done|]). split; [done|].
    split; [by apply ServerProofs.handle_segment_agrees|].
    split; [lia|]. apply Forall_app. split.
    + eapply Forall_impl; [exact Hacks|]. intros m' Hm' a Ha. specialize (Hm' a Ha). lia.
    + apply Forall_forall. intros m' Hm' a Ha.
      rewrite Forall_forall in Hnew. rewrite (Hnew a (sent_acks _ _ _ Hm' Ha)). lia.
Qed.

Lemma run_invariant cs cr acts w w' :
  invariant cs w → run cs cr acts w = Some w' → invariant cs w'.
Proof.
  revert w. induction acts as [|a acts IH]; intros w Hinv; simpl.
  { by intros [= <-]. }
  destruct (step cs cr a w) as [w1|] eqn:Hstep; [|done].
  apply IH. by eapply step_invariant.
Qed.

(** The window bound of the sender against this receiver: over any run of
    the two peers on one connection, for a window size that is not negative,
    every acknowledgment in flight names a seq the receiver has delivered, the
    receiver has delivered no seq the sender has not cut, and so the sender's
    window bound holds after every step. *)
Theorem window_bound_on_a_connection (cs : Client.config) (cr : Server.config)
    (mms0 : json) (acts : list action) (w : world) :
  0 ≤ Client.window_size cs →
  run cs cr acts (start cr mms0) = Some w →
  Client.base (sender w) ≤ Client.next_seq_num (sender w)
    ≤ Client.base (sender w) + Client.window_size cs
  ∧ Client.base (sender w) ≤ Server.rcv_base (receiver w) ≤ Client.next_seq_num (sender w)
  ∧ Forall (λ m, ∀ a, Client.ack_value m = Some a → a < Client.next_seq_num (sender w))
           (to_sender w).
Proof.
  intros HW Hrun.
  destruct (run_invariant cs cr acts _ w (start_invariant cs cr mms0 HW) Hrun)
    as (Hb & Hw & Ht & Hto & Hag & Hbase & Hacks).
  pose proof (received_below_next _ _ _ Hb Hag) as Hnext.
  split; [done|]. split; [lia|].
  eapply Forall_impl; [exact Hacks|]. intros m Hm a Ha. specialize (Hm a Ha). lia.
Qed.

Lemma window_bound_on_a_connection_witness :
  let cs := Client.Config "HELLO WORLD" 2 5 (JBool false) in
  let cr := Server.Config 10 false in
  let acts := [SenderFill 100; ReceiverTurn; ReceiverTurn; SenderPoll 101; SenderPoll 102] in
  ∃ w, run cs cr acts (start cr (JInt 10)) = Some w
  ∧ Client.base (sender w) = 2 ∧ Server.rcv_base (receiver w) = 2
  ∧ Client.base (sender w) ≤ Client.next_seq_num (sender w)
      ≤ Client.base (sender w) + Client.window_size cs
  ∧ Client.base (sender w) ≤ Server.rcv_base (receiver w) ≤ Client.next_seq_num (sender w)
  ∧ Forall (λ m, ∀ a, Client.ack_value m = Some a → a < Client.next_seq_num (sender w))
           (to_sender w).
Proof.
  eexists. split; [vm_compute; reflexivity|]. split; [reflexivity|]. split; [reflexivity|].
  apply (window_bound_on_a_connection (Client.Config "HELLO WORLD" 2 5 (JBool false))
           (Server.Config 10 false) (JInt 10)
           [SenderFill 100; ReceiverTurn; ReceiverTurn; SenderPoll 101; SenderPoll 102]);
    [simpl; lia | vm_compute; reflexivity].
Defined.

(** End to end: over any run of the two peers on one connection, what the
    receiver has delivered is the first [rcv_base] segments the sender cut,
    which is a prefix of the source; and when the sender's transfer loop has
    nothing left to do (all data cut, window drained), the receiver has
    delivered exactly the source. *)
Theorem connection_delivers_source (cs : Client.config) (cr : Server.config)
    (mms0 : json) (acts : list action) (w : world) :
  0 ≤ Client.window_size cs →
  run cs cr acts (start cr mms0) = Some w →
  Server.app_data (receiver w)
  = take (Z.to_nat (Server.rcv_base (receiver w))) (Client.segments (sender w))
  ∧ (∃ rest, String.concat "" (Server.app_data (receiver w)) +:+ rest = Client.file_data cs)
  ∧ (Client.loop_guard cs (sender w) = false →
     String.concat "" (Server.app_data (receiver w)) = Client.file_data cs).
Proof.
  intros HW Hrun.
  destruct (run_invariant cs cr acts _ w (start_invariant cs cr mms0 HW) Hrun)
    as (Hb & Hw & Ht & Hto & Hag & Hbase & Hacks).
  pose proof (received_below_next _ _ _ Hb Hag) as Hnext.
  pose proof (ClientProofs.segments_length _ _ Hb) as Hlen.
  destruct Hag as (H0 & _ & Happ & _). destruct Ht as (Hn & Hc & Hjoin).
  split; [done|]. split.
  - exists (String.concat ""
              (drop (Z.to_nat (Server.rcv_base (receiver w))) (Client.segments (sender w)))
            +:+ substring (Z.to_nat (Client.file_cursor (sender w)))
                  (String.length (Client.file_data cs) - Z.to_nat (Client.file_cursor (sender w)))
                  (Client.file_data cs)).
    rewrite Happ, <- ClientProofs.append_assoc, <- ClientProofs.join_app, take_drop, Hjoin.
    unfold Client.len in Hc.
    rewrite ClientProofs.substring_app by lia.
    replace (Z.to_nat (Client.file_cursor (sender w))
             + (String.length (Client.file_data cs) - Z.to_nat (Client.file_cursor (sender w))))%nat
      with (String.length (Client.file_data cs)) by lia.
    apply ClientProofs.substring_all.
  - intros Hguard. unfold Client.loop_guard in Hguard.
    apply orb_false_iff in Hguard as [Hcur%Z.ltb_ge Hdrained%Z.ltb_ge].
    unfold ClientProofs.window_ok in Hw.
    rewrite Happ, take_ge by lia. rewrite Hjoin.
    replace (Z.to_nat (Client.file_cursor (sender w)))
      with (String.length (Client.file_data cs)) by (unfold Client.len in *; lia).
    apply ClientProofs.substring_all.
Qed.

Lemma connection_delivers_source_witness :
  let cs := Client.Config "HELLO WORLD" 2 5 (JBool false) in
  let cr := Server.Config 10 false in
  let acts := [SenderFill 100; ReceiverTurn; ReceiverTurn; SenderPoll 101; SenderPoll 102] in
  ∃ w, run cs cr acts (start cr (JInt 10)) = Some w
  ∧ Server.app_data (receiver w) = ["HELLO WORL"; "D"]%string
  ∧ Client.loop_guard cs (sender w) = false
  ∧ Server.app_data (receiver w)
    = take (Z.to_nat (Server.rcv_base (receiver w))) (Client.segments (sender w))
  ∧ (∃ rest, String.concat "" (Server.app_data (receiver w)) +:+ rest = Client.file_data cs)
  ∧ (Client.loop_guard cs (sender w) = false →
     String.concat "" (Server.app_data (receiver w)) = Client.file_data cs).
Proof.
  eexists. split; [vm_compute; reflexivity|]. split; [reflexivity|]. split; [reflexivity|].
  apply (connection_delivers_source (Client.Config "HELLO WORLD" 2 5 (JBool false))
           (Server.Config 10 false) (JInt 10)
           [SenderFill 100; ReceiverTurn; ReceiverTurn; SenderPoll 101; SenderPoll 102]);
    [simpl; lia | vm_compute; reflexivity].
Defined.

End SystemProofs.

(** ** Properties of a whole session of the receiver *)

Module ServerSessionProofs.
Import Wire Server ServerSession.

Definition stage_of (c : control) : stage :=
  match c with Continue => InTransfer | Break => Returned | Raise => Raised end.

Lemma session_cons cfg sg msg rest st :
  session cfg sg (msg :: rest) st
  = ((session cfg (turn cfg sg msg st).1.1 rest (turn cfg sg msg st).1.2).1.1,
     (session cfg (turn cfg sg msg st).1.1 rest (turn cfg sg msg st).1.2).1.2,
     (turn cfg sg msg st).2
       ++ (session cfg (turn cfg sg msg st).1.1 rest (turn cfg sg msg st).1.2).2).
Proof. done. Qed.

Lemma turn_syn cfg msg st :
  turn cfg AwaitSyn msg st
  = match type_is_not msg "SIN" with
    | Some true => (Returned, st, [])
    | Some false => (AwaitAck, st, [Send syn_ack])
    | None => (Raised, st, [])
    end.
Proof. done. Qed.

Lemma turn_ack cfg msg st :
  turn cfg AwaitAck msg st
  = match type_is_not msg "ACK" with
    | Some true => (Returned, st, [])
    | Some false => (AwaitRequest, st, [])
    | None => (Raised, st, [])
    end.
Proof. done. Qed.

Lemma turn_request cfg msg st :
  turn cfg AwaitRequest msg st
  = match type_is_not msg "GET_MAX_MSG_SIZE" with
    | Some true => (InTransfer, st, [])
    | Some false => (InTransfer, st, [Send (size_reply cfg st)])
    | None => (Raised, st, [])
    end.
Proof. done. Qed.

Lemma turn_transfer cfg msg st :
  turn cfg InTransfer msg st
  = (stage_of (handle_segment cfg msg st).1.1, (handle_segment cfg msg st).1.2,
     (handle_segment cfg msg st).2).
Proof. simpl. by destruct (handle_segment cfg msg st) as [[[] ?] ?]. Qed.

Lemma session_returned cfg reads st : session cfg Returned reads st = (Returned, st, []).
Proof. induction reads as [|m reads IH]; [done|]. rewrite session_cons. simpl. by rewrite IH. Qed.

Lemma session_raised cfg reads st : session cfg Raised reads st = (Raised, st, []).
Proof. induction reads as [|m reads IH]; [done|]. rewrite session_cons. simpl. by rewrite IH. Qed.

(** In the transfer loop a session is the loop of [Server.transfer]. *)
Lemma session_transfer cfg reads st :
  session cfg InTransfer reads st
  = (stage_of (transfer cfg reads st).1.1, (transfer cfg reads st).1.2,
     (transfer cfg reads st).2).
Proof.
  revert st. induction reads as [|m reads IH]; intros st; [done|].
  rewrite ServerProofs.transfer_cons, session_cons, turn_transfer.
  destruct (handle_segment cfg m st) as [[[] st'] out]; simpl.
  - by rewrite IH.
  - by rewrite session_returned, app_nil_r.
  - by rewrite session_raised, app_nil_r.
Qed.

(** The first two reads are a SIN record and an ACK record. *)
Definition handshake (reads : list json) : bool :=
  match reads with
  | JObj o1 :: JObj o2 :: _ =>
      is_str (dict_get o1 "type" JNull) "SIN" && is_str (dict_get o2 "type" JNull) "ACK"
  | _ => false
  end.

Lemma type_is_not_false msg lit :
  type_is_not msg lit = Some false →
  ∃ o, msg = JObj o ∧ is_str (dict_get o "type" JNull) lit = true.
Proof.
  unfold type_is_not. destruct (truthy msg); simpl; [|done].
  destruct msg as [| | | | |o]; try done.
  intros [= H]. exists o. split; [done|]. by apply negb_false_iff.
Qed.

Lemma handshake_missing (cfg : config) (reads : list json) :
  handshake reads = false →
  (handle_client cfg reads).1.2 = init cfg
  ∧ ((handle_client cfg reads).2 = [] ∨ (handle_client cfg reads).2 = [Send syn_ack])
  ∧ (handle_client cfg reads).1.1 ≠ InTransfer.
Proof.
  unfold handle_client. intros Hh.
  destruct reads as [|m1 reads]; [simpl; auto|].
  rewrite session_cons, turn_syn.
  destruct (type_is_not m1 "SIN") as [[]|] eqn:H1; simpl.
  - rewrite session_returned. simpl. auto.
  - destruct reads as [|m2 reads]; [simpl; auto|].
    rewrite session_cons, turn_ack.
    destruct (type_is_not m2 "ACK") as [[]|] eqn:H2; simpl.
    + rewrite session_returned. simpl. auto.
    + apply type_is_not_false in H1 as (o1 & -> & Ho1).
      apply type_is_not_false in H2 as (o2 & -> & Ho2).
      simpl in Hh. by rewrite Ho1, Ho2 in Hh.
    + rewrite session_raised. simpl. auto.
  - rewrite session_raised. simpl. auto.
Qed.

(** Without the handshake the receiver gives no service: unless the first
    two reads are a SIN record and an ACK record, everything it ever writes is
    at most the one SIN/ACK, and it buffers, delivers and acknowledges
    nothing, whatever the reads that follow. *)
Theorem no_service_without_handshake (cfg : config) (reads : list json) :
  handshake reads = false →
  (handle_client cfg reads).1.2 = init cfg
  ∧ ((handle_client cfg reads).2 = [] ∨ (handle_client cfg reads).2 = [Send syn_ack])
  ∧ (handle_client cfg reads).1.1 ≠ InTransfer.
Proof. apply handshake_missing. Qed.

Lemma no_service_without_handshake_witness :
  let cfg := Config 400 false in
  let reads := [JObj [("type", JStr "HELLO")]%string; data_msg 0 "a"; data_msg 1 "b"] in
  (handle_client cfg reads).1.2 = init cfg
  ∧ ((handle_client cfg reads).2 = [] ∨ (handle_client cfg reads).2 = [Send syn_ack])
  ∧ (handle_client cfg reads).1.1 ≠ InTransfer.
Proof.
  apply (no_service_without_handshake (Config 400 false)
           [JObj [("type", JStr "HELLO")]%string; data_msg 0 "a"; data_msg 1 "b"]).
  reflexivity.
Defined.

Lemma after_handshake (cfg : config)
    (o1 o2 : list (string * json)) (req : json) (rest : list json) (other : bool) :
  is_str (dict_get o1 "type" JNull) "SIN" = true →
  is_str (dict_get o2 "type" JNull) "ACK" = true →
  type_is_not req "GET_MAX_MSG_SIZE" = Some other →
  handle_client cfg (JObj o1 :: JObj o2 :: req :: rest)
  = (stage_of (transfer cfg rest (init cfg)).1.1,
     (transfer cfg rest (init cfg)).1.2,
     Send syn_ack
       :: (if other then []
           else [Send (JObj [("type", JStr "MAX_MSG_SIZE");
                             ("maximum message size", JInt (cfg_mss cfg));
                             ("dynamic message size", JBool (dyn_mss cfg))]%string)])
       ++ (transfer cfg rest (init cfg)).2).
Proof.
  intros H1 H2 H3. unfold handle_client.
  assert (type_is_not (JObj o1) "SIN" = Some false) as E1.
  { unfold type_is_not. destruct o1; [done|]. simpl truthy. simpl. by rewrite H1. }
  assert (type_is_not (JObj o2) "ACK" = Some false) as E2.
  { unfold type_is_not. destruct o2; [done|]. simpl truthy. simpl. by rewrite H2. }
  rewrite session_cons, turn_syn, E1. cbn [fst snd].
  rewrite session_cons, turn_ack, E2. cbn [fst snd].
  rewrite session_cons, turn_request, H3.
  destruct other; cbn [fst snd]; rewrite session_transfer; done.
Qed.

(** After the handshake the third read is used up by the negotiation,
    whatever it is: a GET_MAX_MSG_SIZE record is answered with the configured
    segment size and adaptive flag, any other record or an empty read is
    answered with nothing, and in both cases the transfer loop starts at the
    read after it, in the initial state.  A DATA record in third place is
    neither buffered nor acknowledged. *)
Theorem negotiation_uses_up_third_read (cfg : config)
    (o1 o2 : list (string * json)) (req : json) (rest : list json) (other : bool) :
  is_str (dict_get o1 "type" JNull) "SIN" = true →
  is_str (dict_get o2 "type" JNull) "ACK" = true →
  type_is_not req "GET_MAX_MSG_SIZE" = Some other →
  handle_client cfg (JObj o1 :: JObj o2 :: req :: rest)
  = (stage_of (transfer cfg rest (init cfg)).1.1,
     (transfer cfg rest (init cfg)).1.2,
     Send syn_ack
       :: (if other then []
           else [Send (JObj [("type", JStr "MAX_MSG_SIZE");
                             ("maximum message size", JInt (cfg_mss cfg));
                             ("dynamic message size", JBool (dyn_mss cfg))]%string)])
       ++ (transfer cfg rest (init cfg)).2).
Proof. apply after_handshake. Qed.

Lemma negotiation_uses_up_third_read_witness :
  let cfg := Config 400 true in
  let sin := [("type", JStr "SIN")]%string in
  let ack := [("type", JStr "ACK")]%string in
  handle_client cfg [JObj sin; JObj ack; data_msg 0 "a"; data_msg 1 "b"]
  = (InTransfer, State 0 {[1 := "b"%string]} [] 400,
     [Send syn_ack;
      Send (JObj [("type", JStr "ACK"); ("ack", JInt (-1));
                  ("maximum message size", JInt 400)]%string)])
  ∧ handle_client cfg [JObj sin; JObj ack; data_msg 0 "a"; data_msg 1 "b"]
    = (stage_of (transfer cfg [data_msg 1 "b"] (init cfg)).1.1,
       (transfer cfg [data_msg 1 "b"] (init cfg)).1.2,
       Send syn_ack
         :: (if true then []
             else [Send (JObj [("type", JStr "MAX_MSG_SIZE");
                               ("maximum message size", JInt (cfg_mss cfg));
                               ("dynamic message size", JBool (dyn_mss cfg))]%string)])
         ++ (transfer cfg [data_msg 1 "b"] (init cfg)).2).
Proof.
  split; [vm_compute; reflexivity|].
  apply (negotiation_uses_up_third_read (Config 400 true)
           [("type", JStr "SIN")]%string [("type", JStr "ACK")]%string
           (data_msg 0 "a") [data_msg 1 "b"] true);
    reflexivity.
Defined.

(** *** The final message *)

Definition fin_ack : json := JObj [("type", JStr "FIN_ACK")]%string.

Lemma handle_segment_prints cfg m st :
  existsb is_print (handle_segment cfg m st).2 = false
  ∨ ((handle_segment cfg m st).1.1 = Break
     ∧ (handle_segment cfg m st).1.2 = st
     ∧ (handle_segment cfg m st).2 = [Print (final_message st); Send fin_ack]).
Proof.
  unfold handle_segment, on_data.
  repeat (case_match; simpl; try (by left)); by right.
Qed.

(** The transfer loop prints once at most, at its very end, on FIN. *)
Lemma transfer_prints cfg segs st :
  existsb is_print (transfer cfg segs st).2 = false
  ∨ ((transfer cfg segs st).1.1 = Break
     ∧ ∃ pre, (transfer cfg segs st).2
              = pre ++ [Print (final_message (transfer cfg segs st).1.2); Send fin_ack]
              ∧ existsb is_print pre = false).
Proof.
  revert st. induction segs as [|m segs IH]; intros st; [by left|].
  rewrite ServerProofs.transfer_cons.
  destruct (handle_segment_prints cfg m st) as [Hno|(Hc & Hst & Hout)].
  - destruct (handle_segment cfg m st) as [[c st'] out]; simpl in *.
    destruct c; simpl; [|by left..].
    destruct (IH st') as [Hno'|(Hc' & pre & Hout' & Hpre)].
    + left. by rewrite existsb_app, Hno, Hno'.
    + right. split; [done|]. exists (out ++ pre). rewrite Hout', app_assoc.
      split; [done|]. by rewrite existsb_app, Hno, Hpre.
  - destruct (handle_segment cfg m st) as [[c st'] out]; simpl in *. subst.
    right. split; [done|]. by exists [].
Qed.

Lemma elem_of_no_print s l : Print s ∈ l → existsb is_print l = false → False.
Proof.
  intros Hin Hno. apply list_elem_of_In in Hin.
  assert (existsb is_print l = true) as Hyes by (apply existsb_exists; by exists (Print s)).
  congruence.
Qed.

(** What the receiver prints is the source, in whole segments.  In a session
    whose DATA records are copies of segments of the source, [handle_client]
    prints at most once, as its last act but the FIN_ACK it then writes, and
    the text between the banner lines is the first [rcv_base] segments of the
    source joined in order. *)
Theorem final_message_is_source_prefix (segments : list string) (cfg : config)
    (reads : list json) (s : string) :
  Forall (λ m, copy_of segments m = true) reads →
  Print s ∈ (handle_client cfg reads).2 →
  (handle_client cfg reads).1.1 = Returned
  ∧ (∃ pre, (handle_client cfg reads).2 = pre ++ [Print s; Send fin_ack]
            ∧ existsb is_print pre = false)
  ∧ s = newline +:+ "--- FINAL MESSAGE ---" +:+ newline
        +:+ String.concat "" (take (Z.to_nat (rcv_base (handle_client cfg reads).1.2)) segments)
        +:+ newline +:+ "--------------------" +:+ newline.
Proof.
  intros Hcopy Hin.
  destruct (handshake reads) eqn:Hh.
  2:{ destruct (handshake_missing cfg reads Hh) as (_ & [Hout|Hout] & _);
        rewrite Hout in Hin; [by apply elem_of_nil in Hin|].
      apply list_elem_of_singleton in Hin. done. }
  destruct reads as [|[| | | | |o1] [|[| | | | |o2] reads]]; try done.
  simpl in Hh. apply andb_true_iff in Hh as [H1 H2].
  destruct reads as [|req rest].
  { exfalso. revert Hin. unfold handle_client.
    rewrite session_cons, turn_syn.
    assert (type_is_not (JObj o1) "SIN" = Some false) as ->.
    { unfold type_is_not. destruct o1; [done|]. simpl truthy. simpl. by rewrite H1. }
    cbn [fst snd]. rewrite session_cons, turn_ack.
    assert (type_is_not (JObj o2) "ACK" = Some false) as ->.
    { unfold type_is_not. destruct o2; [done|]. simpl truthy. simpl. by rewrite H2. }
    simpl. intros Hin%list_elem_of_singleton. done. }
  destruct (type_is_not req "GET_MAX_MSG_SIZE") as [other|] eqn:H3.
  2:{ exfalso. revert Hin. unfold handle_client.
      rewrite session_cons, turn_syn.
      assert (type_is_not (JObj o1) "SIN" = Some false) as ->.
      { unfold type_is_not. destruct o1; [done|]. simpl truthy. simpl. by rewrite H1. }
      cbn [fst snd]. rewrite session_cons, turn_ack.
      assert (type_is_not (JObj o2) "ACK" = Some false) as ->.
      { unfold type_is_not. destruct o2; [done|]. simpl truthy. simpl. by rewrite H2. }
      cbn [fst snd]. rewrite session_cons, turn_request, H3. cbn [fst snd].
      rewrite session_raised. simpl. intros Hin%list_elem_of_singleton. done. }
  rewrite (after_handshake cfg o1 o2 req rest other H1 H2 H3) in *. simpl in *.
  do 3 (apply Forall_cons in Hcopy as [_ Hcopy]).
  destruct (ServerProofs.transfer_invariants segments cfg rest (init cfg) Hcopy
              (ServerProofs.init_agrees segments cfg) (lookup_empty _))
    as ((_ & _ & Happ & _) & _ & _).
  set (head := if other then [] else _) in *.
  assert (existsb is_print (Send syn_ack :: head) = false) as Hhead
    by (subst head; by destruct other).
  destruct (transfer_prints cfg rest (init cfg)) as [Hno|(Hc & pre & Hout & Hpre)].
  { exfalso. eapply (elem_of_no_print s); [exact Hin|].
    change (Send syn_ack :: head ++ (transfer cfg rest (init cfg)).2)
      with ((Send syn_ack :: head) ++ (transfer cfg rest (init cfg)).2).
    by rewrite existsb_app, Hhead, Hno. }
  rewrite Hout in Hin |- *. rewrite Hc. simpl.
  assert (s = final_message (transfer cfg rest (init cfg)).1.2) as ->.
  { change (Send syn_ack :: head ++ pre ++ [Print (final_message (transfer cfg rest (init cfg)).1.2); Send fin_ack])
      with ((Send syn_ack :: head) ++ pre ++ [Print (final_message (transfer cfg rest (init cfg)).1.2); Send fin_ack]) in Hin.
    apply elem_of_app in Hin as [Hin|Hin]; [by destruct (elem_of_no_print _ _ Hin Hhead)|].
    apply elem_of_app in Hin as [Hin|Hin]; [by destruct (elem_of_no_print _ _ Hin Hpre)|].
    apply elem_of_cons in Hin as [Hin|Hin]; [by injection Hin|].
    apply list_elem_of_singleton in Hin. done. }
  split; [done|]. split.
  - exists (Send syn_ack :: head ++ pre). split.
    + by rewrite <- app_comm_cons, <- app_assoc.
    + change (Send syn_ack :: head ++ pre) with ((Send syn_ack :: head) ++ pre).
      by rewrite existsb_app, Hhead, Hpre.
  - unfold final_message. by rewrite Happ at 1.
Qed.

Lemma final_message_is_source_prefix_witness :
  let segments := ["HELLO WORL"; "D"]%string in
  let cfg := Config 400 false in
  let reads := [JObj [("type", JStr "SIN")]%string; JObj [("type", JStr "ACK")]%string;
                JObj [("type", JStr "GET_MAX_MSG_SIZE")]%string;
                data_msg 1 "D"; data_msg 0 "HELLO WORL"; JObj [("type", JStr "FIN")]%string] in
  let s := (newline +:+ "--- FINAL MESSAGE ---" +:+ newline +:+ "HELLO WORLD"
            +:+ newline +:+ "--------------------" +:+ newline)%string in
  (handle_client cfg reads).1.1 = Returned
  ∧ (∃ pre, (handle_client cfg reads).2 = pre ++ [Print s; Send fin_ack]
            ∧ existsb is_print pre = false)
  ∧ s = newline +:+ "--- FINAL MESSAGE ---" +:+ newline
        +:+ String.concat "" (take (Z.to_nat (rcv_base (handle_client cfg reads).1.2)) segments)
        +:+ newline +:+ "--------------------" +:+ newline.
Proof.
  apply (final_message_is_source_prefix ["HELLO WORL"; "D"]%string (Config 400 false)
           [JObj [("type", JStr "SIN")]%string; JObj [("type", JStr "ACK")]%string;
            JObj [("type", JStr "GET_MAX_MSG_SIZE")]%string;
            data_msg 1 "D"; data_msg 0 "HELLO WORL"; JObj [("type", JStr "FIN")]%string]);
    [repeat constructor | vm_compute; set_solver].
Defined.

End ServerSessionProofs.

(** ** Properties of a whole session of the sender *)

Module ClientSessionProofs.
Import Wire Client ClientSession.

Definition data_record (m : json) : Prop := ∃ s p, m = data_msg s p.

Lemma phase_writes_data cfg p st out st' o :
  ClientProofs.buffered st out →
  do_phase cfg p st = Some (st', o) →
  Forall data_record o.
Proof.
  intros Hb. destruct p as [now|msg now|now now']; simpl.
  - intros Hfill.
    destruct (ClientProofs.fill_loop_grows _ _ _ _ _ _ _ Hb Hfill) as (_ & _ & Hout).
    eapply Forall_impl; [exact Hout|]. intros m (s & q & -> & _). by exists s, q.
  - intros [= <- <-]. constructor.
  - unfold on_timeout. destruct (expired cfg now st); intros [= <- <-]; [|constructor].
    eapply Forall_impl; [apply ClientProofs.retransmit_from_buffer|].
    intros m (s & q & -> & _). by exists s, q.
Qed.

Lemma exec_writes_data cfg ps st out st' o :
  ClientProofs.buffered st out →
  exec cfg ps st = Some (st', o) →
  Forall data_record o.
Proof.
  revert st out o. induction ps as [|p ps IH]; intros st out o Hb; simpl.
  { intros [= <- <-]. constructor. }
  destruct (do_phase cfg p st) as [[st1 o1]|] eqn:Hp; [|done].
  destruct (exec cfg ps st1) as [[st2 o2]|] eqn:He; [|done].
  intros [= <- <-]. apply Forall_app. split.
  - by eapply phase_writes_data.
  - eapply IH; [|exact He]. by eapply ClientProofs.do_phase_buffered.
Qed.

(** What a finished transfer loop has written. *)
Lemma transfer_writes cfg rounds mms0 st out :
  transfer cfg rounds (init mms0) = Some (st, out) →
  Forall data_record out
  ∧ (loop_guard cfg st = false →
     String.concat "" (omap (original out) (seqZ 0 (next_seq_num st))) = file_data cfg).
Proof.
  intros Hrun. destruct (ClientProofs.transfer_is_exec cfg rounds (init mms0)) as [n Hn].
  rewrite Hrun in Hn. symmetry in Hn.
  pose proof (ClientProofs.reachable_buffered _ _ _ _ _ Hn) as Hb.
  split.
  { eapply exec_writes_data; [apply ClientProofs.init_buffered|exact Hn]. }
  intros Hguard.
  assert (ClientProofs.tiled cfg st) as (_ & Hc & Hjoin).
  { eapply ClientProofs.exec_tiled; [|exact Hn].
    unfold ClientProofs.tiled, len; simpl.
    rewrite ClientProofs.substring_none. split; [lia|]. split; [lia|done]. }
  assert (omap (original out) (seqZ 0 (next_seq_num st)) = segments st) as ->.
  { unfold segments. apply list_omap_ext, Forall_Forall2_diag, Forall_forall.
    intros s _. destruct Hb as (_ & _ & _ & Horig). apply Horig. }
  rewrite Hjoin.
  unfold loop_guard in Hguard. apply orb_false_iff in Hguard as [Hcur%Z.ltb_ge _].
  replace (Z.to_nat (file_cursor st)) with (String.length (file_data cfg))
    by (unfold len in *; lia).
  apply ClientProofs.substring_all.
Qed.

(** FIN follows the whole source and nothing follows FIN.  Whatever the
    peer answers, what [run_client] has written when it ends is: the SIN alone
    after a failed handshake; SIN, ACK and the size request after an empty
    negotiation reply; these three and DATA records only while the transfer
    loop is on; and, once FIN is written, these three, DATA records whose
    first transmissions joined in the order of their seqs are the whole source,
    and the FIN last. *)
Theorem fin_follows_the_whole_source (source : string) (window timeout_s : Z)
    (response neg_response : read) (rounds : list round) (final_ack : read)
    (o : outcome) (writes : list json) :
  run_client source window timeout_s response neg_response rounds final_ack
  = Ended o writes →
  match o with
  | HandshakeFailed => writes = [sin]
  | NoReply => writes = [sin; ack; get_max_msg_size]
  | Running =>
      ∃ data, writes = [sin; ack; get_max_msg_size] ++ data ∧ Forall data_record data
  | Unconfirmed | Complete =>
      ∃ data n, writes = [sin; ack; get_max_msg_size] ++ data ++ [fin]
                ∧ Forall data_record data
                ∧ String.concat "" (omap (original data) (seqZ 0 n)) = source
  end.
Proof.
  unfold run_client. intros Hrun.
  destruct response as [response|]; [|done].
  destruct (not_of_type response "SIN/ACK") as [[]|]; [by simplify_eq| |done].
  destruct neg_response as [neg|]; [|done].
  destruct (negb (truthy neg)); [by simplify_eq|].
  destruct neg as [| | | | |r]; try done.
  set (cfg := Config _ _ _ _) in *.
  destruct (transfer cfg rounds (init (dict_get r "maximum message size" (JInt 400))))
    as [[st out]|] eqn:Htr; [|done].
  destruct (transfer_writes _ _ _ _ _ Htr) as [Hdata Hjoin].
  destruct (loop_guard cfg st) eqn:Hguard.
  { simplify_eq. by exists out. }
  destruct final_ack as [answer|]; [|done].
  destruct (not_of_type answer "FIN_ACK") as [[]|]; [| |done];
    simplify_eq; exists out, (next_seq_num st); auto.
Qed.

Lemma fin_follows_the_whole_source_witness :
  let writes := [sin; ack; get_max_msg_size; data_msg 0 "HELLO WORL"; data_msg 1 "D"; fin] in
  ∃ data n, writes = [sin; ack; get_max_msg_size] ++ data ++ [fin]
            ∧ Forall data_record data
            ∧ String.concat "" (omap (original data) (seqZ 0 n)) = "HELLO WORLD"%string.
Proof.
  apply (fin_follows_the_whole_source "HELLO WORLD" 2 5
           (Got (JObj [("type", JStr "SIN/ACK")]%string))
           (Got (JObj [("type", JStr "MAX_MSG_SIZE"); ("maximum message size", JInt 10);
                       ("dynamic message size", JBool false)]%string))
           [Round 100 (JObj [("type", JStr "ACK"); ("ack", JInt 1)]%string) 101 102 102]
           (Got (JObj [("type", JStr "FIN_ACK")]%string))
           Complete).
  vm_compute. reflexivity.
Defined.

End ClientSessionProofs.

(** ** Properties of the receiver's configuration *)

Module ServerConfigProofs.
Import Wire ServerConfig.

(** The key and the value a line gives, as [apply_line] reads them. *)
Definition given (line : string) : option (string * string) :=
  if Py.contains ":" line then
    Some (canonical (Py.strip (Py.split_first ":" line).1),
          Py.remove_char quote (Py.strip (Py.split_first ":" line).2))
  else None.

(** The segment size a line gives, if it gives a valid one. *)
Definition size_given (line : string) : option Z :=
  match given line with
  | Some (key, val) => if String.eqb key "maximum message size" then Py.int val else None
  | None => None
  end.

(** The adaptive flag a line gives, if it gives one. *)
Definition flag_given (line : string) : option bool :=
  match given line with
  | Some (key, val) =>
      if String.eqb key "dynamic message size"
      then Some (String.eqb (Py.lower val) "true") else None
  | None => None
  end.

Lemma apply_line_size line c :
  maximum_message_size (apply_line line c)
  = default (maximum_message_size c) (size_given line).
Proof.
  unfold apply_line, size_given, given.
  destruct (Py.contains ":" line); [|done].
  destruct (Py.split_first ":" line) as [k v]. simpl.
  set (key := canonical (Py.strip k)). set (val := Py.remove_char quote (Py.strip v)).
  unfold Py.among, set_number. simpl existsb.
  destruct (String.eqb_spec key "maximum message size") as [->|H1]; simpl.
  { by destruct (Py.int val). }
  destruct (String.eqb_spec key "window_size") as [->|H2]; simpl.
  { by destruct (Py.int val). }
  destruct (String.eqb_spec key "timeout") as [->|H3]; simpl.
  { by destruct (Py.int val). }
  destruct (String.eqb_spec key "dynamic message size"); [done|].
  by destruct (String.eqb_spec key "message").
Qed.

Lemma apply_line_flag line c :
  dynamic_message_size (apply_line line c)
  = default (dynamic_message_size c) (flag_given line).
Proof.
  unfold apply_line, flag_given, given.
  destruct (Py.contains ":" line); [|done].
  destruct (Py.split_first ":" line) as [k v]. simpl.
  set (key := canonical (Py.strip k)). set (val := Py.remove_char quote (Py.strip v)).
  unfold Py.among, set_number. simpl existsb.
  destruct (String.eqb_spec key "maximum message size") as [->|H1]; simpl.
  { by destruct (Py.int val). }
  destruct (String.eqb_spec key "window_size") as [->|H2]; simpl.
  { by destruct (Py.int val). }
  destruct (String.eqb_spec key "timeout") as [->|H3]; simpl.
  { by destruct (Py.int val). }
  destruct (String.eqb_spec key "dynamic message size") as [->|H4]; [done|].
  by destruct (String.eqb_spec key "message").
Qed.

Lemma last_omap_snoc {A B} (f : A → option B) (l : list A) (x : A) :
  last (omap f (l ++ [x])) = match f x with Some y => Some y | None => last (omap f l) end.
Proof.
  rewrite omap_app. simpl. destruct (f x) as [y|]; simpl.
  - apply last_snoc.
  - by rewrite app_nil_r.
Qed.


(** *** How a key is matched *)

Lemma lstrip_with_head drop s :
  Py.lstrip_with drop s = EmptyString
  ∨ ∃ c r, Py.lstrip_with drop s = String c r ∧ drop c = false.
Proof.
  induction s as [|c s IH]; simpl; [by left|].
  destruct (drop c) eqn:Hc; [done|]. right. by exists c, s.
Qed.

Lemma rstrip_with_head drop c r :
  drop c = false → ∃ r', Py.rstrip_with drop (String c r) = String c r'.
Proof.
  intros Hc. simpl. destruct (Py.rstrip_with drop r) as [|d t]; rewrite ?Hc; eauto.
Qed.

Lemma rstrip_with_idem drop s :
  Py.rstrip_with drop (Py.rstrip_with drop s) = Py.rstrip_with drop s.
Proof.
  induction s as [|c s IH]; [done|]. simpl.
  destruct (Py.rstrip_with drop s) as [|d t] eqn:Ht.
  - destruct (drop c) eqn:Hc; [done|]. simpl. by rewrite Hc.
  - change (Py.rstrip_with drop (String c (String d t)))
      with (match Py.rstrip_with drop (String d t) with
            | EmptyString => if drop c then EmptyString else String c EmptyString
            | r' => String c r'
            end).
    by rewrite IH.
Qed.

Lemma strip_idem s : Py.strip (Py.strip s) = Py.strip s.
Proof.
  unfold Py.strip.
  destruct (lstrip_with_head Py.isspace s) as [->|(c & r & -> & Hc)]; [done|].
  destruct (rstrip_with_head Py.isspace c r Hc) as [r' Hr]. rewrite Hr.
  simpl Py.lstrip_with. rewrite Hc, <- Hr. apply rstrip_with_idem.
Qed.

Lemma contains_app c k v : Py.contains c (k +:+ String c v) = true.
Proof.
  induction k as [|x k IH]; simpl.
  - by rewrite Ascii.eqb_refl.
  - change (Ascii.eqb x c || Py.contains c (k +:+ String c v) = true).
    rewrite IH. apply orb_true_r.
Qed.

Lemma split_first_app c k v :
  Py.contains c k = false → Py.split_first c (k +:+ String c v) = (k, v).
Proof.
  induction k as [|x k IH]; simpl.
  - intros _. by rewrite Ascii.eqb_refl.
  - intros [Hx Hk]%orb_false_iff.
    change (Py.split_first c (String x (k +:+ String c v)) = (String x k, v)).
    simpl. by rewrite Hx, IH.
Qed.

(** The form of a key that the matching looks at: outer blanks dropped,
    lower case, blanks turned into underscores. *)
Definition normal (key : string) : string :=
  Py.replace_char " " "_" (Py.lower (Py.strip key)).

(** The field a normal form names. *)
Definition field (n : string) : option string :=
  if Py.among n ["maximum_msg_size"; "maximum_message_size"; "maximum"; "mss"; "max_msg_size"]%string
  then Some "maximum message size"%string
  else if Py.among n ["window_size"; "window"; "window_size_"; "window-size"; "window_size"]%string
  then Some "window_size"%string
  else if Py.among n ["dynamic_message_size"; "dynamic"; "dynamic_msg_size"]%string
  then Some "dynamic message size"%string
  else if Py.among n ["timeout"; "time_out"]%string
  then Some "timeout"%string
  else if Py.among n ["message"; "message_file"; "message_path"]%string
  then Some "message"%string
  else None.

Lemma canonical_field k :
  canonical (Py.strip k) = match field (normal k) with Some f => f | None => Py.strip k end.
Proof.
  unfold canonical, field, normal. rewrite strip_idem.
  repeat (case_match; try done).
Qed.

(** A key that names no field is not, by chance, the name of one. *)
Lemma unknown_key_is_no_field k :
  field (normal k) = None →
  Py.among (Py.strip k) ["maximum message size"; "window_size"; "timeout"]%string = false
  ∧ String.eqb (Py.strip k) "dynamic message size" = false
  ∧ String.eqb (Py.strip k) "message" = false.
Proof.
  unfold normal. intros Hnone.
  assert (∀ name, field (Py.replace_char " " "_" (Py.lower name)) ≠ None →
                  String.eqb (Py.strip k) name = false) as Hne.
  { intros name Hname. apply String.eqb_neq. intros Heq. by rewrite Heq in Hnone. }
  unfold Py.among. simpl existsb.
  rewrite !Hne by (vm_compute; discriminate). done.
Qed.

(** What a line [key:value] does, by the field its key names. *)
Lemma apply_line_by_field k v c :
  Py.contains ":" k = false →
  apply_line (k +:+ ":" +:+ v) c
  = match field (normal k) with
    | Some f =>
        let val := Py.remove_char quote (Py.strip v) in
        if Py.among f ["maximum message size"; "window_size"; "timeout"]%string then
          match Py.int val with Some n => set_number f n c | None => c end
        else if String.eqb f "dynamic message size" then
          Cfg (maximum_message_size c) (window_size c)
              (String.eqb (Py.lower val) "true") (timeout c) (message c)
        else if String.eqb f "message" then
          Cfg (maximum_message_size c) (window_size c) (dynamic_message_size c) (timeout c) val
        else c
    | None => c
    end.
Proof.
  intros Hk. unfold apply_line.
  change (k +:+ ":" +:+ v) with (k +:+ String ":"%char v).
  rewrite contains_app, split_first_app by done.
  rewrite canonical_field.
  destruct (field (normal k)) as [f|] eqn:Hf; [done|].
  destruct (unknown_key_is_no_field k Hf) as (-> & -> & ->). done.
Qed.

(** Keys are matched by their normal form: two lines with the same value
    text whose keys differ only in letter case, in blanks around them, or in
    blanks for underscores, change the configuration in the same way. *)
Theorem keys_match_by_normal_form (k1 k2 v : string) (c : cfg) :
  Py.contains ":" k1 = false →
  Py.contains ":" k2 = false →
  normal k1 = normal k2 →
  apply_line (k1 +:+ ":" +:+ v) c = apply_line (k2 +:+ ":" +:+ v) c.
Proof.
  intros H1 H2 Hn. by rewrite !apply_line_by_field, Hn.
Qed.

Lemma keys_match_by_normal_form_witness :
  apply_line ("  Maximum Message Size " +:+ ":" +:+ " 120") defaults
  = apply_line ("maximum_message_size" +:+ ":" +:+ " 120") defaults.
Proof.
  apply (keys_match_by_normal_form "  Maximum Message Size " "maximum_message_size" " 120"
           defaults); reflexivity.
Defined.

End ServerConfigProofs.

(** * The sender's configuration *)

Module ClientConfigProofs.
Import Wire ClientConfig.

Section float.
Context {T : Type} (float : string → option T) (five : T).

(** The lines at which the reading stops: a window line whose value is no
    integer, a timeout line whose value is no float. *)
Definition raises (line : string) : bool :=
  match apply_line float line (defaults five) with
  | Some _ => false
  | None => true
  end.

Lemma apply_line_raises line c :
  apply_line float line c = None ↔ raises line = true.
Proof.
  unfold raises, apply_line.
  destruct (Py.contains ":" line); [|done].
  destruct (Py.split_first ":" line) as [k v].
  repeat (case_match; try done).
Qed.

Lemma read_lines_app pre post c :
  Forall (λ line, raises line = false) pre →
  read_lines float (pre ++ post) c = read_lines float post (read_lines float pre c).1
  ∧ (read_lines float pre c).2 = false.
Proof.
  intros Hpre. revert c. induction Hpre as [|line pre Hline _ IH]; intros c; [done|].
  simpl. destruct (apply_line float line c) as [c'|] eqn:Hc.
  - apply IH.
  - apply apply_line_raises in Hc. congruence.
Qed.

(** The first line with a bad number ends the reading of the file: the
    lines before it have had their effect, the line itself and all the
    lines after it have none, whatever they say, and the error is printed.
    (The receiver's [load_config] skips such a line and reads on.) *)
Theorem bad_number_ends_reading (pre post : list string) (bad : string)
    (user_msg user_window user_timeout : string) :
  Forall (λ line, raises line = false) pre →
  raises bad = true →
  ∃ c, load_config float five (Text pre) user_msg user_window user_timeout = Returned c false
       ∧ load_config float five (Text (pre ++ bad :: post)) user_msg user_window user_timeout
         = Returned c true.
Proof.
  intros Hpre Hbad. unfold load_config.
  destruct (read_lines_app pre (bad :: post) (defaults five) Hpre) as [-> Hok].
  destruct (read_lines float pre (defaults five)) as [c failed] eqn:Hread.
  simpl in Hok. subst failed. exists c. split; [done|].
  simpl. by rewrite (proj2 (apply_line_raises bad c) Hbad).
Qed.

End float.

Lemma bad_number_ends_reading_witness :
  ∃ c, load_config Py.int 5 (Text ["message: m.txt"; "Window Size : 8"]%string) "" "" ""
       = Returned c false
       ∧ load_config Py.int 5
           (Text (["message: m.txt"; "Window Size : 8"]%string
                  ++ "timeout: soon"%string :: ["window_size: 2"]%string))
           "" "" ""
         = Returned c true.
Proof.
  apply (bad_number_ends_reading Py.int 5 ["message: m.txt"; "Window Size : 8"]%string
           ["window_size: 2"]%string "timeout: soon"%string "" "" "").
  - repeat constructor.
  - reflexivity.
Defined.

End ClientConfigProofs.

(** * The receiver's size limit *)

Module LimitProofs.
Import Wire Server.

(** The bounds of the segment size over a session: the configured size
    when it is fixed, and 20 and the configured size, in their order, when it
    adapts. *)
Definition ceiling (cfg : config) : Z :=
  if dyn_mss cfg then Z.max 20 (cfg_mss cfg) else cfg_mss cfg.

Definition floor (cfg : config) : Z :=
  if dyn_mss cfg then Z.min 20 (cfg_mss cfg) else cfg_mss cfg.

Definition sized (cfg : config) (st : state) : Prop :=
  floor cfg ≤ mss st ≤ ceiling cfg
  ∧ Forall (λ p, encode_len p ≤ ceiling cfg) (app_data st)
  ∧ map_Forall (λ _ p, encode_len p ≤ ceiling cfg) (rcv_buffer st).

(** The segment size a written record announces. *)
Definition announced (e : event) : option Z :=
  match e with
  | Send (JObj o) =>
      match dict_lookup "maximum message size" o with
      | Some v => as_int v
      | None => None
      end
  | _ => None
  end.

Lemma init_sized cfg : sized cfg (init cfg).
Proof.
  unfold sized, floor, ceiling, init; simpl.
  split; [destruct (dyn_mss cfg); lia|]. split; [constructor|apply map_Forall_empty].
Qed.

Lemma drain_loop_sized cfg fuel st : sized cfg st → sized cfg (drain_loop fuel st).
Proof.
  revert st. induction fuel as [|fuel IH]; intros st Hst; simpl; [done|].
  destruct (rcv_buffer st !! rcv_base st) as [p|] eqn:Hl; [|done].
  apply IH. destruct Hst as (Hm & Ha & Hb). unfold sized; simpl.
  split; [done|]. split.
  - apply Forall_app. split; [done|]. constructor; [|constructor]. exact (Hb _ _ Hl).
  - by apply map_Forall_delete.
Qed.

Lemma adapt_sized cfg st : sized cfg st → sized cfg (adapt cfg st).
Proof.
  intros (Hm & Ha & Hb). unfold sized.
  rewrite ServerProofs.adapt_buffer, ServerProofs.adapt_app_data. split; [|done].
  unfold adapt, floor, ceiling in *. destruct (dyn_mss cfg); [|done].
  repeat case_match; simpl; lia.
Qed.

Lemma handle_segment_sized cfg seg st :
  sized cfg st → sized cfg (handle_segment cfg seg st).1.2.
Proof.
  intros Hst. destruct (reassembled seg st) as [s|] eqn:Hr.
  - apply ServerProofs.reassembled_some in Hr as (o & p & -> & Hd & Hs & Hp & Hle & Hlen).
    rewrite (ServerProofs.handle_segment_accepted cfg o st s p) by done. simpl.
    apply adapt_sized. unfold reassemble.
    destruct (Z.leb_spec (rcv_base st) s); [|done].
    apply drain_loop_sized. destruct Hst as (Hm & Ha & Hb). unfold sized; simpl.
    do 2 (split; [done|]). apply map_Forall_insert_2; [lia|done].
  - by rewrite ServerProofs.reassembled_none.
Qed.

(** What one turn writes: nothing, one acknowledgment of the state it ends
    in, or the final message and the FIN_ACK. *)
Lemma handle_segment_writes cfg seg st :
  (handle_segment cfg seg st).2 = []
  ∨ (handle_segment cfg seg st).2 = [send_ack cfg (handle_segment cfg seg st).1.2]
  ∨ (handle_segment cfg seg st).2
    = [Print (final_message st); Send (JObj [("type", JStr "FIN_ACK")]%string)].
Proof.
  unfold handle_segment, on_data.
  repeat (case_match; simpl; auto).
Qed.

Lemma handle_segment_announced cfg seg st :
  sized cfg st →
  Forall (λ z, floor cfg ≤ z ≤ ceiling cfg) (omap announced (handle_segment cfg seg st).2).
Proof.
  intros Hst. pose proof (handle_segment_sized cfg seg st Hst) as (Hm & _).
  destruct (handle_segment_writes cfg seg st) as [->|[->| ->]]; [constructor| |constructor].
  unfold send_ack. destruct (dyn_mss cfg); simpl; [|constructor].
  constructor; [exact Hm|constructor].
Qed.

Lemma transfer_sized cfg segs st :
  sized cfg st →
  sized cfg (transfer cfg segs st).1.2
  ∧ Forall (λ z, floor cfg ≤ z ≤ ceiling cfg) (omap announced (transfer cfg segs st).2).
Proof.
  revert st. induction segs as [|seg rest IH]; intros st Hst; [by split; [|constructor]|].
  rewrite ServerProofs.transfer_cons.
  pose proof (handle_segment_sized cfg seg st Hst) as Hst'.
  pose proof (handle_segment_announced cfg seg st Hst) as Hout.
  destruct (handle_segment cfg seg st) as [[c st'] out]; simpl in *.
  destruct c; simpl; try done.
  destruct (IH st' Hst') as [Hs Ha]. split; [done|].
  rewrite omap_app. by apply Forall_app.
Qed.

Lemma session_sized cfg sg reads st :
  sized cfg st →
  sized cfg (ServerSession.session cfg sg reads st).1.2
  ∧ Forall (λ z, floor cfg ≤ z ≤ ceiling cfg)
           (omap announced (ServerSession.session cfg sg reads st).2).
Proof.
  revert sg st. induction reads as [|m reads IH]; intros sg st Hst;
    [by split; [|constructor]|].
  rewrite ServerSessionProofs.session_cons. cbn [fst snd].
  assert (sized cfg (ServerSession.turn cfg sg m st).1.2
          ∧ Forall (λ z, floor cfg ≤ z ≤ ceiling cfg)
                   (omap announced (ServerSession.turn cfg sg m st).2)) as [Hst' Hout].
  { destruct sg.
    - rewrite ServerSessionProofs.turn_syn. repeat case_match; by split; [|constructor].
    - rewrite ServerSessionProofs.turn_ack. repeat case_match; by split; [|constructor].
    - rewrite ServerSessionProofs.turn_request.
      repeat case_match; (split; [done|]); try constructor; [|constructor].
      by destruct Hst.
    - rewrite ServerSessionProofs.turn_transfer. cbn [fst snd].
      split; [by apply handle_segment_sized|by apply handle_segment_announced].
    - by split; [|constructor].
    - by split; [|constructor]. }
  destruct (IH (ServerSession.turn cfg sg m st).1.1 _ Hst') as [Hs Ha].
  split; [done|]. rewrite omap_app. by apply Forall_app.
Qed.

(** The size limit holds over a whole session, whatever the receiver reads.
    The segment size stays between its two bounds (it is the configured size
    throughout when it is fixed; when it adapts it never leaves the interval
    between 20 and the configured size, whichever of them is the smaller), every
    size the receiver announces, in the negotiation or in an acknowledgment,
    lies between them, and no payload that is delivered or buffered has more
    bytes than the upper bound. *)
Theorem size_limit_holds_throughout (cfg : config) (reads : list json) :
  floor cfg ≤ mss (ServerSession.handle_client cfg reads).1.2 ≤ ceiling cfg
  ∧ Forall (λ z, floor cfg ≤ z ≤ ceiling cfg)
           (omap announced (ServerSession.handle_client cfg reads).2)
  ∧ Forall (λ p, encode_len p ≤ ceiling cfg)
           (app_data (ServerSession.handle_client cfg reads).1.2)
  ∧ map_Forall (λ _ p, encode_len p ≤ ceiling cfg)
               (rcv_buffer (ServerSession.handle_client cfg reads).1.2).
Proof.
  destruct (session_sized cfg ServerSession.AwaitSyn reads (init cfg) (init_sized cfg))
    as [(Hm & Ha & Hb) Hout].
  done.
Qed.

End LimitProofs.

(** * A whole session of the two peers *)

Module WholeSessionProofs.
Import Wire System.

Lemma run_sized cs cr acts w w' :
  LimitProofs.sized cr (receiver w) → run cs cr acts w = Some w' →
  LimitProofs.sized cr (receiver w').
Proof.
  revert w. induction acts as [|a acts IH]; intros w Hst; simpl; [by intros [= <-]|].
  destruct (step cs cr a w) as [w1|] eqn:Hstep; [|done].
  apply IH. revert Hstep. destruct a as [now|now|now now'|]; simpl; unfold sender_step.
  - destruct (Client.do_phase _ _ _) as [[st out]|]; [|done]. by intros [= <-].
  - destruct (to_sender w); by intros [= <-].
  - destruct (Client.do_phase _ _ _) as [[st out]|]; [|done]. by intros [= <-].
  - destruct (stopped w); [done|]. destruct (to_receiver w) as [|m rest]; [done|].
    intros [= <-]. simpl. by apply LimitProofs.handle_segment_sized.
Qed.

(** A segment that has more bytes than the receiver's limit allows is never
    delivered, and the transfer never ends.  Over any run of the two peers on
    one connection: if the sender has cut a segment [k] whose UTF-8 encoding
    is longer than the upper bound of the receiver's segment size, the
    receiver's [rcv_base] and the sender's [base] stay at or below [k], and the
    sender's loop guard stays true, so that no FIN is ever sent.  The sender
    cuts by characters (line 144) and the receiver measures bytes (line 170):
    such a segment is any full segment holding a character outside ASCII. *)
Theorem oversized_segment_blocks_the_transfer (cs : Client.config) (cr : Server.config)
    (mms0 : json) (acts : list action) (w : world) (k : nat) (p : string) :
  0 ≤ Client.window_size cs →
  run cs cr acts (start cr mms0) = Some w →
  Client.segments (sender w) !! k = Some p →
  LimitProofs.ceiling cr < encode_len p →
  Server.rcv_base (receiver w) ≤ Z.of_nat k
  ∧ Client.base (sender w) ≤ Z.of_nat k < Client.next_seq_num (sender w)
  ∧ Client.loop_guard cs (sender w) = true.
Proof.
  intros HW Hrun Hk Hbig.
  destruct (SystemProofs.run_invariant cs cr acts _ w
              (SystemProofs.start_invariant cs cr mms0 HW) Hrun)
    as (Hb & Hw & Ht & Hto & Hag & Hbase & Hacks).
  pose proof (run_sized cs cr acts (start cr mms0) w (LimitProofs.init_sized cr) Hrun)
    as (_ & Hsz & _).
  pose proof (ClientProofs.segments_length _ _ Hb) as Hlen.
  pose proof (lookup_lt_Some _ _ _ Hk) as Hklt.
  destruct Hb as (_ & Hn & _). destruct Hag as (H0 & _ & Happ & _).
  assert (Server.rcv_base (receiver w) ≤ Z.of_nat k) as Hle.
  { destruct (Z.le_gt_cases (Server.rcv_base (receiver w)) (Z.of_nat k)) as [|Hgt]; [done|].
    exfalso. rewrite Forall_forall in Hsz.
    assert (encode_len p ≤ LimitProofs.ceiling cr); [|lia].
    apply Hsz. rewrite Happ. apply list_elem_of_lookup. exists k.
    rewrite lookup_take_lt by lia. done. }
  split; [done|]. split; [lia|].
  unfold Client.loop_guard. apply orb_true_iff. right. apply Z.ltb_lt. lia.
Qed.

Lemma oversized_segment_blocks_the_transfer_witness :
  let e := String (ascii_of_nat 233) EmptyString in
  let cs := Client.Config (e +:+ e +:+ e) 2 5 (JBool false) in
  let cr := Server.Config 2 false in
  let acts := [SenderFill 100; ReceiverTurn; ReceiverTurn; SenderPoll 101; SenderPoll 102;
               SenderTimeout 200 201; ReceiverTurn; ReceiverTurn; SenderPoll 202] in
  ∃ w, run cs cr acts (start cr (JInt 2)) = Some w
  ∧ Client.segments (sender w) !! 0%nat = Some (e +:+ e)
  ∧ encode_len (e +:+ e) = 4
  ∧ Server.rcv_base (receiver w) ≤ Z.of_nat 0
  ∧ Client.base (sender w) ≤ Z.of_nat 0 < Client.next_seq_num (sender w)
  ∧ Client.loop_guard cs (sender w) = true.
Proof.
  eexists. split; [vm_compute; reflexivity|]. split; [vm_compute; reflexivity|].
  split; [reflexivity|].
  apply (oversized_segment_blocks_the_transfer
           (Client.Config (String (ascii_of_nat 233) EmptyString
                           +:+ String (ascii_of_nat 233) EmptyString
                           +:+ String (ascii_of_nat 233) EmptyString) 2 5 (JBool false))
           (Server.Config 2 false) (JInt 2)
           [SenderFill 100; ReceiverTurn; ReceiverTurn; SenderPoll 101; SenderPoll 102;
            SenderTimeout 200 201; ReceiverTurn; ReceiverTurn; SenderPoll 202]
           _ 0%nat (String (ascii_of_nat 233) EmptyString
                    +:+ String (ascii_of_nat 233) EmptyString));
    [simpl; lia | vm_compute; reflexivity | vm_compute; reflexivity | vm_compute; reflexivity].
Defined.

(** *** From SIN to the final message *)

Lemma transfer_app cr a b st :
  (Server.transfer cr a st).1.1 = Server.Continue →
  Server.transfer cr (a ++ b) st
  = ((Server.transfer cr b (Server.transfer cr a st).1.2).1.1,
     (Server.transfer cr b (Server.transfer cr a st).1.2).1.2,
     (Server.transfer cr a st).2 ++ (Server.transfer cr b (Server.transfer cr a st).1.2).2).
Proof.
  revert st. induction a as [|m a IH]; intros st Hc.
  - simpl. by destruct (Server.transfer cr b st) as [[??]?].
  - rewrite <- app_comm_cons, ServerProofs.transfer_cons.
    rewrite ServerProofs.transfer_cons in Hc.
    rewrite (ServerProofs.transfer_cons cr m a st).
    destruct (Server.handle_segment cr m st) as [[[] st'] out]; simpl in *; try done.
    rewrite IH by done. simpl. by rewrite app_assoc.
Qed.

Lemma data_continues cr s p st :
  (Server.handle_segment cr (data_msg s p) st).1.1 = Server.Continue.
Proof.
  unfold Server.handle_segment, data_msg, Server.on_data. simpl.
  repeat case_match; done.
Qed.

Lemma transfer_data_continues cs_st cr l st :
  Forall (ClientProofs.from_buffer cs_st) l →
  (Server.transfer cr l st).1.1 = Server.Continue.
Proof.
  intros Hl. revert st. induction Hl as [|m l (s & p & -> & _) _ IH]; intros st; [done|].
  rewrite ServerProofs.transfer_cons.
  pose proof (data_continues cr s p st) as Hc.
  destruct (Server.handle_segment cr (data_msg s p) st) as [[c st'] out]; simpl in *.
  subst c. simpl. apply IH.
Qed.

Lemma transfer_agrees segments cr l st :
  Forall (λ m, Server.copy_of segments m = true) l →
  ServerProofs.agrees segments st →
  ServerProofs.agrees segments (Server.transfer cr l st).1.2.
Proof.
  intros Hl. revert st. induction Hl as [|m l Hm _ IH]; intros st Hst; [done|].
  rewrite ServerProofs.transfer_cons.
  pose proof (ServerProofs.handle_segment_agrees segments cr m st Hm Hst) as Hst'.
  destruct (Server.handle_segment cr m st) as [[c st'] out]; simpl in *.
  destruct c; simpl; auto.
Qed.

(** The receiver's state in a run is the state of its transfer loop on the
    records it has read, which are the head of what the sender has written. *)
Definition reading (cr : Server.config) (w : world) : Prop :=
  stopped w = false
  ∧ ∃ rd, written w = rd ++ to_receiver w
          ∧ (Server.transfer cr rd (Server.init cr)).1.1 = Server.Continue
          ∧ (Server.transfer cr rd (Server.init cr)).1.2 = receiver w.

Lemma step_reading cs cr a w w' :
  Forall (ClientProofs.from_buffer (sender w)) (to_receiver w) →
  reading cr w → step cs cr a w = Some w' → reading cr w'.
Proof.
  intros Hto (Hgo & rd & Hw & Hc & Hst).
  destruct a as [now|now|now now'|]; simpl; unfold sender_step.
  - destruct (Client.do_phase _ _ _) as [[st out]|]; [|done]. intros [= <-].
    split; [done|]. exists rd. simpl. by rewrite Hw, app_assoc.
  - destruct (to_sender w); intros [= <-]; (split; [done|]); by exists rd.
  - destruct (Client.do_phase _ _ _) as [[st out]|]; [|done]. intros [= <-].
    split; [done|]. exists rd. simpl. by rewrite Hw, app_assoc.
  - rewrite Hgo. destruct (to_receiver w) as [|m rest] eqn:Hq; [done|].
    intros [= <-]. simpl.
    apply Forall_cons in Hto as [(s & p & -> & _) _].
    pose proof (data_continues cr s p (receiver w)) as Hcont.
    split; [by rewrite Hcont|]. exists (rd ++ [data_msg s p]).
    split; [by rewrite Hw, <- app_assoc|].
    rewrite transfer_app by done. rewrite Hst, ServerProofs.transfer_cons.
    destruct (Server.handle_segment cr (data_msg s p) (receiver w)) as [[c st'] out].
    simpl in *. by subst c.
Qed.

Lemma run_reading cs cr acts w w' :
  SystemProofs.invariant cs w → reading cr w → run cs cr acts w = Some w' → reading cr w'.
Proof.
  revert w. induction acts as [|a acts IH]; intros w Hinv Hrd; simpl; [by intros [= <-]|].
  destruct (step cs cr a w) as [w1|] eqn:Hstep; [|done].
  apply IH.
  - by eapply SystemProofs.step_invariant.
  - eapply step_reading; [|done..]. by destruct Hinv as (_ & _ & _ & Hto & _).
Qed.

(** What [run_client] takes from the receiver's replies: the size and the
    flag of the negotiation are those of the receiver's configuration. *)
Lemma negotiated_parameters (source : string) (window timeout_s : Z) (cr : Server.config)
    (rounds : list Client.round) (final_ack : ClientSession.read) :
  ClientSession.run_client source window timeout_s
    (ClientSession.Got ServerSession.syn_ack)
    (ClientSession.Got (ServerSession.size_reply cr (Server.init cr))) rounds final_ack
  = match Client.transfer (Client.Config source window timeout_s (JBool (Server.dyn_mss cr)))
            rounds (Client.init (JInt (Server.cfg_mss cr))) with
    | None => ClientSession.Crashed
    | Some (st, out) =>
        if Client.loop_guard
             (Client.Config source window timeout_s (JBool (Server.dyn_mss cr))) st
        then ClientSession.Ended ClientSession.Running
               ([ClientSession.sin; ClientSession.ack; ClientSession.get_max_msg_size] ++ out)
        else
          match final_ack with
          | ClientSession.TimedOut => ClientSession.Crashed
          | ClientSession.Got answer =>
              match ClientSession.not_of_type answer "FIN_ACK" with
              | None => ClientSession.Crashed
              | Some true =>
                  ClientSession.Ended ClientSession.Unconfirmed
                    ([ClientSession.sin; ClientSession.ack; ClientSession.get_max_msg_size]
                     ++ out ++ [ClientSession.fin])
              | Some false =>
                  ClientSession.Ended ClientSession.Complete
                    ([ClientSession.sin; ClientSession.ack; ClientSession.get_max_msg_size]
                     ++ out ++ [ClientSession.fin])
              end
          end
    end.
Proof. done. Qed.

(** A whole session delivers the file.  The sender runs with the size and
    the flag the receiver gave it in the negotiation; the two peers run the
    transfer over one connection in any interleaving, until the sender's loop
    has nothing left to do.  Then the receiver, on reading what the sender
    wrote from its SIN to its FIN, returns after writing the SIN/ACK, the size
    reply, acknowledgments, and last the final message and the FIN_ACK; it
    prints once, and the text between the banner lines is the source. *)
Theorem session_prints_the_source (source : string) (window timeout_s : Z)
    (cr : Server.config) (acts : list action) (w : world) :
  0 ≤ window →
  run (Client.Config source window timeout_s (JBool (Server.dyn_mss cr))) cr acts
      (start cr (JInt (Server.cfg_mss cr))) = Some w →
  Client.loop_guard (Client.Config source window timeout_s (JBool (Server.dyn_mss cr)))
                    (sender w) = false →
  ∃ st replies,
    ServerSession.handle_client cr
      ([ClientSession.sin; ClientSession.ack; ClientSession.get_max_msg_size]
       ++ written w ++ [ClientSession.fin])
    = (ServerSession.Returned, st,
       [Server.Send ServerSession.syn_ack;
        Server.Send (ServerSession.size_reply cr (Server.init cr))]
       ++ replies
       ++ [Server.Print (Server.newline +:+ "--- FINAL MESSAGE ---" +:+ Server.newline
                         +:+ source
                         +:+ Server.newline +:+ "--------------------" +:+ Server.newline);
           Server.Send ServerSessionProofs.fin_ack])
    ∧ existsb ServerSession.is_print replies = false
    ∧ String.concat "" (Server.app_data st) = source.
Proof.
  intros HW Hrun Hguard.
  set (cs := Client.Config source window timeout_s (JBool (Server.dyn_mss cr))) in *.
  pose proof (SystemProofs.start_invariant cs cr (JInt (Server.cfg_mss cr)) HW) as Hstart.
  assert (reading cr (start cr (JInt (Server.cfg_mss cr)))) as Hrd0.
  { split; [done|]. by exists []. }
  destruct (run_reading cs cr acts _ w Hstart Hrd0 Hrun) as (_ & rd & Hwr & Hc & Hst).
  destruct (SystemProofs.run_invariant cs cr acts _ w Hstart Hrun)
    as (Hb & Hw & Ht & Hto & Hag & Hbase & Hacks).
  pose proof (ClientProofs.segments_length _ _ Hb) as Hlen.
  (* the records still in flight *)
  set (st2 := (Server.transfer cr (to_receiver w) (receiver w)).1.2).
  pose proof (transfer_data_continues _ cr _ (receiver w) Hto) as Hc2.
  assert (ServerProofs.agrees (Client.segments (sender w)) st2) as Hag2.
  { apply transfer_agrees; [|done]. eapply Forall_impl; [exact Hto|].
    intros m Hm. by eapply SystemProofs.from_buffer_copy. }
  destruct (ServerProofs.transfer_acks cr (to_receiver w) (receiver w)) as (Hmono & _).
  fold st2 in Hmono.
  (* everything is delivered *)
  assert (String.concat "" (Server.app_data st2) = source) as Hsrc.
  { unfold Client.loop_guard in Hguard.
    apply orb_false_iff in Hguard as [Hcur%Z.ltb_ge Hdrained%Z.ltb_ge].
    destruct Hag2 as (H0 & _ & Happ & _). destruct Ht as (Hn & Hcu & Hjoin).
    rewrite Happ, take_ge by lia. rewrite Hjoin.
    replace (Z.to_nat (Client.file_cursor (sender w)))
      with (String.length (Client.file_data cs)) by (unfold Client.len in *; simpl in *; lia).
    apply ClientProofs.substring_all. }
  (* the session of the receiver *)
  rewrite Hwr.
  change ([ClientSession.sin; ClientSession.ack; ClientSession.get_max_msg_size]
          ++ (rd ++ to_receiver w) ++ [ClientSession.fin])
    with (JObj [("type", JStr "SIN")]%string :: JObj [("type", JStr "ACK")]%string
          :: ClientSession.get_max_msg_size
          :: (rd ++ to_receiver w) ++ [ClientSession.fin]).
  rewrite (ServerSessionProofs.after_handshake cr _ _ _ _ false) by done.
  rewrite <- (app_assoc rd), transfer_app by done.
  rewrite Hst. cbn [fst snd]. rewrite transfer_app by done. fold st2. cbn [fst snd].
  exists st2, ((Server.transfer cr rd (Server.init cr)).2
               ++ (Server.transfer cr (to_receiver w) (receiver w)).2).
  split; [|split; [|done]].
  - simpl. unfold Server.final_message. rewrite Hsrc. by rewrite <- app_assoc.
  - rewrite existsb_app.
    destruct (ServerSessionProofs.transfer_prints cr rd (Server.init cr)) as [->|[Hbr _]];
      [|congruence].
    destruct (ServerSessionProofs.transfer_prints cr (to_receiver w) (receiver w))
      as [->|[Hbr _]]; [done|congruence].
Qed.

Lemma session_prints_the_source_witness :
  let acts := [SenderFill 100; ReceiverTurn; ReceiverTurn; SenderPoll 101; SenderPoll 102] in
  let cr := Server.Config 10 false in
  ∃ w, run (Client.Config "HELLO WORLD" 2 5 (JBool (Server.dyn_mss cr))) cr acts
           (start cr (JInt (Server.cfg_mss cr))) = Some w
  ∧ ∃ st replies,
    ServerSession.handle_client cr
      ([ClientSession.sin; ClientSession.ack; ClientSession.get_max_msg_size]
       ++ written w ++ [ClientSession.fin])
    = (ServerSession.Returned, st,
       [Server.Send ServerSession.syn_ack;
        Server.Send (ServerSession.size_reply cr (Server.init cr))]
       ++ replies
       ++ [Server.Print (Server.newline +:+ "--- FINAL MESSAGE ---" +:+ Server.newline
                         +:+ "HELLO WORLD"
                         +:+ Server.newline +:+ "--------------------" +:+ Server.newline);
           Server.Send ServerSessionProofs.fin_ack])
    ∧ existsb ServerSession.is_print replies = false
    ∧ String.concat "" (Server.app_data st) = "HELLO WORLD"%string.
Proof.
  eexists. split; [vm_compute; reflexivity|].
  apply (session_prints_the_source "HELLO WORLD" 2 5 (Server.Config 10 false)
           [SenderFill 100; ReceiverTurn; ReceiverTurn; SenderPoll 101; SenderPoll 102]);
    [lia | vm_compute; reflexivity | vm_compute; reflexivity].
Defined.

End WholeSessionProofs.

(** * The sender's retransmission timer *)

Module TimerProofs.
Import Wire Client.

(** The timer is set exactly while a segment is unacknowledged. *)
Definition timed (st : state) : Prop :=
  match timer_start st with
  | Some _ => base st < next_seq_num st
  | None => next_seq_num st ≤ base st
  end.

Lemma fill_loop_timed fuel cfg now st st' out :
  timed st → fill_loop fuel cfg now st = Some (st', out) → timed st'.
Proof.
  revert st out. induction fuel as [|fuel IH]; intros st out Hst; simpl.
  { by intros [= <- _]. }
  destruct ((next_seq_num st <? base st + window_size cfg)
            && (file_cursor st <? len (file_data cfg))); [|by intros [= <- _]].
  destruct (as_int (mms st)) as [m|]; [|done].
  destruct (fill_loop fuel cfg now _) as [[st'' out']|] eqn:Hrec; [|done].
  intros [= <- _]. eapply IH; [|exact Hrec].
  unfold timed in *; simpl.
  destruct (Z.eqb_spec (base st) (next_seq_num st)); [lia|].
  destruct (timer_start st); lia.
Qed.

Lemma on_ack_timed cfg msg now st : timed st → timed (on_ack cfg msg now st).
Proof.
  intros Hst. unfold on_ack.
  destruct (truthy msg); [|done]. destruct msg as [| | | | |o]; try done.
  destruct (is_str (dict_get o "type" JNull) "ACK"); [|done].
  destruct (as_int (dict_get o "ack" JNull)) as [ack_num|]; [|done].
  destruct (base st <=? ack_num); [|done].
  unfold timed; simpl. destruct (Z.ltb_spec (ack_num + 1) (next_seq_num st)); lia.
Qed.

Lemma on_timeout_timed cfg now now' st : timed st → timed (on_timeout cfg now now' st).1.
Proof.
  intros Hst. unfold on_timeout, expired, timed in *.
  destruct (timer_start st) as [t|] eqn:Ht; simpl; [|by rewrite Ht].
  destruct (negb (t =? 0) && (timeout cfg <? now - t)); simpl; [done|by rewrite Ht].
Qed.

Lemma exec_timed cfg ps st st' out :
  timed st → exec cfg ps st = Some (st', out) → timed st'.
Proof.
  revert st out. induction ps as [|p ps IH]; intros st out Hst; simpl.
  { by intros [= <- _]. }
  destruct (do_phase cfg p st) as [[st1 o1]|] eqn:Hp; [|done].
  destruct (exec cfg ps st1) as [[st2 o2]|] eqn:He; [|done].
  intros [= <- _]. eapply IH; [|exact He].
  destruct p as [now|msg now|now now']; simpl in Hp.
  - by eapply fill_loop_timed.
  - injection Hp as <- _. by apply on_ack_timed.
  - pose proof (on_timeout_timed cfg now now' st Hst) as Ht.
    destruct (on_timeout cfg now now' st). by simplify_eq.
Qed.



End TimerProofs.

(** * A run that completes *)

Module CompletionProofs.
Import Wire System.

(** Every character of the string is an ASCII character. *)
Fixpoint ascii_only (s : string) : bool :=
  match s with
  | EmptyString => true
  | String c r => (nat_of_ascii c <? 128)%nat && ascii_only r
  end.

Lemma encode_len_ascii s : ascii_only s = true → encode_len s = Client.len s.
Proof.
  unfold Client.len. induction s as [|c s IH]; [done|].
  simpl ascii_only. intros [Hc Hs]%andb_true_iff.
  simpl encode_len. unfold utf8_width. rewrite Hc, IH by done. simpl String.length. lia.
Qed.

Lemma ascii_only_substring a n s :
  ascii_only s = true → ascii_only (substring a n s) = true.
Proof.
  revert a n. induction s as [|c s IH]; intros [|a] [|n]; simpl; try done.
  - intros [Hc Hs]%andb_true_iff. by rewrite Hc, IH.
  - intros [Hc Hs]%andb_true_iff. by apply IH.
  - intros [Hc Hs]%andb_true_iff. by apply IH.
Qed.

(** A cut inside an ASCII source with a positive size takes at least one
    character, stays inside the source, and fits the size in bytes. *)
Lemma slice_fits source c C :
  ascii_only source = true → 0 ≤ c < Client.len source → 1 ≤ C →
  1 ≤ Client.len (Client.py_slice source c (c + C)) ≤ C
  ∧ c + Client.len (Client.py_slice source c (c + C)) ≤ Client.len source
  ∧ encode_len (Client.py_slice source c (c + C)) ≤ C.
Proof.
  intros Hascii Hc HC.
  assert (Client.py_slice source c (c + C)
          = substring (Z.to_nat c) (Z.to_nat (Z.min (c + C) (Client.len source) - c)) source)
    as ->.
  { unfold Client.py_slice, Client.len in *.
    destruct (Z.ltb_spec c 0); [lia|]. destruct (Z.ltb_spec (c + C) 0); [lia|].
    rewrite (Z.min_l c) by lia.
    destruct (Z.ltb_spec c (Z.min (c + C) (Z.of_nat (String.length source)))); [done|lia]. }
  rewrite encode_len_ascii by by apply ascii_only_substring.
  unfold Client.len in *. rewrite ClientProofs.substring_length by lia. lia.
Qed.

Section lockstep.
Variables (source : string) (W T C : Z) (dyn : bool).
Hypothesis (HW : 1 ≤ W) (HC : 1 ≤ C) (Hascii : ascii_only source = true).

Let cs : Client.config := Client.Config source W T (JBool dyn).
Let cr : Server.config := Server.Config C dyn.

(** DATA records of consecutive seqs, and the acknowledgments they get. *)
Fixpoint run_of (n : Z) (ps : list string) : list json :=
  match ps with
  | [] => []
  | p :: rest => data_msg n p :: run_of (n + 1) rest
  end.

Definition ack_rec (a : Z) : json :=
  JObj ([("type", JStr "ACK"); ("ack", JInt a)]%string
        ++ if dyn then [("maximum message size"%string, JInt C)] else []).

Fixpoint ack_run (n : Z) (k : nat) : list json :=
  match k with
  | O => []
  | S k' => ack_rec n :: ack_run (n + 1) k'
  end.

Lemma run_app acts1 acts2 (w : world) :
  run cs cr (acts1 ++ acts2) w
  = match run cs cr acts1 w with Some w' => run cs cr acts2 w' | None => None end.
Proof.
  revert w. induction acts1 as [|a acts1 IH]; intros w; simpl; [done|].
  destruct (step cs cr a w); [apply IH|done].
Qed.

Lemma run_one a (w : world) : run cs cr [a] w = step cs cr a w.
Proof. simpl. by destruct (step cs cr a w). Qed.

Lemma fill_loop_run fuel now c buf b nx timer :
  0 ≤ c ≤ Client.len source →
  ∃ c' buf' timer' ps,
    Client.fill_loop fuel cs now (Client.State c buf b nx timer (JInt C))
    = Some (Client.State c' buf' b (nx + Z.of_nat (List.length ps)) timer' (JInt C),
            run_of nx ps)
    ∧ c ≤ c' ≤ Client.len source
    ∧ Forall (λ p, encode_len p ≤ C) ps
    ∧ ((0 < fuel)%nat → nx < b + W → c < Client.len source → c < c').
Proof.
  revert c buf nx timer. induction fuel as [|fuel IH]; intros c buf nx timer Hc.
  { exists c, buf, timer, []. simpl. rewrite Z.add_0_r. split; [done|].
    split; [lia|]. split; [constructor|lia]. }
  simpl.
  destruct (Z.ltb_spec nx (b + W)); simpl.
  2:{ exists c, buf, timer, []. simpl. rewrite Z.add_0_r. split; [done|].
      split; [lia|]. split; [constructor|lia]. }
  destruct (Z.ltb_spec c (Client.len source)); simpl.
  2:{ exists c, buf, timer, []. simpl. rewrite Z.add_0_r. split; [done|].
      split; [lia|]. split; [constructor|lia]. }
  destruct (slice_fits source c C Hascii) as (Hlen & Hin & Henc); [lia|done|].
  set (p := Client.py_slice source c (c + C)) in *.
  destruct (IH (c + Client.len p) (<[nx := p]> buf) (nx + 1)
               (if b =? nx then Some now else timer)) as (c' & buf' & timer' & ps & -> & Hc' & Hps & _);
    [lia|].
  exists c', buf', timer', (p :: ps). simpl List.length.
  replace (nx + Z.of_nat (S (List.length ps))) with (nx + 1 + Z.of_nat (List.length ps)) by lia.
  split; [done|]. split; [lia|]. split; [by constructor|lia].
Qed.

Lemma accept_in_order n p app :
  encode_len p ≤ C →
  Server.handle_segment cr (data_msg n p) (Server.State n ∅ app C)
  = (Server.Continue, Server.State (n + 1) ∅ (app ++ [p]) C,
     [Server.send_ack cr (Server.State (n + 1) ∅ (app ++ [p]) C)]).
Proof.
  intros Hp. unfold data_msg.
  rewrite (ServerProofs.handle_segment_accepted cr _ _ n p) by (done || simpl; lia).
  assert (Server.adapt cr (Server.reassemble n p (Server.State n ∅ app C))
          = Server.State (n + 1) ∅ (app ++ [p]) C) as ->; [|done].
  rewrite (ServerProofs.reassemble_at_base (Server.State n ∅ app C) p). simpl.
  rewrite delete_empty, ServerProofs.drain_none by done.
  unfold Server.adapt, cr. simpl. destruct dyn; [|done].
  rewrite map_size_empty. simpl. by rewrite Z.min_l by lia.
Qed.

Lemma sent_ack n app :
  sent [Server.send_ack cr (Server.State (n + 1) ∅ app C)] = [ack_rec n].
Proof. unfold sent, Server.send_ack, ack_rec. simpl. by rewrite Z.add_simpl_r. Qed.

Lemma receiver_run ps : ∀ n app s wr ts,
  Forall (λ p, encode_len p ≤ C) ps →
  run cs cr (replicate (List.length ps) ReceiverTurn)
      (World s wr (run_of n ps) (Server.State n ∅ app C) false ts)
  = Some (World s wr [] (Server.State (n + Z.of_nat (List.length ps)) ∅ (app ++ ps) C) false
                (ts ++ ack_run n (List.length ps))).
Proof.
  induction ps as [|p ps IH]; intros n app s wr ts Hps.
  { simpl. by rewrite Z.add_0_r, !app_nil_r. }
  apply Forall_cons in Hps as [Hp Hps].
  simpl List.length. simpl replicate. simpl run_of.
  change (run cs cr (ReceiverTurn :: ?l) ?w)
    with (match step cs cr ReceiverTurn w with Some w' => run cs cr l w' | None => None end).
  unfold step. cbn [stopped to_receiver receiver sender written to_sender].
  rewrite accept_in_order by done. cbn [fst snd].
  rewrite sent_ack, IH by done.
  replace (n + 1 + Z.of_nat (List.length ps)) with (n + Z.of_nat (S (List.length ps))) by lia.
  by rewrite <- !app_assoc.
Qed.

Lemma sender_polls k : ∀ now c buf b nx timer wr tr r stp,
  ∃ timer',
    run cs cr (replicate k (SenderPoll now))
        (World (Client.State c buf b nx timer (JInt C)) wr tr r stp (ack_run b k))
    = Some (World (Client.State c buf (b + Z.of_nat k) nx timer' (JInt C)) wr tr r stp []).
Proof.
  induction k as [|k IH]; intros now c buf b nx timer wr tr r stp.
  { exists timer. simpl. by rewrite Z.add_0_r. }
  simpl replicate. simpl ack_run.
  change (run cs cr (SenderPoll now :: ?l) ?w)
    with (match step cs cr (SenderPoll now) w with Some w' => run cs cr l w' | None => None end).
  unfold step. cbn [to_sender sender written to_receiver receiver stopped].
  assert (Client.on_ack cs (ack_rec b) now (Client.State c buf b nx timer (JInt C))
          = Client.State c buf (b + 1) nx (if b + 1 <? nx then Some now else None) (JInt C))
    as ->.
  { unfold Client.on_ack, ack_rec, cs. destruct dyn; simpl; by rewrite Z.leb_refl. }
  destruct (IH now c buf (b + 1) nx (if b + 1 <? nx then Some now else None) wr tr r stp)
    as [timer' ->].
  exists timer'. do 3 f_equal. lia.
Qed.

(** The two peers between two rounds of the lockstep run: nothing is in
    flight and everything cut so far is acknowledged. *)
Definition at_rest (w : world) (c : Z) : Prop :=
  ∃ buf n timer wr app,
    w = World (Client.State c buf n n timer (JInt C)) wr [] (Server.State n ∅ app C) false [].

Lemma round_advances w c :
  at_rest w c → 0 ≤ c < Client.len source →
  ∃ acts w' c', run cs cr acts w = Some w' ∧ at_rest w' c' ∧ c < c' ≤ Client.len source.
Proof.
  intros (buf & n & timer & wr & app & ->) Hc.
  destruct (fill_loop_run (Z.to_nat (n + W - n)) 1 c buf n n timer)
    as (c' & buf' & timer' & ps & Hfill & Hc' & Hps & Hgrow); [lia|].
  destruct (sender_polls (List.length ps) 1 c' buf' n (n + Z.of_nat (List.length ps)) timer'
              (wr ++ run_of n ps) [] 
              (Server.State (n + Z.of_nat (List.length ps)) ∅ (app ++ ps) C) false)
    as [timer'' Hpolls].
  exists ([SenderFill 1] ++ replicate (List.length ps) ReceiverTurn
          ++ replicate (List.length ps) (SenderPoll 1)). eexists. exists c'.
  split; [|split].
  - rewrite run_app, run_one. simpl step. unfold sender_step. simpl Client.do_phase.
    unfold Client.fill. cbn [sender Client.base Client.next_seq_num Client.window_size cs].
    rewrite Hfill. cbn [written to_receiver receiver stopped to_sender]. rewrite app_nil_l.
    rewrite run_app, receiver_run by done. rewrite app_nil_l. exact Hpolls.
  - by eexists _, _, _, _, _.
  - split; [|lia]. apply Hgrow; lia.
Qed.

Lemma lockstep_completes (m : nat) : ∀ w c,
  at_rest w c → 0 ≤ c ≤ Client.len source → (Z.to_nat (Client.len source - c) ≤ m)%nat →
  ∃ acts w', run cs cr acts w = Some w' ∧ at_rest w' (Client.len source).
Proof.
  induction m as [|m IH]; intros w c Hw Hc Hm.
  { exists [], w. split; [done|]. by replace (Client.len source) with c by lia. }
  destruct (Z.eq_dec c (Client.len source)) as [->|Hne].
  { by exists [], w. }
  destruct (round_advances w c Hw) as (acts & w1 & c1 & Hrun & Hw1 & Hc1); [lia|].
  destruct (IH w1 c1 Hw1) as (acts' & w2 & Hrun' & Hw2); [lia..|].
  exists (acts ++ acts'), w2. split; [|done]. by rewrite run_app, Hrun.
Qed.

End lockstep.



End CompletionProofs.

(** * Neither peer fails *)

Module SafetyProofs.
Import Wire System.

(** A record whose ["maximum message size"] field, if it has one, is an
    int. *)
Definition int_size (m : json) : Prop :=
  match m with
  | JObj o =>
      match dict_lookup "maximum message size" o with
      | Some v => ∃ z, v = JInt z
      | None => True
      end
  | _ => True
  end.

(** What keeps both peers going: the sender's size is an int, the records on
    their way to the sender carry int sizes, the records on their way to the
    receiver are DATA records, and the receiver is in its loop. *)
Definition sound (w : world) : Prop :=
  (∃ z, Client.mms (sender w) = JInt z)
  ∧ Forall int_size (to_sender w)
  ∧ Forall ClientSessionProofs.data_record (to_receiver w)
  ∧ stopped w = false.

Lemma fill_loop_keeps fuel cs now st st' out :
  Client.fill_loop fuel cs now st = Some (st', out) →
  Client.mms st' = Client.mms st ∧ Forall ClientSessionProofs.data_record out.
Proof.
  revert st out. induction fuel as [|fuel IH]; intros st out; simpl.
  { intros [= <- <-]. by split. }
  destruct ((Client.next_seq_num st <? Client.base st + Client.window_size cs)
            && (Client.file_cursor st <? Client.len (Client.file_data cs)));
    [|intros [= <- <-]; by split].
  destruct (as_int (Client.mms st)) as [m|]; [|done].
  destruct (Client.fill_loop fuel cs now _) as [[st'' out']|] eqn:Hrec; [|done].
  intros [= <- <-]. destruct (IH _ _ Hrec) as [Hm Hout]. simpl in Hm.
  split; [done|]. constructor; [|done]. by eexists _, _.
Qed.

Lemma fill_loop_some fuel cs now st z :
  Client.mms st = JInt z → is_Some (Client.fill_loop fuel cs now st).
Proof.
  revert st. induction fuel as [|fuel IH]; intros st Hz; simpl; [done|].
  destruct ((Client.next_seq_num st <? Client.base st + Client.window_size cs)
            && (Client.file_cursor st <? Client.len (Client.file_data cs))); [|done].
  rewrite Hz. simpl.
  match goal with |- context [Client.fill_loop fuel cs now ?s] =>
    destruct (IH s eq_refl) as [[st' out] ->] end.
  done.
Qed.

Lemma retransmit_data st : Forall ClientSessionProofs.data_record (Client.retransmit st).
Proof.
  apply Forall_forall. intros m (s & _ & Hm)%list_elem_of_omap.
  destruct (Client.sent_packets_buffer st !! s) as [p|]; [|done].
  injection Hm as <-. by exists s, p.
Qed.

Lemma on_ack_int cs m now st :
  int_size m → (∃ z, Client.mms st = JInt z) → ∃ z, Client.mms (Client.on_ack cs m now st) = JInt z.
Proof.
  intros Hm Hst. unfold Client.on_ack.
  destruct (truthy m); [|done]. destruct m as [| | | | |o]; try done.
  destruct (is_str (dict_get o "type" JNull) "ACK"); [|done].
  destruct (as_int (dict_get o "ack" JNull)) as [a|]; [|done].
  destruct (Client.base st <=? a); [|done]. simpl.
  destruct (truthy (Client.is_dynamic cs)); simpl; [|done].
  unfold dict_has, dict_get. simpl in Hm.
  destruct (dict_lookup "maximum message size" o); done.
Qed.

Lemma do_phase_sound cs p st st' out :
  (∀ m now, p = Client.Ack m now → int_size m) →
  (∃ z, Client.mms st = JInt z) →
  Client.do_phase cs p st = Some (st', out) →
  (∃ z, Client.mms st' = JInt z) ∧ Forall ClientSessionProofs.data_record out.
Proof.
  intros Hp Hst. destruct p as [now|m now|now now']; simpl.
  - intros [Hm Hout]%fill_loop_keeps. by rewrite Hm.
  - intros [= <- <-]. split; [|constructor]. apply on_ack_int; [|done]. by eapply Hp.
  - unfold Client.on_timeout. destruct (Client.expired cs now st); intros [= <- <-].
    + split; [done|apply retransmit_data].
    + by split.
Qed.

Lemma receiver_writes_int cr m st : Forall int_size (sent (Server.handle_segment cr m st).2).
Proof.
  destruct (LimitProofs.handle_segment_writes cr m st) as [->|[->| ->]]; simpl.
  - constructor.
  - constructor; [|constructor]. unfold int_size. simpl.
    destruct (Server.dyn_mss cr); simpl; eauto.
  - by repeat constructor.
Qed.

Lemma step_sound cs cr a w w' : sound w → step cs cr a w = Some w' → sound w'.
Proof.
  intros (Hz & Hts & Htr & Hgo).
  destruct a as [now|now|now now'|]; simpl; unfold sender_step.
  - destruct (Client.do_phase cs (Client.Fill now) (sender w)) as [[st out]|] eqn:Hdo; [|done].
    intros [= <-].
    destruct (do_phase_sound cs (Client.Fill now) _ _ _ ltac:(intros; discriminate) Hz Hdo)
      as [Hz' Hout].
    unfold sound; simpl. repeat split; try done. by apply Forall_app.
  - destruct (to_sender w) as [|m rest] eqn:Hq; intros [= <-]; unfold sound; simpl.
    + by rewrite Hq.
    + apply Forall_cons in Hts as [Hm Hrest]. repeat split; try done.
      by apply on_ack_int.
  - destruct (Client.do_phase cs (Client.Timeout now now') (sender w)) as [[st out]|] eqn:Hdo;
      [|done].
    intros [= <-].
    destruct (do_phase_sound cs (Client.Timeout now now') _ _ _ ltac:(intros; discriminate)
                Hz Hdo) as [Hz' Hout].
    unfold sound; simpl. repeat split; try done. by apply Forall_app.
  - rewrite Hgo. destruct (to_receiver w) as [|m rest] eqn:Hq; [done|].
    intros [= <-]. apply Forall_cons in Htr as [(s & p & ->) Hrest].
    unfold sound; simpl. repeat split; try done.
    + apply Forall_app. split; [done|apply receiver_writes_int].
    + by rewrite WholeSessionProofs.data_continues.
Qed.

Lemma run_sound cs cr acts w w' : sound w → run cs cr acts w = Some w' → sound w'.
Proof.
  revert w. induction acts as [|a acts IH]; intros w Hw; simpl; [by intros [= <-]|].
  destruct (step cs cr a w) as [w1|] eqn:Hstep; [|done].
  apply IH. by eapply step_sound.
Qed.

(** On a connection neither peer fails.  Over any run of the two peers that
    starts with an int for the negotiated size, whatever the window size,
    the source and the interleaving: the segment size of the sender is an
    int, so that no part of a turn of its loop raises (the slice of line 144
    is the one place that could), and the receiver stays in its transfer
    loop, neither raising nor leaving it. *)
Theorem peers_never_fail (cs : Client.config) (cr : Server.config) (z0 : Z)
    (acts : list action) (w : world) :
  run cs cr acts (start cr (JInt z0)) = Some w →
  (∃ z, Client.mms (sender w) = JInt z)
  ∧ (∀ p, is_Some (Client.do_phase cs p (sender w)))
  ∧ stopped w = false
  ∧ ∀ m rest, to_receiver w = m :: rest →
      (Server.handle_segment cr m (receiver w)).1.1 = Server.Continue.
Proof.
  intros Hrun.
  assert (sound (start cr (JInt z0))) as Hstart.
  { unfold sound; simpl. repeat split; try done. by exists z0. }
  destruct (run_sound cs cr acts _ w Hstart Hrun) as ([z Hz] & Hts & Htr & Hgo).
  split; [by exists z|]. split; [|split; [done|]].
  - intros [now|m now|now now']; simpl; [|done..].
    by eapply fill_loop_some.
  - intros m rest Hq. rewrite Hq in Htr. apply Forall_cons in Htr as [(s & p & ->) _].
    apply WholeSessionProofs.data_continues.
Qed.

Lemma peers_never_fail_witness :
  let cs := Client.Config "HELLO WORLD" 2 5 (JBool true) in
  let cr := Server.Config 10 true in
  let acts := [SenderFill 100; ReceiverTurn; SenderPoll 101] in
  ∃ w, run cs cr acts (start cr (JInt 10)) = Some w
  ∧ to_receiver w = [data_msg 1 "D"]
  ∧ (∃ z, Client.mms (sender w) = JInt z)
  ∧ (∀ p, is_Some (Client.do_phase cs p (sender w)))
  ∧ stopped w = false
  ∧ ∀ m rest, to_receiver w = m :: rest →
      (Server.handle_segment cr m (receiver w)).1.1 = Server.Continue.
Proof.
  eexists. split; [vm_compute; reflexivity|]. split; [reflexivity|].
  apply (peers_never_fail (Client.Config "HELLO WORLD" 2 5 (JBool true))
           (Server.Config 10 true) 10 [SenderFill 100; ReceiverTurn; SenderPoll 101]).
  vm_compute; reflexivity.
Defined.

End SafetyProofs.
